(** * motility_analysis: the [Profile] class of [motility_analysis/profile.py]

    A shallow embedding of [Profile.__init__], the [collate_*] methods,
    [Profile.analyse_teleportations] and [Profile.calculate_msd], followed by
    the properties the specification states about them.

    Conventions of the embedding.
    - A Python [float] is a binary64 value: Rocq's primitive [float], with
      IEEE comparisons ([nan] compares false with everything).
    - An attribute that may hold [None] is an [option float].
    - A raised exception is the [Raise] case of [result]; a method that
      mutates [self] and prints is a function on a [world] (the object and
      the text printed so far) that also returns a [result].
    - [numpy.mean], the C library's [log] and [exp] and
      [scipy.stats.linregress] are not code of this repository: they are the
      fields of the class [Numerics], and every statement holds for every
      instance of it.
    - [Position.t] and [Track.t] are records of the attributes of the
      classes of module [track] that [profile.py] reads. *)

From Stdlib Require Import String.
From Stdlib Require Import List Bool ZArith Lia Floats.
From Stdlib Require Uint63.
From Stdlib Require Import Sorting.Sorted Sorting.Permutation.
Import ListNotations.

Set Warnings "-inexact-float".

(* ================================================================= *)
(** * Python values *)

(** The exceptions that the code under study can raise. *)
Inductive exn : Type :=
| IndexError | ValueError | TypeError | KeyError
| AttributeError | ZeroDivisionError | OverflowError.

Inductive result (A : Type) : Type :=
| Ok (a : A)
| Raise (e : exn).
Arguments Ok {A} a.
Arguments Raise {A} e.

Definition bind {A B : Type} (m : result A) (k : A -> result B) : result B :=
  match m with
  | Ok a => k a
  | Raise e => Raise e
  end.

Declare Scope py_scope.
Delimit Scope py_scope with py.
Notation "x <- m ;; k" := (bind m (fun x => k))
  (at level 61, m at next level, right associativity) : py_scope.

(** A list comprehension whose element expression may raise: elements are
    evaluated left to right and the first exception ends the evaluation. *)
Fixpoint mapM {A B : Type} (f : A -> result B) (l : list A) : result (list B) :=
  match l with
  | [] => Ok []
  | a :: l' =>
      match f a with
      | Ok b => match mapM f l' with
                | Ok bs => Ok (b :: bs)
                | Raise e => Raise e
                end
      | Raise e => Raise e
      end
  end.

Module Py.
Local Open Scope float_scope.

(** [float(n)] for a list length. *)
Definition of_nat (n : nat) : float := of_uint63 (Uint63.of_Z (Z.of_nat n)).

(** Truth value of a float: only [0.0] and [-0.0] are false; [nan] is true. *)
Definition truthy (v : float) : bool := negb (v =? 0).

(** Truth value of an attribute that may be [None]. *)
Definition truthy_opt (o : option float) : bool :=
  match o with
  | None => false
  | Some v => truthy v
  end.

(** The loop of the builtin [min]: [if item < min_item: min_item = item]. *)
Definition min_loop (items : list float) (min_item : float) : float :=
  fold_left (fun m item => if item <? m then item else m) items min_item.

Definition max_loop (items : list float) (max_item : float) : float :=
  fold_left (fun m item => if m <? item then item else m) items max_item.

(** [min(l)] and [max(l)] on a list of floats: [ValueError] on an empty list. *)
Definition min (l : list float) : result float :=
  match l with
  | [] => Raise ValueError
  | a :: r => Ok (min_loop r a)
  end.

Definition max (l : list float) : result float :=
  match l with
  | [] => Raise ValueError
  | a :: r => Ok (max_loop r a)
  end.

(** [a < b], [a > b] where [a] may be [None]: ordering [None] against a
    float raises [TypeError]. *)
Definition lt (a : option float) (b : float) : result bool :=
  match a with
  | None => Raise TypeError
  | Some v => Ok (v <? b)
  end.

Definition gt (a : option float) (b : float) : result bool :=
  match a with
  | None => Raise TypeError
  | Some v => Ok (b <? v)
  end.

(** [max(l)] on a list whose items may be [None]: a list of one item is
    returned without any comparison; a comparison with [None] raises. *)
Fixpoint max_opt_loop (items : list (option float)) (max_item : option float)
  : result (option float) :=
  match items with
  | [] => Ok max_item
  | item :: rest =>
      match item, max_item with
      | Some v, Some m => max_opt_loop rest (if m <? v then item else max_item)
      | _, _ => Raise TypeError
      end
  end.

Definition max_opt (l : list (option float)) : result (option float) :=
  match l with
  | [] => Raise ValueError
  | a :: r => max_opt_loop r a
  end.

(** [l[-1]]. *)
Definition last_item {A : Type} (l : list A) : result A :=
  match rev l with
  | [] => Raise IndexError
  | a :: _ => Ok a
  end.

(** [l[0]]. *)
Definition first_item {A : Type} (l : list A) : result A :=
  match l with
  | [] => Raise IndexError
  | a :: _ => Ok a
  end.

(** Insertion of [k] into an ascending list, after the items it does not
    precede. *)
Fixpoint insert_sorted (k : float) (l : list float) : list float :=
  match l with
  | [] => [k]
  | h :: t => if k <? h then k :: l else h :: insert_sorted k t
  end.

(** [sorted(l)] for floats. Python's sort is stable and compares with [<];
    on keys that [<] orders totally (no [nan] among them) every stable sort
    returns the same list, which is what this insertion sort computes. *)
Definition sorted (l : list float) : list float :=
  fold_left (fun acc k => insert_sorted k acc) l [].

End Py.

(* ================================================================= *)
(** * Dictionaries keyed by floats *)

Module Dict.
Local Open Scope float_scope.

(** A [dict] in insertion order. *)
Definition t (V : Type) : Type := list (float * V).

(** Two keys denote the same entry when they are [==]; a key that is [nan]
    is found through object identity, and there is one [nan] value. *)
Definition key_match (a b : float) : bool :=
  (a =? b) || (is_nan a && is_nan b).

(** [k in d.keys()] *)
Definition mem {V : Type} (k : float) (d : t V) : bool :=
  existsb (fun e => key_match (fst e) k) d.

(** [d[k]] *)
Fixpoint get {V : Type} (k : float) (d : t V) : result V :=
  match d with
  | [] => Raise KeyError
  | (k', v) :: r => if key_match k' k then Ok v else get k r
  end.

(** [d[k] = v]: the entry of an existing key is overwritten in place, a new
    key is added at the end. *)
Fixpoint set {V : Type} (k : float) (v : V) (d : t V) : t V :=
  match d with
  | [] => [(k, v)]
  | (k', v') :: r => if key_match k' k then (k', v) :: r else (k', v') :: set k v r
  end.

(** [list(d.keys())] *)
Definition keys {V : Type} (d : t V) : list float := map fst d.

End Dict.

(* ================================================================= *)
(** * Positions and tracks *)

Module Position.

(** Modelled from the spec: class [Position] of module [track], which
    [profile.py] imports. "A single observation with x, y, z (may be
    absent/undefined), time_s, speed, turn, roll, instant_fmi,
    total_displacement_squared, and boolean meets_arrest_coeff_threshold.
    Any numeric field may be undefined (NaN/null)": each numeric field is
    an option, [None] for null. *)
Record t : Type := mk {
  x : option float;
  y : option float;
  z : option float;
  time_s : option float;
  speed : option float;
  turn : option float;
  roll : option float;
  instant_fmi : option float;
  total_displacement_squared : option float;
  meets_arrest_coeff_threshold : bool
}.

End Position.

Module Track.

(** Modelled from the spec: class [Track] of module [track]. "Ordered
    sequence of Position; scalar attributes displacement, duration_min,
    length, meander, broken; derived statistics median_speed(), irq_speed(),
    median_turn(), irq_turn(), median_roll(), irq_roll(),
    arrest_coefficient; time-keyed maps". A method without arguments is the
    field of the value it returns; [oid] is the identity of the object,
    which is what a [set] of tracks compares. *)
Record t : Type := mk {
  oid : nat;
  positions : list Position.t;
  displacement : float;
  duration_min : float;
  length : float;
  meander : float;
  broken : bool;
  arrest_coefficient : float;
  median_speed : float;
  irq_speed : float;
  median_turn : float;
  irq_turn : float;
  median_roll : float;
  irq_roll : float;
  get_deltaT_displacements_sq : Dict.t (list float)
}.

End Track.

(* ================================================================= *)
(** * External numerical routines *)

(** The five values returned by [scipy.stats.linregress]. *)
Record LinregressResult : Type := mkLinregress {
  lr_slope : float;
  lr_intercept : float;
  lr_r : float;
  lr_p : float;
  lr_stderr : float
}.

(** [numpy.mean] on a list of floats, the C library's [log] and [exp], and
    [scipy.stats.linregress] (which raises on inputs it rejects). *)
Class Numerics : Type := {
  np_mean : list float -> float;
  libm_log : float -> float;
  libm_exp : float -> float;
  linregress : list float -> list float -> result LinregressResult
}.

Module Math.
Local Open Scope float_scope.

(** The value of [math.log(x)] where it returns one: [nan] is handed back
    as it is, any other argument goes to the C library. *)
Definition ln `{Numerics} (x : float) : float :=
  if is_nan x then x else libm_log x.

(** [math.log(x)]: an argument that is neither [nan] nor positive is a
    "math domain error". *)
Definition log `{Numerics} (x : float) : result float :=
  if is_nan x || (0 <? x) then Ok (ln x) else Raise ValueError.

(** [math.exp(x)]: an infinite result for a finite argument is a "math range
    error". *)
Definition exp `{Numerics} (x : float) : result float :=
  let r := libm_exp x in
  if is_infinity r && is_finite x then Raise OverflowError else Ok r.

(** [math.isnan], [numpy.isnan] on a float. *)
Definition isnan (x : float) : bool := is_nan x.

End Math.

(* ================================================================= *)
(** * The class [Profile] *)

Module Profile.
Local Open Scope float_scope.
Local Open Scope py_scope.

Module TeleportPoint.

(** The class [Profile.TeleportPoint]: the coordinates and the time are
    those of a position, hence possibly [None]. *)
Record t : Type := mk {
  x : option float;
  y : option float;
  z : option float;
  time : option float;
  track : Track.t;
  start : bool
}.

End TeleportPoint.

(** The attributes that [__init__] sets on a [Profile]. *)
Record t : Type := mk {
  tracks : list Track.t;
  duration : list float;
  length : list float;
  displacement : list float;
  meander : list float;
  medSpd : list float;
  irqSpd : list float;
  medTurn : list float;
  irqTurn : list float;
  medRoll : list float;
  irqRoll : list float;
  teleport_tracks : list Track.t;
  teleport_ends : list TeleportPoint.t;
  teleport_starts : list TeleportPoint.t
}.

(** The sub-volume computed by [analyse_teleportations]. *)
Record Box : Type := mkBox {
  x_low : float;
  x_high : float;
  y_low : float;
  y_high : float;
  z_low : float;
  z_high : float
}.

(** What the methods print, as data: one constructor per message (or group
    of consecutive messages) with the values it formats. *)
Inductive event : Type :=
| Excluded_displacement (excluded before : nat) (threshold : float)
| Excluded_observations (excluded before : nat)
| Excluded_duration (excluded before : nat)
| Excluded_arrest_coefficient (excluded before : nat)
| Broken_tracks (broken total : nat) (percent : float)
| Analysing_teleports
| Volume_boundaries (b : Box)
| End_time (seconds minutes : float)
| Teleport_summary (involved total : nat) (proportion : float).

(** The object and the text printed so far. *)
Record world : Type := mkWorld {
  self : t;
  stdout : list event
}.

(** A method body: it may update the object, print, and raise; what it did
    before raising stays done. *)
Definition M (A : Type) : Type := world -> world * result A.

Definition ret {A : Type} (a : A) : M A := fun w => (w, Ok a).

Definition mbind {A B : Type} (m : M A) (k : A -> M B) : M B :=
  fun w =>
    match m w with
    | (w', Ok a) => k a w'
    | (w', Raise e) => (w', Raise e)
    end.

Notation "x <~ m ;; k" := (mbind m (fun x => k))
  (at level 61, m at next level, right associativity) : py_scope.
Notation "m ;;; k" := (mbind m (fun _ => k))
  (at level 61, right associativity) : py_scope.

Definition lift {A : Type} (r : result A) : M A := fun w => (w, r).

Definition print (e : event) : M unit :=
  fun w => (mkWorld (self w) (stdout w ++ [e]), Ok tt).

Definition get_self : M t := fun w => (w, Ok (self w)).

(** [for a in l: body a] *)
Fixpoint for_each {A : Type} (l : list A) (body : A -> M unit) : M unit :=
  match l with
  | [] => ret tt
  | a :: l' => body a ;;; for_each l' body
  end.

(** ** The [collate_*] methods *)

(** [[p.speed for t in self.tracks for p in t.positions
      if (p.speed is not None and not math.isnan(p.speed)
          and p.meets_arrest_coeff_threshold)]] *)
Definition collate_speeds (self : t) : list float :=
  flat_map (fun t =>
    flat_map (fun p =>
      match Position.speed p with
      | Some v =>
          if negb (Math.isnan v) && Position.meets_arrest_coeff_threshold p
          then [v] else []
      | None => []
      end) (Track.positions t)) (tracks self).

Definition collate_turns (self : t) : list float :=
  flat_map (fun t =>
    flat_map (fun p =>
      match Position.turn p with
      | Some v =>
          if negb (Math.isnan v) && Position.meets_arrest_coeff_threshold p
          then [v] else []
      | None => []
      end) (Track.positions t)) (tracks self).

(** [[p.instant_fmi for t in self.tracks for p in t.positions
      if p.instant_fmi is not None and p.meets_arrest_coeff_threshold]] *)
Definition collate_instantaneous_fmi (self : t) : list float :=
  flat_map (fun t =>
    flat_map (fun p =>
      match Position.instant_fmi p with
      | Some v => if Position.meets_arrest_coeff_threshold p then [v] else []
      | None => []
      end) (Track.positions t)) (tracks self).

(** [[p.roll for t in self.tracks for p in t.positions
      if (p.roll is not None and not math.isnan(p.roll))]] *)
Definition collate_rolls (self : t) : list float :=
  flat_map (fun t =>
    flat_map (fun p =>
      match Position.roll p with
      | Some v => if negb (Math.isnan v) then [v] else []
      | None => []
      end) (Track.positions t)) (tracks self).

(** [[t.meander for t in self.tracks if t.meander]] *)
Definition collate_meanders (self : t) : list float :=
  flat_map (fun t => if Py.truthy (Track.meander t) then [Track.meander t] else [])
           (tracks self).

(** [[t.length for t in self.tracks if t.length]] *)
Definition collate_lengths (self : t) : list float :=
  flat_map (fun t => if Py.truthy (Track.length t) then [Track.length t] else [])
           (tracks self).

(** [[t.displacement for t in self.tracks if t.displacement]] *)
Definition collate_displacements (self : t) : list float :=
  flat_map (fun t => if Py.truthy (Track.displacement t) then [Track.displacement t] else [])
           (tracks self).

(** ** [analyse_teleportations] *)

(** The nested function [inside_imaging_volume]; the bounds are the local
    variables of the enclosing call. *)
Definition inside_imaging_volume (b : Box) (xpos ypos zpos : option float)
  : result bool :=
  c1 <- Py.lt xpos (x_low b) ;;
  c2 <- (if c1 then Ok true else Py.gt xpos (x_high b)) ;;
  if c2 then Ok false else
  c3 <- Py.lt ypos (y_low b) ;;
  c4 <- (if c3 then Ok true else Py.gt ypos (y_high b)) ;;
  if c4 then Ok false else
  c5 <- Py.lt zpos (z_low b) ;;
  c6 <- (if c5 then Ok true else Py.gt zpos (z_high b)) ;;
  if c6 then Ok false else Ok true.

(** [[p.x for t in self.tracks for p in t.positions if p.x]], for the
    coordinate that [coord] reads. *)
Definition coordinates (coord : Position.t -> option float) (tracks : list Track.t)
  : list float :=
  flat_map (fun t =>
    flat_map (fun p =>
      match coord p with
      | Some v => if Py.truthy v then [v] else []
      | None => []
      end) (Track.positions t)) tracks.

(** The estimate of the imaging volume and of the sub-volume that lies
    [margin] inside it: the statements from [xs = ...] to [z_high = ...]. *)
Definition imaging_volume (margin : float) (tracks : list Track.t) : result Box :=
  let xs := coordinates Position.x tracks in
  let ys := coordinates Position.y tracks in
  let zs := coordinates Position.z tracks in
  max_x <- Py.max xs ;; min_x <- Py.min xs ;;
  let x_range := max_x - min_x in
  max_y <- Py.max ys ;; min_y <- Py.min ys ;;
  let y_range := max_y - min_y in
  max_z <- Py.max zs ;; min_z <- Py.min zs ;;
  let z_range := max_z - min_z in
  Ok (mkBox (min_x + (margin * x_range)) (max_x - (margin * x_range))
            (min_y + (margin * y_range)) (max_y - (margin * y_range))
            (min_z + (margin * z_range)) (max_z - (margin * z_range))).

(** [time_s != 0.0]; [None != 0.0] is true. *)
Definition ne_zero (time_s : option float) : bool :=
  match time_s with
  | None => true
  | Some v => negb (v =? 0.0)
  end.

Definition append_start (p : TeleportPoint.t) : M unit :=
  fun w =>
    let s := self w in
    (mkWorld (mk (tracks s) (duration s) (length s) (displacement s) (meander s)
                 (medSpd s) (irqSpd s) (medTurn s) (irqTurn s) (medRoll s) (irqRoll s)
                 (teleport_tracks s) (teleport_ends s) (teleport_starts s ++ [p]))
             (stdout w), Ok tt).

Definition append_end (p : TeleportPoint.t) : M unit :=
  fun w =>
    let s := self w in
    (mkWorld (mk (tracks s) (duration s) (length s) (displacement s) (meander s)
                 (medSpd s) (irqSpd s) (medTurn s) (irqTurn s) (medRoll s) (irqRoll s)
                 (teleport_tracks s) (teleport_ends s ++ [p]) (teleport_starts s))
             (stdout w), Ok tt).

Definition set_teleport_tracks (l : list Track.t) : M unit :=
  fun w =>
    let s := self w in
    (mkWorld (mk (tracks s) (duration s) (length s) (displacement s) (meander s)
                 (medSpd s) (irqSpd s) (medTurn s) (irqTurn s) (medRoll s) (irqRoll s)
                 l (teleport_ends s) (teleport_starts s))
             (stdout w), Ok tt).

(** The start-type point built for track [t]. *)
Definition start_point (t : Track.t) (p_start p_end : Position.t) : TeleportPoint.t :=
  TeleportPoint.mk (Position.x p_start) (Position.y p_start) (Position.z p_end)
                  (Position.time_s p_start) t true.

Definition end_point (t : Track.t) (p_end : Position.t) : TeleportPoint.t :=
  TeleportPoint.mk (Position.x p_end) (Position.y p_end) (Position.z p_end)
                  (Position.time_s p_end) t false.

(** The body of [for t in self.tracks:]. *)
Definition scan_track (b : Box) (end_time : float) (t : Track.t) : M unit :=
  p_start <~ lift (Py.first_item (Track.positions t)) ;;
  p_end <~ lift (Py.last_item (Track.positions t)) ;;
  is_start <~ lift (if ne_zero (Position.time_s p_start)
                    then inside_imaging_volume b (Position.x p_start)
                           (Position.y p_start) (Position.z p_start)
                    else Ok false) ;;
  (if is_start then append_start (start_point t p_start p_end) else ret tt) ;;;
  is_end <~ lift (before <- Py.lt (Position.time_s p_end) end_time ;;
                  if before
                  then inside_imaging_volume b (Position.x p_end)
                         (Position.y p_end) (Position.z p_end)
                  else Ok false) ;;
  (if is_end then append_end (end_point t p_end) else ret tt).

(** [list(set(l))] for tracks: one item per object. The order in which a
    set is listed is not specified; here it is that of first occurrence. *)
Fixpoint unique_tracks (l : list Track.t) (seen : list nat) : list Track.t :=
  match l with
  | [] => []
  | t :: l' =>
      if existsb (Nat.eqb (Track.oid t)) seen then unique_tracks l' seen
      else t :: unique_tracks l' (Track.oid t :: seen)
  end.

Definition analyse_teleportations (margin : float) : M unit :=
  print Analysing_teleports ;;;
  s <~ get_self ;;
  b <~ lift (imaging_volume margin (tracks s)) ;;
  print (Volume_boundaries b) ;;;
  track_end_times <~ lift (mapM (fun t => p <- Py.last_item (Track.positions t) ;;
                                          Ok (Position.time_s p)) (tracks s)) ;;
  end_time <~ lift (Py.max_opt track_end_times) ;;
  (* ['{:.2f}'.format(end_time, end_time / 60.0)] *)
  end_time <~ lift (match end_time with
                    | Some e => Ok e
                    | None => Raise TypeError
                    end) ;;
  print (End_time end_time (end_time / 60.0)) ;;;
  for_each (tracks s) (scan_track b end_time) ;;;
  s <~ get_self ;;
  let tele_points := teleport_starts s ++ teleport_ends s in
  set_teleport_tracks (unique_tracks (map TeleportPoint.track tele_points) []) ;;;
  s <~ get_self ;;
  proportion <~ lift (match tracks s with
                      | [] => Raise ZeroDivisionError
                      | _ => Ok (Py.of_nat (List.length (teleport_tracks s))
                                 / Py.of_nat (List.length (tracks s)))
                      end) ;;
  print (Teleport_summary (List.length (teleport_tracks s)) (List.length (tracks s))
                          proportion) ;;;
  let all_points := teleport_starts s ++ teleport_ends s in
  (* [all_points.sort(key=lambda point: point.time_s)]: a [TeleportPoint] has
     the attribute [time] and no attribute [time_s], so the key function
     raises on the first point; with no point it is never called, and the
     loop over [all_points] that follows has nothing to print. *)
  match all_points with
  | [] => ret tt
  | _ :: _ => lift (Raise AttributeError)
  end.

(** ** [__init__] *)

(** One [if trim_...:] block: the tracks that [keep] accepts are retained and
    the number excluded is printed with the number there was before. *)
Definition trim (keep : Track.t -> bool) (report : nat -> nat -> event)
  (st : list Track.t * list event) : list Track.t * list event :=
  let len_before := List.length (fst st) in
  let kept := filter keep (fst st) in
  (kept, snd st ++ [report (len_before - List.length kept)%nat len_before]).

(** [t.displacement >= trim_displacement] *)
Definition meets_displacement (threshold : float) (t : Track.t) : bool :=
  threshold <=? Track.displacement t.

(** [len(t.positions) >= trim_observations] *)
Definition meets_observations (threshold : Z) (t : Track.t) : bool :=
  (threshold <=? Z.of_nat (List.length (Track.positions t)))%Z.

(** [t.duration_min >= trim_duration] *)
Definition meets_duration (threshold : float) (t : Track.t) : bool :=
  threshold <=? Track.duration_min t.

(** [t.arrest_coefficient < trim_arrest_coefficient] *)
Definition meets_arrest_coefficient (threshold : float) (t : Track.t) : bool :=
  Track.arrest_coefficient t <? threshold.

Definition has_median_speed (t : Track.t) : bool :=
  negb (Math.isnan (Track.median_speed t)).

Definition has_median_turn (t : Track.t) : bool :=
  negb (Math.isnan (Track.median_turn t)).

(** The four [if trim_...:] blocks, in their order. A threshold is tested
    for its truth value: [None], [False] and a zero leave the block out. *)
Definition trim_all (tracks : list Track.t)
  (trim_displacement : option float) (trim_observations : option Z)
  (trim_duration trim_arrest_coefficient : option float)
  : list Track.t * list event :=
  let st := (tracks, []) in
  let st := match trim_displacement with
            | Some thr => if Py.truthy thr
                          then trim (meets_displacement thr)
                                    (fun x y => Excluded_displacement x y thr) st
                          else st
            | None => st
            end in
  let st := match trim_observations with
            | Some thr => if negb (thr =? 0)%Z
                          then trim (meets_observations thr) Excluded_observations st
                          else st
            | None => st
            end in
  let st := match trim_duration with
            | Some thr => if Py.truthy thr
                          then trim (meets_duration thr) Excluded_duration st
                          else st
            | None => st
            end in
  match trim_arrest_coefficient with
  | Some thr => if Py.truthy thr
                then trim (meets_arrest_coefficient thr) Excluded_arrest_coefficient st
                else st
  | None => st
  end.

(** [Profile(tracks, trim_displacement, trim_observations, trim_duration,
    trim_arrest_coefficient, analyse_teleports)]: what is printed, and the
    object, unless the teleport analysis raises. *)
Definition init (tracks : list Track.t)
  (trim_displacement : option float) (trim_observations : option Z)
  (trim_duration trim_arrest_coefficient : option float)
  (analyse_teleports : bool) : list event * result t :=
  let st := trim_all tracks trim_displacement trim_observations trim_duration
                     trim_arrest_coefficient in
  let tracks := filter has_median_speed (fst st) in
  let tracks := filter has_median_turn tracks in
  let broken := filter Track.broken tracks in
  let percent_broken :=
    match tracks with
    | [] => (-1.0)
    | _ => 100.0 * Py.of_nat (List.length broken) / Py.of_nat (List.length tracks)
    end in
  let out := snd st ++ [Broken_tracks (List.length broken) (List.length tracks)
                                      percent_broken] in
  let nonnan (f : Track.t -> float) :=
    map f (filter (fun t => negb (Math.isnan (f t))) tracks) in
  let s := mk tracks
              (map Track.duration_min tracks)
              (map Track.length tracks)
              (map Track.displacement tracks)
              (map Track.meander tracks)
              (nonnan Track.median_speed) (nonnan Track.irq_speed)
              (nonnan Track.median_turn) (nonnan Track.irq_turn)
              (nonnan Track.median_roll) (nonnan Track.irq_roll)
              [] [] [] in
  if analyse_teleports then
    match analyse_teleportations 0.1 (mkWorld s out) with
    | (w, Ok _) => (stdout w, Ok (self w))
    | (w, Raise e) => (stdout w, Raise e)
    end
  else (out, Ok s).

(** ** [calculate_msd] *)

(** The dictionary returned by [calculate_msd]. *)
Record MsdResult : Type := mkMsdResult {
  msd : list (float * float);
  slope : float;
  intercept : float;
  r : float;
  p : float;
  stderr : float;
  msd_time_cutoff : float;
  linearPlot : list float;
  linearTimes : list float
}.

(** The dictionary of the last [return]. *)
Definition sentinel : MsdResult :=
  mkMsdResult [(0.0, 0.0)] 0.0 0.30 0.0 0.0 0.0 100.0 [] [].

(** A loop whose body may raise. *)
Fixpoint foldM {A S : Type} (body : S -> A -> result S) (l : list A) (s : S)
  : result S :=
  match l with
  | [] => Ok s
  | a :: l' => s' <- body s a ;; foldM body l' s'
  end.

(** [if dt not in msd_dict.keys(): msd_dict[dt] = []] followed by
    [msd_dict[dt].extend(values)]; [append] is the case of one value. *)
Definition extend_at (dt : float) (values : list float) (msd_dict : Dict.t (list float))
  : result (Dict.t (list float)) :=
  let msd_dict := if Dict.mem dt msd_dict then msd_dict else Dict.set dt [] msd_dict in
  entry <- Dict.get dt msd_dict ;;
  Ok (Dict.set dt (entry ++ values) msd_dict).

(** The branch [method is 'allT']. *)
Definition collate_allT (profiles : list t) : result (Dict.t (list float)) :=
  foldM (fun msd_dict p =>
    foldM (fun msd_dict t =>
      let deltaT_displacements_sq := Track.get_deltaT_displacements_sq t in
      foldM (fun msd_dict dt =>
               values <- Dict.get dt deltaT_displacements_sq ;;
               extend_at dt values msd_dict)
            (Dict.keys deltaT_displacements_sq) msd_dict)
      (tracks p) msd_dict)
    profiles [].

(** The other branch: displacement from time zero, by absolute time. The
    loop appends [pos.total_displacement_squared] as it is. A value that is
    [None] raises nothing there: it makes [np.mean] raise [TypeError] on its
    list once the loops are over, and nothing else can raise in between;
    the exception is placed where the value is appended, which gives the
    call the same outcome and keeps the lists lists of floats. *)
Definition collate_from_zero (profiles : list t) : result (Dict.t (list float)) :=
  foldM (fun msd_dict prof =>
    foldM (fun msd_dict t =>
      foldM (fun msd_dict pos =>
               match Position.time_s pos with
               | Some time_s =>
                   if 0.0 <? time_s
                   then match Position.total_displacement_squared pos with
                        | Some value => extend_at time_s [value] msd_dict
                        | None => Raise TypeError
                        end
                   else Ok msd_dict
               | None => Ok msd_dict
               end)
            (Track.positions t) msd_dict)
      (tracks prof) msd_dict)
    profiles [].

(** From [ks = sorted(msd_dict.keys())] to the end of the loop that fills
    [msd]. *)
Definition mean_by_key `{Numerics} (msd_dict : Dict.t (list float))
  : result (list (float * float)) :=
  let ks := Py.sorted (Dict.keys msd_dict) in
  mapM (fun key => values <- Dict.get key msd_dict ;; Ok (key, np_mean values)) ks.

(** The block under [if not msd:]; iterating [profiles=None] raises.
    [method is 'allT'] compares objects; in CPython the occurrences of the
    literal ['allT'] are one object, so that the test is read as equality of
    strings. *)
Definition compute_msd `{Numerics} (profiles : option (list t)) (method : string)
  : result (list (float * float)) :=
  match profiles with
  | None => Raise TypeError
  | Some profiles =>
      msd_dict <- (if String.eqb method "allT" then collate_allT profiles
                   else collate_from_zero profiles) ;;
      mean_by_key msd_dict
  end.

(** [len(times) > 0 and min(times) > 0. and min(msds) > 0.] *)
Definition can_fit (times msds : list float) : result bool :=
  if (0 <? List.length times)%nat then
    min_time <- Py.min times ;;
    if 0.0 <? min_time then
      min_msd <- Py.min msds ;;
      Ok (0.0 <? min_msd)
    else Ok false
  else Ok false.

(** The statements from [if not msd:] to the end of
    [if max_dt is None: ... elif ...: ... else: pass]: the list [msd] that is
    fitted and the value of [max_dt] that is reported. *)
Definition select_msd `{Numerics} (profiles : option (list t))
  (msd : option (list (float * float))) (max_dt : option float) (method : string)
  : result (list (float * float) * float) :=
  msd <- match msd with
         | Some (tup :: rest) => Ok (tup :: rest)
         | _ => compute_msd profiles method
         end ;;
  match max_dt with
  | None =>
      last <- Py.last_item msd ;;
      let biggest_time := fst last in
      Ok (msd, 0.25 * biggest_time)
  | Some max_dt =>
      if negb (max_dt =? infinity)
      then Ok (filter (fun tup => fst tup <=? max_dt) msd, max_dt)
      else Ok (msd, max_dt)
  end.

Definition calculate_msd `{Numerics} (profiles : option (list t))
  (msd : option (list (float * float))) (max_dt : option float) (method : string)
  : result MsdResult :=
  cut <- select_msd profiles msd max_dt method ;;
  let msd := fst cut in
  let max_dt := snd cut in
  let times := map fst msd in
  let msds := map snd msd in
  fit <- can_fit times msds ;;
  if fit then
    dts_log <- mapM Math.log times ;;
    msds_log <- mapM Math.log msds ;;
    reg <- linregress dts_log msds_log ;;
    linear <- mapM (fun x => Math.exp ((x * lr_slope reg) + lr_intercept reg)) dts_log ;;
    Ok (mkMsdResult msd (lr_slope reg) (lr_intercept reg) (lr_r reg) (lr_p reg)
                    (lr_stderr reg) max_dt linear times)
  else Ok sentinel.

End Profile.

(* ================================================================= *)
(** * Sample data *)

Module Sample.
Local Open Scope float_scope.

(** An observation at [(x, y, z)] and time [time_s], with no kinematics. *)
Definition position (x y z time_s : float) : Position.t :=
  Position.mk (Some x) (Some y) (Some z) (Some time_s) None None None None (Some 0.0) true.

(** A track over [positions] whose statistics are all defined. *)
Definition track (oid : nat) (positions : list Position.t)
  (deltaT_sq : Dict.t (list float)) : Track.t :=
  Track.mk oid positions 5.0 2.0 8.0 0.625 false 0.1 1.0 0.5 0.3 0.2 0.1 0.1 deltaT_sq.

(** A track seen at one time only: it has no pair of observations. *)
Definition still : Track.t :=
  track 1 [position 5.0 5.0 5.0 0.0] [].

(** A track moving one unit of length per unit of time along a line: squared
    displacement 1 at delta-t 1 and 4 at delta-t 2. *)
Definition ballistic : Track.t :=
  track 2 [position 1.0 5.0 5.0 0.0; position 2.0 5.0 5.0 1.0; position 3.0 5.0 5.0 2.0]
        [(1.0, [1.0; 1.0]); (2.0, [4.0])].

(** A track that stays in place from time 0 to time 1 and is two units of
    length away at time 3. *)
Definition pausing : Track.t :=
  track 3 [position 1.0 5.0 5.0 0.0; position 1.0 5.0 5.0 1.0; position 3.0 5.0 5.0 3.0]
        [(1.0, [0.0]); (2.0, [4.0]); (3.0, [4.0])].

(** The profile of [tracks], no filter requested. *)
Definition profile (tracks : list Track.t) : result Profile.t :=
  snd (Profile.init tracks None None None None false).

End Sample.

(* ================================================================= *)
(** * Numerical routines for the examples

    The statements of this development hold for every instance of
    [Numerics]. The instance below is the one on which the examples are run:
    the mean adds the samples from left to right and divides by their
    number; [log] and [exp] take the values of CPython's [math.log] and
    [math.exp] at the arguments that the examples use and are [nan]
    elsewhere; the regression is ordinary least squares through the means,
    with [p] and [stderr] as for a fit of two samples. *)

Module Example.
Local Open Scope float_scope.

Definition mean (l : list float) : float :=
  match l with
  | [] => nan
  | a :: rest => fold_left PrimFloat.add rest a / Py.of_nat (List.length l)
  end.

Definition log_table (x : float) : float :=
  if x =? 1.0 then 0.0
  else if x =? 2.0 then 0.6931471805599453
  else if x =? 4.0 then 1.3862943611198906
  else nan.

Definition exp_table (x : float) : float :=
  if x =? 0.0 then 1.0
  else if x =? 0.6931471805599453 then 2.0
  else if x =? 1.3862943611198906 then 4.0
  else nan.

Definition least_squares (x y : list float) : result LinregressResult :=
  match x with
  | [] => Raise ValueError
  | _ :: _ =>
      let xmean := mean x in
      let ymean := mean y in
      let dx := map (fun v => v - xmean) x in
      let dy := map (fun v => v - ymean) y in
      let ssxm := mean (map (fun d => d * d) dx) in
      let ssym := mean (map (fun d => d * d) dy) in
      let ssxym := mean (map (fun d => fst d * snd d) (combine dx dy)) in
      let r := if (ssxm =? 0.0) || (ssym =? 0.0) then 0.0
               else ssxym / PrimFloat.sqrt (ssxm * ssym) in
      let r := if 1.0 <? r then 1.0 else if r <? -1.0 then -1.0 else r in
      let slope := ssxym / ssxm in
      let intercept := ymean - slope * xmean in
      Ok (mkLinregress slope intercept r 0.0 0.0)
  end.

Definition numerics : Numerics :=
  Build_Numerics mean log_table exp_table least_squares.

End Example.

(* ================================================================= *)
(** * The order of floats

    [<], [<=] and [==] on floats, read through the specification of the
    primitive operations: a float that is not [nan] has a rank, a triple of
    integers, and the comparisons are the lexicographic ones on ranks. *)

Module FloatOrder.
Local Open Scope Z_scope.

Definition sf_rank (f : spec_float) : Z * Z * Z :=
  match f with
  | S754_nan => (0, 0, 0)
  | S754_zero _ => (0, 0, 0)
  | S754_infinity true => (-2, 0, 0)
  | S754_infinity false => (2, 0, 0)
  | S754_finite true m e => (-1, - e, Z.neg m)
  | S754_finite false m e => (1, e, Z.pos m)
  end.

Definition sf_is_nan (f : spec_float) : bool :=
  match f with S754_nan => true | _ => false end.

Definition lex_lt (a b : Z * Z * Z) : Prop :=
  let '(a1, a2, a3) := a in
  let '(b1, b2, b3) := b in
  a1 < b1 \/ (a1 = b1 /\ (a2 < b2 \/ (a2 = b2 /\ a3 < b3))).

Definition rank (x : float) : Z * Z * Z := sf_rank (Prim2SF x).

Lemma SFcompare_Lt f g :
  SFcompare f g = Some Lt <->
  sf_is_nan f = false /\ sf_is_nan g = false /\ lex_lt (sf_rank f) (sf_rank g).
Proof.
  destruct f as [[]|[]| |[] m e], g as [[]|[]| |[] m' e']; cbn;
    try (split; [discriminate || (intros _; repeat split; lia) | intros (?&?&?); (discriminate || reflexivity || lia)]).
  all: rewrite Pos.compare_cont_spec; cbn [Pos.switch_Eq];
    destruct (Z.compare_spec e e'); destruct (Pos.compare_spec m m'); cbn;
    split; try discriminate; try (intros _; repeat split; lia);
    try (intros (?&?&?); (reflexivity || lia)).
Qed.

Lemma SFcompare_Eq f g :
  SFcompare f g = Some Eq <->
  sf_is_nan f = false /\ sf_is_nan g = false /\ sf_rank f = sf_rank g.
Proof.
  destruct f as [[]|[]| |[] m e], g as [[]|[]| |[] m' e']; cbn;
    try (split; [discriminate || (intros _; repeat split; reflexivity) | intros (?&?&?); (discriminate || reflexivity)]).
  all: rewrite Pos.compare_cont_spec; cbn [Pos.switch_Eq];
    destruct (Z.compare_spec e e'); destruct (Pos.compare_spec m m'); cbn;
    split; try discriminate; try (intros _; repeat split; f_equal; (lia || (f_equal; lia)));
    try (intros (?&?&E); injection E; intros; (reflexivity || lia)).
Qed.

Lemma is_nan_rank x : is_nan x = sf_is_nan (Prim2SF x).
Proof.
  unfold is_nan. rewrite FloatAxioms.eqb_spec. unfold SFeqb.
  destruct (Prim2SF x) as [[]|[]| |[] m e]; cbn; try reflexivity.
  all: rewrite Pos.compare_cont_spec, Z.compare_refl, Pos.compare_refl; reflexivity.
Qed.

Lemma ltb_lex x y :
  (x <? y)%float = true <-> is_nan x = false /\ is_nan y = false /\ lex_lt (rank x) (rank y).
Proof.
  rewrite FloatAxioms.ltb_spec, !is_nan_rank. unfold SFltb, rank. rewrite <- SFcompare_Lt.
  destruct (SFcompare _ _) as [[]|]; split; congruence.
Qed.

Lemma eqb_lex x y :
  (x =? y)%float = true <-> is_nan x = false /\ is_nan y = false /\ rank x = rank y.
Proof.
  rewrite FloatAxioms.eqb_spec, !is_nan_rank. unfold SFeqb, rank. rewrite <- SFcompare_Eq.
  destruct (SFcompare _ _) as [[]|]; split; congruence.
Qed.

Lemma leb_ltb_eqb x y : (x <=? y)%float = ((x <? y) || (x =? y))%float.
Proof.
  rewrite FloatAxioms.leb_spec, FloatAxioms.ltb_spec, FloatAxioms.eqb_spec. unfold SFleb, SFltb, SFeqb.
  destruct (SFcompare _ _) as [[]|]; reflexivity.
Qed.

Lemma leb_lex x y :
  (x <=? y)%float = true <->
  is_nan x = false /\ is_nan y = false /\ (lex_lt (rank x) (rank y) \/ rank x = rank y).
Proof.
  rewrite leb_ltb_eqb, orb_true_iff, ltb_lex, eqb_lex. tauto.
Qed.

(** Turns float comparisons in the context and the goal into lexicographic
    facts over integer triples, then leaves linear arithmetic. *)
Ltac float_order :=
  repeat match goal with
  | H : (_ <? _)%float = true |- _ => apply ltb_lex in H; destruct H as (? & ? & H)
  | H : (_ <=? _)%float = true |- _ => apply leb_lex in H; destruct H as (? & ? & H)
  | H : (_ =? _)%float = true |- _ => apply eqb_lex in H; destruct H as (? & ? & H)
  | H : (_ <? _)%float = false |- _ => apply not_true_iff_false in H; rewrite ltb_lex in H
  | H : (_ <=? _)%float = false |- _ => apply not_true_iff_false in H; rewrite leb_lex in H
  | H : (_ =? _)%float = false |- _ => apply not_true_iff_false in H; rewrite eqb_lex in H
  | |- (_ <? _)%float = true => apply ltb_lex
  | |- (_ <=? _)%float = true => apply leb_lex
  | |- (_ =? _)%float = true => apply eqb_lex
  | |- (_ <? _)%float = false => apply not_true_iff_false; rewrite ltb_lex
  | |- (_ <=? _)%float = false => apply not_true_iff_false; rewrite leb_lex
  | |- (_ =? _)%float = false => apply not_true_iff_false; rewrite eqb_lex
  end;
  repeat match goal with
  | |- context [rank ?x] =>
      let a := fresh "r" in let b := fresh "r" in let c := fresh "r" in
      destruct (rank x) as [[a b] c]
  | H : context [rank ?x] |- _ =>
      let a := fresh "r" in let b := fresh "r" in let c := fresh "r" in
      destruct (rank x) as [[a b] c]
  end.

Ltac float_order_solve :=
  float_order; unfold lex_lt in *; rewrite ?pair_equal_spec in *;
  intuition (try congruence; try lia).

Lemma ltb_trans x y z : (x <? y)%float = true -> (y <? z)%float = true -> (x <? z)%float = true.
Proof. intros. float_order_solve. Qed.

Lemma leb_ltb_trans x y z : (x <=? y)%float = true -> (y <? z)%float = true -> (x <? z)%float = true.
Proof. intros. float_order_solve. Qed.

Lemma ltb_leb_trans x y z : (x <? y)%float = true -> (y <=? z)%float = true -> (x <? z)%float = true.
Proof. intros. float_order_solve. Qed.

Lemma leb_trans x y z : (x <=? y)%float = true -> (y <=? z)%float = true -> (x <=? z)%float = true.
Proof. intros. float_order_solve. Qed.

Lemma ltb_asym x y : (x <? y)%float = true -> (y <? x)%float = false.
Proof. intros. float_order_solve. Qed.

Lemma leb_not_gtb x y : (x <=? y)%float = true -> (y <? x)%float = false.
Proof. intros. float_order_solve. Qed.

Lemma ltb_total x y :
  is_nan x = false -> is_nan y = false -> (x <? y)%float = false -> (y <=? x)%float = true.
Proof. intros. float_order_solve. Qed.

Lemma eqb_refl x : is_nan x = false -> (x =? x)%float = true.
Proof. unfold is_nan. now destruct (x =? x)%float. Qed.

Lemma eqb_sym x y : (x =? y)%float = (y =? x)%float.
Proof.
  destruct (x =? y)%float eqn:E1, (y =? x)%float eqn:E2; trivial; float_order_solve.
Qed.

Lemma eqb_trans x y z : (x =? y)%float = true -> (y =? z)%float = true -> (x =? z)%float = true.
Proof. intros. float_order_solve. Qed.

Lemma eqb_ltb_compat x y z : (x =? y)%float = true -> (x <? z)%float = (y <? z)%float.
Proof.
  intros H. destruct (x <? z)%float eqn:E1, (y <? z)%float eqn:E2; trivial; float_order_solve.
Qed.

Lemma ltb_not_eqb x y : (x <? y)%float = true -> (x =? y)%float = false.
Proof. intros. float_order_solve. Qed.

Lemma ltb_nonnan x y : (x <? y)%float = true -> is_nan x = false /\ is_nan y = false.
Proof. intros. float_order_solve. Qed.
End FloatOrder.

(* ================================================================= *)
(** * The [collate_*] methods *)

Section Collate.
Local Open Scope float_scope.

Lemma flat_map_singleton_filter {A B : Type} (f : B -> bool) (g : A -> B) (l : list A) :
  flat_map (fun a => if f (g a) then [g a] else []) l = filter f (map g l).
Proof.
  induction l as [|a l IH]; cbn; [reflexivity|].
  rewrite IH. now destruct (f (g a)).
Qed.

Lemma truthy_nonzero (v : float) : Py.truthy v = true <-> (v =? 0) = false.
Proof. unfold Py.truthy. now destruct (v =? 0). Qed.

(** C9. [collate_meanders], [collate_lengths] and [collate_displacements]
    return the values of the attribute over the retained tracks, in their
    order, that are true as Python values; a value that is zero is none of
    the values returned. *)
Theorem collate_per_track_truthy (self : Profile.t) :
  Profile.collate_meanders self
    = filter Py.truthy (map Track.meander (Profile.tracks self)) /\
  Profile.collate_lengths self
    = filter Py.truthy (map Track.length (Profile.tracks self)) /\
  Profile.collate_displacements self
    = filter Py.truthy (map Track.displacement (Profile.tracks self)) /\
  (forall v, In v (Profile.collate_meanders self) \/
             In v (Profile.collate_lengths self) \/
             In v (Profile.collate_displacements self) -> (v =? 0) = false).
Proof.
  unfold Profile.collate_meanders, Profile.collate_lengths, Profile.collate_displacements.
  rewrite !flat_map_singleton_filter.
  repeat split.
  intros v [H|[H|H]]; apply filter_In in H; now apply truthy_nonzero.
Qed.

(** The position filter shared by [collate_speeds] and [collate_turns]. *)
Definition defined_and_motile (value : Position.t -> option float) (p : Position.t)
  (v : float) : Prop :=
  value p = Some v /\ is_nan v = false /\ Position.meets_arrest_coeff_threshold p = true.

Lemma collate_speeds_from (self : Profile.t) (v : float) :
  In v (Profile.collate_speeds self) <->
  exists t p, In t (Profile.tracks self) /\ In p (Track.positions t) /\
              defined_and_motile Position.speed p v.
Proof.
  unfold Profile.collate_speeds, defined_and_motile, Math.isnan. rewrite in_flat_map. split.
  - intros (t & Ht & H). apply in_flat_map in H as (p & Hp & H).
    exists t, p. destruct (Position.speed p) as [s|]; [|contradiction].
    destruct (is_nan s) eqn:En, (Position.meets_arrest_coeff_threshold p) eqn:Em;
      cbn in H; try contradiction.
    destruct H as [<-|[]]. auto.
  - intros (t & p & Ht & Hp & Hs & Hn & Hm). exists t. split; [assumption|].
    apply in_flat_map. exists p. split; [assumption|].
    rewrite Hs, Hn, Hm. now left.
Qed.

Lemma collate_turns_from (self : Profile.t) (v : float) :
  In v (Profile.collate_turns self) <->
  exists t p, In t (Profile.tracks self) /\ In p (Track.positions t) /\
              defined_and_motile Position.turn p v.
Proof.
  unfold Profile.collate_turns, defined_and_motile, Math.isnan. rewrite in_flat_map. split.
  - intros (t & Ht & H). apply in_flat_map in H as (p & Hp & H).
    exists t, p. destruct (Position.turn p) as [s|]; [|contradiction].
    destruct (is_nan s) eqn:En, (Position.meets_arrest_coeff_threshold p) eqn:Em;
      cbn in H; try contradiction.
    destruct H as [<-|[]]. auto.
  - intros (t & p & Ht & Hp & Hs & Hn & Hm). exists t. split; [assumption|].
    apply in_flat_map. exists p. split; [assumption|].
    rewrite Hs, Hn, Hm. now left.
Qed.

(** The per-position collations hold at most one value per position, and
    none for a position that fails the blebbing filter. *)
Definition total_positions (self : Profile.t) : nat :=
  List.length (flat_map Track.positions (Profile.tracks self)).

Lemma flat_map_positions {B : Type} (f : Position.t -> list B) (ts : list Track.t) :
  flat_map (fun t => flat_map f (Track.positions t)) ts
  = flat_map f (flat_map Track.positions ts).
Proof.
  induction ts as [|t ts IH]; cbn; [reflexivity|]. now rewrite flat_map_app, IH.
Qed.

Lemma flat_map_at_most_one {A B : Type} (f : A -> list B) (l : list A) :
  (forall a, List.length (f a) <= 1)%nat ->
  (List.length (flat_map f l) <= List.length l)%nat /\
  (forall a, In a l -> f a = [] -> (List.length (flat_map f l) < List.length l)%nat).
Proof.
  intros Hf. induction l as [|a l [IH1 IH2]]; cbn.
  - split; [lia|contradiction].
  - rewrite length_app. specialize (Hf a) as Ha. split; [lia|].
    intros a' [<-|Hin] Hnil.
    + rewrite Hnil. cbn. lia.
    + specialize (IH2 a' Hin Hnil). lia.
Qed.

Lemma collate_speeds_length (self : Profile.t) :
  (List.length (Profile.collate_speeds self) <= total_positions self)%nat /\
  (forall t p, In t (Profile.tracks self) -> In p (Track.positions t) ->
               Position.meets_arrest_coeff_threshold p = false ->
               (List.length (Profile.collate_speeds self) < total_positions self)%nat).
Proof.
  unfold Profile.collate_speeds, total_positions. rewrite flat_map_positions.
  match goal with |- context [flat_map ?f _] => pose proof (flat_map_at_most_one f) as H end.
  specialize (H (flat_map Track.positions (Profile.tracks self))).
  destruct H as [H1 H2].
  - intros p. destruct (Position.speed p) as [v|]; [|cbn; lia].
    destruct (negb _ && _); cbn; lia.
  - split; [exact H1|]. intros t p Ht Hp Hm. apply (H2 p).
    + apply in_flat_map. now exists t.
    + cbv beta. destruct (Position.speed p); [rewrite Hm, andb_false_r|]; reflexivity.
Qed.

Lemma collate_turns_length (self : Profile.t) :
  (List.length (Profile.collate_turns self) <= total_positions self)%nat /\
  (forall t p, In t (Profile.tracks self) -> In p (Track.positions t) ->
               Position.meets_arrest_coeff_threshold p = false ->
               (List.length (Profile.collate_turns self) < total_positions self)%nat).
Proof.
  unfold Profile.collate_turns, total_positions. rewrite flat_map_positions.
  match goal with |- context [flat_map ?f _] => pose proof (flat_map_at_most_one f) as H end.
  specialize (H (flat_map Track.positions (Profile.tracks self))).
  destruct H as [H1 H2].
  - intros p. destruct (Position.turn p) as [v|]; [|cbn; lia].
    destruct (negb _ && _); cbn; lia.
  - split; [exact H1|]. intros t p Ht Hp Hm. apply (H2 p).
    + apply in_flat_map. now exists t.
    + cbv beta. destruct (Position.turn p); [rewrite Hm, andb_false_r|]; reflexivity.
Qed.

Lemma collate_instantaneous_fmi_length (self : Profile.t) :
  (List.length (Profile.collate_instantaneous_fmi self) <= total_positions self)%nat /\
  (forall t p, In t (Profile.tracks self) -> In p (Track.positions t) ->
               Position.meets_arrest_coeff_threshold p = false ->
               (List.length (Profile.collate_instantaneous_fmi self)
                < total_positions self)%nat).
Proof.
  unfold Profile.collate_instantaneous_fmi, total_positions. rewrite flat_map_positions.
  match goal with |- context [flat_map ?f _] => pose proof (flat_map_at_most_one f) as H end.
  specialize (H (flat_map Track.positions (Profile.tracks self))).
  destruct H as [H1 H2].
  - intros p. destruct (Position.instant_fmi p) as [v|]; [|cbn; lia].
    destruct (Position.meets_arrest_coeff_threshold p); cbn; lia.
  - split; [exact H1|]. intros t p Ht Hp Hm. apply (H2 p).
    + apply in_flat_map. now exists t.
    + cbv beta. destruct (Position.instant_fmi p); [rewrite Hm|]; reflexivity.
Qed.

(** A track with one observation whose instantaneous FMI is [nan] and which
    passes the blebbing filter. *)
Definition nan_fmi_track : Track.t :=
  Sample.track 1
    [Position.mk (Some 1.0) (Some 1.0) (Some 1.0) (Some 0.0)
                 (Some 2.0) (Some 0.5) None (Some nan) (Some 0.0) true] [].

(** C8, at the input that breaks it. The profile of [nan_fmi_track] retains
    the track, and [collate_instantaneous_fmi] returns its [nan]: the FMI of
    a position is tested against [None] and not with [math.isnan]. *)
Theorem collate_instantaneous_fmi_returns_nan :
  exists self,
    Sample.profile [nan_fmi_track] = Ok self /\
    Profile.tracks self = [nan_fmi_track] /\
    Profile.collate_instantaneous_fmi self = [nan] /\
    is_nan nan = true /\
    Profile.collate_speeds self = [2.0].
Proof.
  eexists. repeat split.
Qed.

End Collate.

(* ================================================================= *)
(** * Method bodies: what a run leaves unchanged *)

Section Frames.
Import Profile.
Local Open Scope py_scope.

(** [m] never touches the attribute that [field] reads. *)
Definition preserves {F A : Type} (field : Profile.t -> F) (m : M A) : Prop :=
  forall w w' res, m w = (w', res) -> field (self w') = field (self w).

Lemma preserves_ret {F A} (field : Profile.t -> F) (a : A) : preserves field (ret a).
Proof. intros w w' res [= <- _]. reflexivity. Qed.

Lemma preserves_lift {F A} (field : Profile.t -> F) (x : result A) :
  preserves field (lift x).
Proof. intros w w' res [= <- _]. reflexivity. Qed.

Lemma preserves_print {F} (field : Profile.t -> F) (e : event) :
  preserves field (print e).
Proof. intros w w' res [= <- _]. reflexivity. Qed.

Lemma preserves_get_self {F} (field : Profile.t -> F) : preserves field get_self.
Proof. intros w w' res [= <- _]. reflexivity. Qed.

Lemma preserves_mbind {F A B} (field : Profile.t -> F) (m : M A) (k : A -> M B) :
  preserves field m -> (forall a, preserves field (k a)) -> preserves field (mbind m k).
Proof.
  intros Hm Hk w w' res. unfold mbind.
  destruct (m w) as [w1 [a|e]] eqn:E.
  - intros H. rewrite (Hk a _ _ _ H). eapply Hm, E.
  - intros [= <- _]. eapply Hm, E.
Qed.

Lemma preserves_for_each {F A} (field : Profile.t -> F) (l : list A) (body : A -> M unit) :
  (forall a, preserves field (body a)) -> preserves field (for_each l body).
Proof.
  intros Hb. induction l as [|a l IH]; cbn.
  - apply preserves_ret.
  - apply preserves_mbind; auto.
Qed.

Lemma preserves_if {F A} (field : Profile.t -> F) (c : bool) (m1 m2 : M A) :
  preserves field m1 -> preserves field m2 -> preserves field (if c then m1 else m2).
Proof. now destruct c. Qed.

Lemma append_start_tracks (p : TeleportPoint.t) : preserves tracks (append_start p).
Proof. intros w w' res [= <- _]. reflexivity. Qed.

Lemma append_end_tracks (p : TeleportPoint.t) : preserves tracks (append_end p).
Proof. intros w w' res [= <- _]. reflexivity. Qed.

Lemma set_teleport_tracks_tracks (l : list Track.t) :
  preserves tracks (set_teleport_tracks l).
Proof. intros w w' res [= <- _]. reflexivity. Qed.

Lemma scan_track_tracks (b : Box) (end_time : float) (t : Track.t) :
  preserves tracks (scan_track b end_time t).
Proof.
  unfold scan_track.
  repeat first
    [ apply preserves_mbind; [|intros ?]
    | apply preserves_if
    | apply preserves_lift | apply preserves_ret
    | apply append_start_tracks | apply append_end_tracks ].
Qed.

(** The teleport analysis does not change which tracks the profile holds. *)
Lemma analyse_teleportations_tracks (margin : float) :
  preserves tracks (analyse_teleportations margin).
Proof.
  unfold analyse_teleportations.
  repeat first
    [ apply preserves_for_each; intros ?
    | apply scan_track_tracks
    | apply preserves_mbind; [|intros ?]
    | apply preserves_lift | apply preserves_ret | apply preserves_print
    | apply preserves_get_self | apply set_teleport_tracks_tracks
    | match goal with |- preserves _ (match ?l with _ => _ end) => destruct l end ].
Qed.

End Frames.

(* ================================================================= *)
(** * Construction of a profile *)

Section Construction.
Import Profile.
Local Open Scope float_scope.

(** The test that each step of the pipeline applies to a track; a step whose
    threshold is inactive accepts every track. *)
Definition passes_displacement (trim_displacement : option float) (t : Track.t) : bool :=
  match trim_displacement with
  | Some thr => if Py.truthy thr then thr <=? Track.displacement t else true
  | None => true
  end.

Definition passes_observations (trim_observations : option Z) (t : Track.t) : bool :=
  match trim_observations with
  | Some thr => if (thr =? 0)%Z then true
                else (thr <=? Z.of_nat (List.length (Track.positions t)))%Z
  | None => true
  end.

Definition passes_duration (trim_duration : option float) (t : Track.t) : bool :=
  match trim_duration with
  | Some thr => if Py.truthy thr then thr <=? Track.duration_min t else true
  | None => true
  end.

Definition passes_arrest_coefficient (trim_arrest_coefficient : option float)
  (t : Track.t) : bool :=
  match trim_arrest_coefficient with
  | Some thr => if Py.truthy thr then Track.arrest_coefficient t <? thr else true
  | None => true
  end.

(** The six steps, each applied to what the steps before it retained. *)
Definition pipeline (trim_displacement : option float) (trim_observations : option Z)
  (trim_duration trim_arrest_coefficient : option float) (tracks : list Track.t)
  : list Track.t :=
  let step1 := filter (passes_displacement trim_displacement) tracks in
  let step2 := filter (passes_observations trim_observations) step1 in
  let step3 := filter (passes_duration trim_duration) step2 in
  let step4 := filter (passes_arrest_coefficient trim_arrest_coefficient) step3 in
  let step5 := filter (fun t => negb (is_nan (Track.median_speed t))) step4 in
  filter (fun t => negb (is_nan (Track.median_turn t))) step5.

Lemma filter_true {A : Type} (l : list A) : filter (fun _ => true) l = l.
Proof. induction l as [|a l IH]; cbn; congruence. Qed.

Lemma trim_all_retains (tracks : list Track.t) (td : option float) (tobs : option Z)
  (tdur tac : option float) :
  fst (trim_all tracks td tobs tdur tac)
  = filter (passes_arrest_coefficient tac)
      (filter (passes_duration tdur)
         (filter (passes_observations tobs)
            (filter (passes_displacement td) tracks))).
Proof.
  unfold trim_all, passes_displacement, passes_observations, passes_duration,
    passes_arrest_coefficient.
  destruct td as [d|]; [destruct (Py.truthy d)|];
  (destruct tobs as [o|]; [destruct (o =? 0)%Z|]);
  (destruct tdur as [u|]; [destruct (Py.truthy u)|]);
  (destruct tac as [a|]; [destruct (Py.truthy a)|]);
  cbn [negb trim fst snd]; rewrite ?filter_true; reflexivity.
Qed.

Lemma init_tracks (tracks : list Track.t) (td : option float) (tobs : option Z)
  (tdur tac : option float) (analyse_teleports : bool) (out : list event) (self : t) :
  init tracks td tobs tdur tac analyse_teleports = (out, Ok self) ->
  Profile.tracks self = pipeline td tobs tdur tac tracks.
Proof.
  unfold init, pipeline. rewrite trim_all_retains.
  destruct analyse_teleports.
  - destruct (analyse_teleportations _ _) as [w [[]|e]] eqn:E; [|discriminate].
    intros [= _ <-]. now rewrite (analyse_teleportations_tracks _ _ _ _ E).
  - now intros [= _ <-].
Qed.

(** C5. The tracks of a constructed profile are those of the input that the
    six steps retain, each step filtering what the earlier steps left: the
    displacement and the duration at least the threshold, the number of
    positions at least the threshold, the arrest coefficient below the
    threshold, the median speed and the median turn not [nan]. With tracks of
    2 and of 5 positions and [trim_observations=3], the first message states
    1 track excluded out of 2 and the track of 5 positions is the one
    retained. *)
Theorem init_retains_pipeline :
  (forall tracks td tobs tdur tac analyse_teleports out self,
      init tracks td tobs tdur tac analyse_teleports = (out, Ok self) ->
      Profile.tracks self = pipeline td tobs tdur tac tracks /\
      forall t, In t (Profile.tracks self) <->
                In t tracks /\
                passes_displacement td t = true /\
                passes_observations tobs t = true /\
                passes_duration tdur t = true /\
                passes_arrest_coefficient tac t = true /\
                is_nan (Track.median_speed t) = false /\
                is_nan (Track.median_turn t) = false) /\
  (forall t2 t5,
      List.length (Track.positions t2) = 2%nat ->
      List.length (Track.positions t5) = 5%nat ->
      is_nan (Track.median_speed t5) = false ->
      is_nan (Track.median_turn t5) = false ->
      exists out self,
        init [t2; t5] None (Some 3%Z) None None false
          = (Excluded_observations 1 2 :: out, Ok self) /\
        Profile.tracks self = [t5]).
Proof.
  split.
  - intros tracks td tobs tdur tac analyse out self H.
    apply init_tracks in H. split; [assumption|].
    intros t. rewrite H. unfold pipeline. cbv zeta.
    rewrite !filter_In, !negb_true_iff. tauto.
  - intros t2 t5 H2 H5 Hs Ht.
    unfold init, trim_all, trim, meets_observations, has_median_speed, has_median_turn,
      Math.isnan.
    cbn [negb Z.eqb fst snd filter List.length app].
    rewrite H2, H5. cbn [Z.of_nat Z.leb Z.compare Pos.of_succ_nat Pos.succ Pos.compare
      Pos.compare_cont filter negb List.length Nat.sub app].
    rewrite Hs. cbn [negb filter]. rewrite Ht. cbn [negb filter].
    eexists _, _. split; reflexivity.
Qed.

(** A track of two and a track of five positions. *)
Definition short_track : Track.t :=
  Sample.track 1 [Sample.position 1.0 1.0 1.0 0.0; Sample.position 2.0 1.0 1.0 30.0] [].

Definition long_track : Track.t :=
  Sample.track 2 [Sample.position 1.0 5.0 1.0 0.0; Sample.position 2.0 5.0 1.0 30.0;
                  Sample.position 3.0 5.0 1.0 60.0; Sample.position 4.0 5.0 1.0 90.0;
                  Sample.position 5.0 5.0 1.0 120.0] [].

Lemma init_retains_pipeline_witness :
  exists out self,
    init [short_track; long_track] None (Some 3%Z) None None false
      = (Excluded_observations 1 2 :: out, Ok self) /\
    Profile.tracks self = [long_track] /\
    Profile.tracks self = pipeline None (Some 3%Z) None None [short_track; long_track].
Proof.
  destruct (proj2 init_retains_pipeline short_track long_track
              eq_refl eq_refl eq_refl eq_refl)
    as (out & self & Hinit & Htracks).
  exists out, self. split; [exact Hinit|]. split; [exact Htracks|].
  exact (proj1 (proj1 init_retains_pipeline _ _ _ _ _ _ _ _ Hinit)).
Defined.

End Construction.

(* ================================================================= *)
(** * The imaging volume of the teleport analysis *)

Section ImagingVolume.
Import Profile.
Local Open Scope float_scope.
Local Open Scope py_scope.

(** Every coordinate that is not [None], a zero included: the reading of
    "all defined x, y, z coordinates". *)
Definition defined_coordinates (coord : Position.t -> option float)
  (tracks : list Track.t) : list float :=
  flat_map (fun t =>
    flat_map (fun p => match coord p with Some v => [v] | None => [] end)
             (Track.positions t)) tracks.

(** The sub-volume computed from [defined_coordinates] with the formulas of
    [imaging_volume]. *)
Definition volume_of_defined (margin : float) (tracks : list Track.t) : result Box :=
  let xs := defined_coordinates Position.x tracks in
  let ys := defined_coordinates Position.y tracks in
  let zs := defined_coordinates Position.z tracks in
  max_x <- Py.max xs ;; min_x <- Py.min xs ;;
  max_y <- Py.max ys ;; min_y <- Py.min ys ;;
  max_z <- Py.max zs ;; min_z <- Py.min zs ;;
  Ok (mkBox (min_x + margin * (max_x - min_x)) (max_x - margin * (max_x - min_x))
            (min_y + margin * (max_y - min_y)) (max_y - margin * (max_y - min_y))
            (min_z + margin * (max_z - min_z)) (max_z - margin * (max_z - min_z))).

(** A track that starts at the corner [(0, 0, 0)] of the volume. *)
Definition from_origin : Track.t :=
  Sample.track 1 [Sample.position 0.0 0.0 0.0 0.0;
                  Sample.position 10.0 10.0 10.0 30.0;
                  Sample.position 20.0 20.0 20.0 60.0] [].

(** C7, at the input that breaks it. The coordinates [0.0] of the first
    position are tested for their truth value and left out of [xs], [ys] and
    [zs]: the volume is taken to start at 10 and the sub-volume is
    [11 .. 19] on each axis, where the defined coordinates span [0 .. 20]
    and give [2 .. 18]. *)
Theorem imaging_volume_drops_zero :
  coordinates Position.x [from_origin] = [10.0; 20.0] /\
  defined_coordinates Position.x [from_origin] = [0.0; 10.0; 20.0] /\
  imaging_volume 0.1 [from_origin] = Ok (mkBox 11.0 19.0 11.0 19.0 11.0 19.0) /\
  volume_of_defined 0.1 [from_origin] = Ok (mkBox 2.0 18.0 2.0 18.0 2.0 18.0).
Proof. repeat split. Qed.

End ImagingVolume.

(* ================================================================= *)
(** * [calculate_msd] without any pair of observations *)

Section NoPairs.
Import Profile.
Local Open Scope float_scope.

(** C3, at the input that breaks it. For the profile of one track with one
    observation, [calculate_msd] with [max_dt] left to its default raises
    [IndexError] at [msd[-1][0]], the list [msd] being empty; with a value
    for [max_dt] it returns the sentinel. *)
Theorem calculate_msd_single_observation (lib : Numerics) :
  exists self,
    Sample.profile [Sample.still] = Ok self /\
    calculate_msd (Some [self]) None None "allT"%string = Raise IndexError /\
    forall max_dt, calculate_msd (Some [self]) None (Some max_dt) "allT"%string = Ok sentinel.
Proof.
  eexists. split; [reflexivity|]. split; [reflexivity|].
  intros max_dt. unfold calculate_msd, select_msd. cbn.
  now destruct (max_dt =? infinity).
Qed.

End NoPairs.

(* ================================================================= *)
(** * [calculate_msd]: the fit *)

Section PowerLawFit.
Import Profile.
Context {lib : Numerics}.
Local Open Scope float_scope.
Local Open Scope py_scope.

(** The fit as the specification words it: both axes log-transformed, the
    least-squares line through the transformed data, and the line brought
    back by exponentiation at each delta-t. *)
Definition power_law_fit (entries : list (float * float)) (cutoff : float)
  : result MsdResult :=
  let times := map fst entries in
  let dts_log := map Math.ln times in
  let msds_log := map Math.ln (map snd entries) in
  reg <- linregress dts_log msds_log ;;
  linear <- mapM (fun x => Math.exp (x * lr_slope reg + lr_intercept reg)) dts_log ;;
  Ok (mkMsdResult entries (lr_slope reg) (lr_intercept reg) (lr_r reg) (lr_p reg)
                  (lr_stderr reg) cutoff linear times).

(** [v] is fit for a logarithm: [nan] or positive. *)
Definition loggable (v : float) : Prop := is_nan v = true \/ (0 <? v) = true.

Lemma min_loop_positive (l : list float) (m : float) :
  (0 <? Py.min_loop l m) = true ->
  (0 <? m) = true /\ Forall loggable l.
Proof.
  unfold Py.min_loop. revert m.
  induction l as [|x l IH]; intros m H; cbn in H.
  - split; [assumption|constructor].
  - apply IH in H as [Hm Hl].
    destruct (x <? m) eqn:E.
    + split; [eapply FloatOrder.ltb_trans; eassumption|].
      constructor; [now right|assumption].
    + split; [assumption|]. constructor; [|assumption].
      destruct (is_nan x) eqn:En; [now left|right].
      apply (FloatOrder.ltb_leb_trans _ m); [assumption|].
      apply FloatOrder.ltb_total; try assumption.
      apply FloatOrder.ltb_nonnan in Hm. tauto.
Qed.

Lemma min_positive (l : list float) (m : float) :
  Py.min l = Ok m -> (0 <? m) = true -> Forall loggable l.
Proof.
  destruct l as [|a l]; [discriminate|]. intros [= <-] H.
  apply min_loop_positive in H as [Ha Hl]. constructor; [now right|assumption].
Qed.

Lemma log_loggable (v : float) : loggable v -> Math.log v = Ok (Math.ln v).
Proof.
  unfold Math.log. intros [H|H]; rewrite H; [reflexivity|now rewrite orb_true_r].
Qed.

Lemma mapM_log (l : list float) :
  Forall loggable l -> mapM Math.log l = Ok (map Math.ln l).
Proof.
  induction 1 as [|v l Hv Hl IH]; cbn; [reflexivity|].
  now rewrite (log_loggable v Hv), IH.
Qed.

(** What the guard establishes. *)
Lemma can_fit_true (times msds : list float) :
  can_fit times msds = Ok true ->
  times <> [] /\ Forall loggable times /\ Forall loggable msds.
Proof.
  unfold can_fit. destruct times as [|t0 times]; [discriminate|].
  cbn [List.length Nat.ltb Nat.leb]. unfold bind.
  destruct (Py.min (t0 :: times)) as [mt|] eqn:Et; [|discriminate].
  destruct (0.0 <? mt) eqn:Hmt; [|discriminate].
  destruct (Py.min msds) as [mm|] eqn:Em; [|discriminate].
  intros [= Hmm]. repeat split.
  - discriminate.
  - eapply min_positive; eassumption.
  - eapply min_positive; eassumption.
Qed.

(** The value of [calculate_msd] once [msd] and [max_dt] are settled. *)
Lemma calculate_msd_unfold (profiles : option (list t))
  (msd : option (list (float * float))) (max_dt : option float) (method : string)
  (entries : list (float * float)) (cutoff : float) :
  select_msd profiles msd max_dt method = Ok (entries, cutoff) ->
  calculate_msd profiles msd max_dt method
  = match can_fit (map fst entries) (map snd entries) with
    | Ok true => power_law_fit entries cutoff
    | Ok false => Ok sentinel
    | Raise e => Raise e
    end.
Proof.
  intros Hsel. unfold calculate_msd. rewrite Hsel. cbn [bind fst snd].
  destruct (can_fit _ _) as [[|]|e] eqn:Hfit; cbn [bind]; try reflexivity.
  apply can_fit_true in Hfit as (_ & Ht & Hm).
  rewrite (mapM_log _ Ht), (mapM_log _ Hm). reflexivity.
Qed.

(** The guard as the code words it: [min(times) > 0. and min(msds) > 0.],
    with [min] the builtin, on lists that are not empty. *)
Definition guard_holds (entries : list (float * float)) : Prop :=
  exists min_time min_msd,
    Py.min (map fst entries) = Ok min_time /\ (0 <? min_time) = true /\
    Py.min (map snd entries) = Ok min_msd /\ (0 <? min_msd) = true.

(** The test of [calculate_msd] never raises on the two columns of a list,
    and it is true exactly when the guard holds. *)
Lemma can_fit_guard (entries : list (float * float)) :
  (can_fit (map fst entries) (map snd entries) = Ok true /\ guard_holds entries) \/
  (can_fit (map fst entries) (map snd entries) = Ok false /\ ~ guard_holds entries).
Proof.
  unfold guard_holds. destruct entries as [|[t0 v0] rest].
  - right. split; [reflexivity|]. intros (? & ? & H & _). discriminate.
  - unfold can_fit, Py.min. cbn [map fst snd List.length Nat.ltb Nat.leb bind].
    destruct (0.0 <? Py.min_loop (map fst rest) t0) eqn:Ht.
    + destruct (0.0 <? Py.min_loop (map snd rest) v0) eqn:Hv.
      * left. split; [reflexivity|]. eexists _, _. repeat split; assumption.
      * right. split; [reflexivity|].
        intros (mt & mv & _ & _ & [= <-] & Hmv). congruence.
    + right. split; [reflexivity|].
      intros (mt & mv & [= <-] & Hmt & _). congruence.
Qed.

(** C2, as amended. When the list that survives the cutoff is not empty
    and passes the guard [min(times) > 0. and min(msds) > 0.], every delta-t
    and every MSD of it is positive or [nan], and the result of
    [calculate_msd] is the power-law fit of that list: no logarithm raises,
    the regression is run on the two lists of logarithms, and the result
    carries its five values, the cutoff, the exponentiated line and the
    delta-t of the list. Otherwise the result is the sentinel. *)
Theorem calculate_msd_fits_when_guard_passes (profiles : option (list t))
  (msd : option (list (float * float))) (max_dt : option float) (method : string)
  (entries : list (float * float)) (cutoff : float) :
  select_msd profiles msd max_dt method = Ok (entries, cutoff) ->
  (guard_holds entries ->
   entries <> [] /\
   Forall loggable (map fst entries) /\ Forall loggable (map snd entries) /\
   calculate_msd profiles msd max_dt method = power_law_fit entries cutoff) /\
  (~ guard_holds entries ->
   calculate_msd profiles msd max_dt method = Ok sentinel).
Proof.
  intros Hsel. rewrite (calculate_msd_unfold _ _ _ _ _ _ Hsel).
  destruct (can_fit_guard entries) as [[Hfit Hguard]|[Hfit Hguard]]; rewrite Hfit.
  - split; [intros _|intros H; now contradiction H].
    apply can_fit_true in Hfit as (Hne & Ht & Hm).
    split; [intros ->; now apply Hne|]. split; [assumption|]. split; [assumption|].
    reflexivity.
  - split; [intros H; now contradiction Hguard|reflexivity].
Qed.

Lemma last_item_last {A : Type} (l : list A) (d : A) :
  l <> [] -> Py.last_item l = Ok (last l d).
Proof.
  intros Hl. destruct (exists_last Hl) as (l' & a & ->).
  unfold Py.last_item. rewrite rev_app_distr, last_last. reflexivity.
Qed.

Lemma select_msd_infinite (profiles : option (list t))
  (msd : option (list (float * float))) (method : string)
  (entries : list (float * float)) (cutoff : float) :
  select_msd profiles msd (Some infinity) method = Ok (entries, cutoff) ->
  cutoff = infinity /\
  match msd with
  | Some (tup :: rest) => Ok (tup :: rest)
  | _ => compute_msd profiles method
  end = Ok entries.
Proof.
  unfold select_msd.
  destruct (match msd with Some (tup :: rest) => Ok (tup :: rest) | _ => _ end)
    as [computed|e]; cbn; [|discriminate].
  intros [= <- <-]. split; reflexivity.
Qed.


End PowerLawFit.

Section PowerLawFitExamples.
Import Profile.
Local Open Scope float_scope.

(** A list with one positive pair and one pair whose MSD is zero. *)
Definition mixed_entries : list (float * float) := [(1.0, 0.0); (2.0, 4.0)].

(** The MSD of [Sample.ballistic]. *)
Definition ballistic_entries : list (float * float) := [(1.0, 1.0); (2.0, 4.0)].

Lemma power_law_fit_fields (lib : Numerics) (entries : list (float * float))
  (cutoff : float) (res : MsdResult) :
  power_law_fit entries cutoff = Ok res ->
  msd res = entries /\ linearTimes res = map fst entries /\ msd_time_cutoff res = cutoff.
Proof.
  unfold power_law_fit, bind.
  destruct (linregress _ _) as [reg|]; [|discriminate].
  destruct (mapM _ _) as [linear|]; [|discriminate].
  now intros [= <-].
Qed.

(** The profile that [Profile([Sample.pausing])] constructs. *)
Definition pausing_profile : Profile.t :=
  Profile.mk [Sample.pausing] [2.0] [8.0] [5.0] [0.625] [1.0] [0.5] [0.3] [0.2] [0.1] [0.1]
             [] [] [].

Lemma pausing_profile_built : Sample.profile [Sample.pausing] = Ok pausing_profile.
Proof. reflexivity. Qed.

(** C2 as stated fails: [mixed_entries] holds the pair [(2.0, 4.0)] with a
    positive delta-t and a positive MSD, and [calculate_msd] returns the
    sentinel for it, which no power-law fit of the list is. So it does for
    the profile of [Sample.pausing], whose MSD is zero at delta-t 1 and 4 at
    delta-t 2 and 3. *)
Lemma one_positive_pair_gets_no_fit :
  (In (2.0, 4.0) mixed_entries /\ (0 <? 2.0) = true /\ (0 <? 4.0) = true) /\
  (forall lib : Numerics,
      select_msd None (Some mixed_entries) (Some infinity) "allT"%string
      = Ok (mixed_entries, infinity)) /\
  (forall lib : Numerics,
      calculate_msd None (Some mixed_entries) (Some infinity) "allT"%string = Ok sentinel) /\
  (forall lib : Numerics, power_law_fit mixed_entries infinity <> Ok sentinel) /\
  @select_msd Example.numerics (Some [pausing_profile]) None (Some infinity) "allT"%string
  = Ok ([(1.0, 0.0); (2.0, 4.0); (3.0, 4.0)], infinity) /\
  @calculate_msd Example.numerics (Some [pausing_profile]) None (Some infinity) "allT"%string
  = Ok sentinel.
Proof.
  split; [split; [right; now left|split; reflexivity]|].
  split; [reflexivity|]. split; [reflexivity|].
  split; [|split; reflexivity].
  intros lib H. apply power_law_fit_fields in H as [H _]. discriminate H.
Qed.

Lemma calculate_msd_fits_when_guard_passes_witness :
  guard_holds ballistic_entries /\
  (forall lib : Numerics,
      calculate_msd None (Some ballistic_entries) (Some infinity) "allT"%string
      = power_law_fit ballistic_entries infinity) /\
  @calculate_msd Example.numerics None (Some ballistic_entries) (Some infinity) "allT"%string
  = Ok (mkMsdResult ballistic_entries 2.0 0.0 1.0 0.0 0.0 infinity [1.0; 4.0] [1.0; 2.0]) /\
  ~ guard_holds mixed_entries /\
  (forall lib : Numerics,
      calculate_msd None (Some mixed_entries) (Some infinity) "allT"%string = Ok sentinel).
Proof.
  assert (Hyes : guard_holds ballistic_entries)
    by (exists 1.0, 1.0; repeat split).
  assert (Hno : ~ guard_holds mixed_entries).
  { intros (mt & mv & _ & _ & Hmin & Hpos). cbv in Hmin. injection Hmin as <-.
    discriminate Hpos. }
  split; [exact Hyes|]. split; [|split; [reflexivity|split; [exact Hno|]]].
  - intros lib.
    exact (proj2 (proj2 (proj2
             (proj1 (calculate_msd_fits_when_guard_passes None (Some ballistic_entries)
                       (Some infinity) "allT"%string ballistic_entries infinity eq_refl)
                    Hyes)))).
  - intros lib.
    exact (proj2 (calculate_msd_fits_when_guard_passes None (Some mixed_entries)
                    (Some infinity) "allT"%string mixed_entries infinity eq_refl) Hno).
Defined.


End PowerLawFitExamples.

(* ================================================================= *)
(** * [calculate_msd]: filtering before and after *)

Section FilterCommutes.
Import Profile.
Local Open Scope float_scope.

(** [[tup for tup in msd if tup[0] <= X]] *)
Definition keep_upto (X : float) (entries : list (float * float)) : list (float * float) :=
  filter (fun tup => fst tup <=? X) entries.

(** A result that [calculate_msd] returns is the fit of the selected list or
    the sentinel. *)
Lemma calculate_msd_ok (lib : Numerics) (profiles : option (list t))
  (msd : option (list (float * float))) (max_dt : option float) (method : string)
  (res : MsdResult) :
  calculate_msd profiles msd max_dt method = Ok res ->
  exists entries cutoff,
    select_msd profiles msd max_dt method = Ok (entries, cutoff) /\
    ((can_fit (map fst entries) (map snd entries) = Ok true /\
      power_law_fit entries cutoff = Ok res) \/
     (can_fit (map fst entries) (map snd entries) = Ok false /\ res = sentinel)).
Proof.
  intros H.
  destruct (select_msd profiles msd max_dt method) as [[entries cutoff]|e] eqn:Hsel.
  - exists entries, cutoff. split; [reflexivity|].
    rewrite (calculate_msd_unfold _ _ _ _ _ _ Hsel) in H.
    destruct (can_fit _ _) as [[|]|]; [left|right|discriminate].
    + now split.
    + split; [reflexivity|]. now injection H.
  - unfold calculate_msd in H. rewrite Hsel in H. discriminate.
Qed.

(** A result with fitted times is not the sentinel: its [msd] is the list
    that was selected. *)
Lemma fitted_msd (lib : Numerics) (profiles : option (list t))
  (msd : option (list (float * float))) (max_dt : option float) (method : string)
  (res : MsdResult) :
  calculate_msd profiles msd max_dt method = Ok res ->
  linearTimes res <> [] ->
  exists cutoff, select_msd profiles msd max_dt method = Ok (Profile.msd res, cutoff).
Proof.
  intros H Hfit.
  apply calculate_msd_ok in H as (entries & cutoff & Hsel & [[_ Hres]|[_ ->]]).
  - apply power_law_fit_fields in Hres as (-> & _ & _). now exists cutoff.
  - now contradiction Hfit.
Qed.

(** C4, as amended. When neither call returns the sentinel, the entries of
    the result for an infinite cutoff whose delta-t is at most [X] are the
    entries of the result for the cutoff [X]. *)
Theorem filtering_commutes_between_fits (lib : Numerics) (profiles : option (list t))
  (msd : option (list (float * float))) (method : string) (X : float)
  (r_inf r_X : MsdResult) :
  (X =? infinity) = false ->
  calculate_msd profiles msd (Some infinity) method = Ok r_inf ->
  calculate_msd profiles msd (Some X) method = Ok r_X ->
  linearTimes r_inf <> [] ->
  linearTimes r_X <> [] ->
  keep_upto X (Profile.msd r_inf) = Profile.msd r_X.
Proof.
  intros Hfin Hinf HX Finf FX.
  apply fitted_msd in Hinf as [c1 Hinf]; [|assumption].
  apply fitted_msd in HX as [c2 HX]; [|assumption].
  apply select_msd_infinite in Hinf as [_ Hmsd].
  unfold select_msd in HX. rewrite Hmsd in HX. cbn [bind] in HX.
  rewrite Hfin in HX. cbn [negb] in HX. now injection HX.
Qed.

(** The profile that [Profile([Sample.ballistic])] constructs. *)
Definition ballistic_profile : Profile.t :=
  Profile.mk [Sample.ballistic] [2.0] [8.0] [5.0] [0.625] [1.0] [0.5] [0.3] [0.2] [0.1] [0.1]
             [] [] [].

Lemma ballistic_profile_built : Sample.profile [Sample.ballistic] = Ok ballistic_profile.
Proof. reflexivity. Qed.

(** What [calculate_msd] returns for it with the routines of the examples,
    for an infinite cutoff and for the cutoff 1. *)
Definition ballistic_fit : MsdResult :=
  mkMsdResult [(1.0, 1.0); (2.0, 4.0)] 2.0 0.0 1.0 0.0 0.0 infinity [1.0; 4.0] [1.0; 2.0].

Definition ballistic_fit_upto_1 : MsdResult :=
  mkMsdResult [(1.0, 1.0)] nan nan 0.0 0.0 0.0 1.0 [nan] [1.0].

Lemma filtering_commutes_between_fits_witness :
  @calculate_msd Example.numerics (Some [ballistic_profile]) None (Some infinity)
                 "allT"%string = Ok ballistic_fit /\
  @calculate_msd Example.numerics (Some [ballistic_profile]) None (Some 1.0)
                 "allT"%string = Ok ballistic_fit_upto_1 /\
  keep_upto 1.0 (Profile.msd ballistic_fit) = Profile.msd ballistic_fit_upto_1.
Proof.
  split; [reflexivity|]. split; [reflexivity|].
  apply (filtering_commutes_between_fits Example.numerics (Some [ballistic_profile]) None
           "allT"%string 1.0 ballistic_fit ballistic_fit_upto_1 eq_refl eq_refl eq_refl);
    discriminate.
Defined.

(** C4 as stated fails. For [ballistic_profile] and the cutoff 0.5, below
    every delta-t: the call with the cutoff returns the sentinel, whose
    [msd] is [[(0.0, 0.0)]], while the entries up to 0.5 of the result for an
    infinite cutoff are none. For a cutoff below zero the two differ
    whatever the numerical routines return. *)
Lemma filtering_does_not_commute :
  (@calculate_msd Example.numerics (Some [ballistic_profile]) None (Some infinity)
                  "allT"%string = Ok ballistic_fit /\
   @calculate_msd Example.numerics (Some [ballistic_profile]) None (Some 0.5)
                  "allT"%string = Ok sentinel /\
   keep_upto 0.5 (Profile.msd ballistic_fit) = [] /\
   Profile.msd sentinel = [(0.0, 0.0)]) /\
  (forall (lib : Numerics) r_inf r_X,
      calculate_msd (Some [ballistic_profile]) None (Some infinity) "allT"%string
        = Ok r_inf ->
      calculate_msd (Some [ballistic_profile]) None (Some (-1.0)) "allT"%string
        = Ok r_X ->
      keep_upto (-1.0) (Profile.msd r_inf) = [] /\ Profile.msd r_X = [(0.0, 0.0)]).
Proof.
  split; [repeat split|].
  intros lib r_inf r_X Hinf HX. split.
  - apply calculate_msd_ok in Hinf as (entries & cutoff & Hsel & [[_ Hres]|[_ ->]]).
    + apply power_law_fit_fields in Hres as (-> & _ & _).
      cbv in Hsel. injection Hsel as <- _. reflexivity.
    + reflexivity.
  - cbv in HX. now injection HX as <-.
Qed.

End FilterCommutes.

(* ================================================================= *)
(** * Teleport analysis: the points recorded *)

Section Teleports.
Import Profile.
Local Open Scope float_scope.
Local Open Scope py_scope.

(** The start-type point that step 5 records for a track, if any: the first
    position has a time that is not zero and lies inside the sub-volume. *)
Definition teleport_start (b : Box) (t : Track.t) : list TeleportPoint.t :=
  match Track.positions t with
  | [] => []
  | p_start :: _ =>
      let p_end := last (Track.positions t) p_start in
      if ne_zero (Position.time_s p_start) then
        match inside_imaging_volume b (Position.x p_start) (Position.y p_start)
                (Position.z p_start) with
        | Ok true => [start_point t p_start p_end]
        | _ => []
        end
      else []
  end.

(** Which exceptions each stage can raise. *)
Lemma imaging_volume_raises (margin : float) (tracks : list Track.t) (e : exn) :
  imaging_volume margin tracks = Raise e -> e = ValueError.
Proof.
  unfold imaging_volume.
  destruct (coordinates Position.x tracks), (coordinates Position.y tracks),
    (coordinates Position.z tracks); cbn; congruence.
Qed.

Lemma end_times_raise (tracks : list Track.t) (e : exn) :
  mapM (fun t => p <- Py.last_item (Track.positions t) ;; Ok (Position.time_s p)) tracks
  = Raise e -> e = IndexError.
Proof.
  induction tracks as [|t l IH]; cbn; [discriminate|].
  unfold Py.last_item at 1. destruct (rev (Track.positions t)); cbn; [congruence|].
  destruct (mapM _ l); [discriminate|]. intros [= <-]. now apply IH.
Qed.

Lemma max_opt_loop_raises (items : list (option float)) (m : option float) (e : exn) :
  Py.max_opt_loop items m = Raise e -> e = TypeError.
Proof.
  revert m. induction items as [|i items IH]; intros m; cbn; [discriminate|].
  destruct i, m; try congruence. apply IH.
Qed.

Lemma max_opt_raises (l : list (option float)) (e : exn) :
  Py.max_opt l = Raise e -> e = ValueError \/ e = TypeError.
Proof.
  destruct l; cbn; [left; congruence|]. intros H. right. eapply max_opt_loop_raises, H.
Qed.

Lemma inside_raises (b : Box) (xpos ypos zpos : option float) (e : exn) :
  inside_imaging_volume b xpos ypos zpos = Raise e -> e = TypeError.
Proof.
  unfold inside_imaging_volume, Py.lt, Py.gt.
  destruct xpos as [vx|]; cbn; [|congruence].
  destruct (vx <? x_low b); cbn; [discriminate|].
  destruct (x_high b <? vx); cbn; [discriminate|].
  destruct ypos as [vy|]; cbn; [|congruence].
  destruct (vy <? y_low b); cbn; [discriminate|].
  destruct (y_high b <? vy); cbn; [discriminate|].
  destruct zpos as [vz|]; cbn; [|congruence].
  destruct (vz <? z_low b); cbn; [discriminate|].
  destruct (z_high b <? vz); cbn; discriminate.
Qed.

(** The two tests of a turn of the loop. *)
Definition start_test (b : Box) (p_start : Position.t) : result bool :=
  if ne_zero (Position.time_s p_start)
  then inside_imaging_volume b (Position.x p_start) (Position.y p_start)
         (Position.z p_start)
  else Ok false.

Definition end_test (b : Box) (end_time : float) (p_end : Position.t) : result bool :=
  before <- Py.lt (Position.time_s p_end) end_time ;;
  if before
  then inside_imaging_volume b (Position.x p_end) (Position.y p_end) (Position.z p_end)
  else Ok false.

Lemma start_test_raises (b : Box) (p_start : Position.t) (e : exn) :
  start_test b p_start = Raise e -> e = TypeError.
Proof.
  unfold start_test. destruct (ne_zero _); [apply inside_raises|discriminate].
Qed.

Lemma end_test_raises (b : Box) (end_time : float) (p_end : Position.t) (e : exn) :
  end_test b end_time p_end = Raise e -> e = TypeError.
Proof.
  unfold end_test, Py.lt. destruct (Position.time_s p_end) as [v|]; cbn; [|congruence].
  destruct (v <? end_time); [apply inside_raises|discriminate].
Qed.

(** A turn of the loop on a track with positions, its two tests made. *)
Lemma record_points_run (is_start is_end : result bool) (ps pe : TeleportPoint.t)
  (w w' : world) (res : result unit) :
  mbind (lift is_start) (fun c1 =>
    mbind (if c1 then append_start ps else ret tt) (fun _ =>
      mbind (lift is_end) (fun c2 => if c2 then append_end pe else ret tt))) w
  = (w', res) ->
  match res with
  | Ok _ => teleport_starts (self w')
            = teleport_starts (self w)
              ++ match is_start with Ok true => [ps] | _ => [] end
  | Raise e => is_start = Raise e \/ is_end = Raise e
  end.
Proof.
  unfold mbind, lift, ret, append_start, append_end.
  destruct is_start as [[|]|e1], is_end as [[|]|e2]; cbn;
    intros [= <- <-]; cbn; rewrite ?app_nil_r; auto.
Qed.

(** One turn of the loop: the exceptions it can raise, and what a turn that
    ends normally has added to [teleport_starts]. *)
Lemma scan_track_run (b : Box) (end_time : float) (t : Track.t) (w w' : world)
  (res : result unit) :
  scan_track b end_time t w = (w', res) ->
  match res with
  | Ok _ => teleport_starts (self w') = teleport_starts (self w) ++ teleport_start b t
  | Raise e => e = IndexError \/ e = TypeError
  end.
Proof.
  unfold scan_track, teleport_start.
  destruct (Track.positions t) as [|p0 ps] eqn:Hps.
  - cbn. intros [= _ <-]. now left.
  - unfold mbind at 1 2. cbn [Py.first_item lift].
    rewrite (last_item_last (p0 :: ps) p0) by discriminate.
    intros H.
    apply (record_points_run (start_test b p0)
             (end_test b end_time (last (p0 :: ps) p0))) in H.
    destruct res as [[]|e].
    + rewrite H. unfold start_test. destruct (ne_zero _); reflexivity.
    + right. destruct H as [H|H];
        [eapply start_test_raises|eapply end_test_raises]; exact H.
Qed.

(** The whole loop. *)
Lemma scan_tracks_run (b : Box) (end_time : float) (tracks : list Track.t)
  (w w' : world) (res : result unit) :
  for_each tracks (scan_track b end_time) w = (w', res) ->
  match res with
  | Ok _ => teleport_starts (self w')
            = teleport_starts (self w) ++ flat_map (teleport_start b) tracks
  | Raise e => e = IndexError \/ e = TypeError
  end.
Proof.
  revert w. induction tracks as [|t l IH]; intros w; cbn.
  - intros [= <- <-]. now rewrite app_nil_r.
  - unfold mbind.
    destruct (scan_track b end_time t w) as [w1 [[]|e]] eqn:E1.
    + intros H. apply scan_track_run in E1. specialize (IH _ H).
      destruct res; [|assumption]. now rewrite IH, E1, app_assoc.
    + intros [= <- <-]. apply (scan_track_run _ _ _ _ _ _ E1).
Qed.


End Teleports.

Section TeleportStarts.
Import Profile.
Local Open Scope float_scope.


(** ** The test of the sub-volume, spelled out *)

(** [v] is neither below [lo] nor above [hi]: the two comparisons that
    [inside_imaging_volume] makes on one axis. *)
Definition not_outside (lo hi v : float) : bool :=
  negb (v <? lo) && negb (hi <? v).

(** No coordinate is below or above the bounds of its axis. *)
Definition passes_box (b : Box) (x y z : float) : bool :=
  not_outside (x_low b) (x_high b) x
  && not_outside (y_low b) (y_high b) y
  && not_outside (z_low b) (z_high b) z.

(** Inside the box, its bounds included. *)
Definition within (b : Box) (x y z : float) : bool :=
  (x_low b <=? x) && (x <=? x_high b)
  && (y_low b <=? y) && (y <=? y_high b)
  && (z_low b <=? z) && (z <=? z_high b).

(** The six bounds are numbers. *)
Definition bounds_are_numbers (b : Box) : Prop :=
  is_nan (x_low b) = false /\ is_nan (x_high b) = false /\
  is_nan (y_low b) = false /\ is_nan (y_high b) = false /\
  is_nan (z_low b) = false /\ is_nan (z_high b) = false.

(** The sub-volume that lies [margin] inside the range of the coordinates
    [xs], [ys], [zs]. *)
Definition shrunk_box (margin : float) (xs ys zs : list float) (b : Box) : Prop :=
  exists min_x max_x min_y max_y min_z max_z,
    Py.min xs = Ok min_x /\ Py.max xs = Ok max_x /\
    Py.min ys = Ok min_y /\ Py.max ys = Ok max_y /\
    Py.min zs = Ok min_z /\ Py.max zs = Ok max_z /\
    b = mkBox (min_x + margin * (max_x - min_x)) (max_x - margin * (max_x - min_x))
              (min_y + margin * (max_y - min_y)) (max_y - margin * (max_y - min_y))
              (min_z + margin * (max_z - min_z)) (max_z - margin * (max_z - min_z)).


Lemma not_outside_numbers (lo hi v : float) :
  is_nan lo = false -> is_nan hi = false -> is_nan v = false ->
  not_outside lo hi v = (lo <=? v) && (v <=? hi).
Proof.
  intros Hlo Hhi Hv. unfold not_outside. f_equal.
  - destruct (v <? lo) eqn:E; cbn.
    + symmetry. apply not_true_iff_false. intros H.
      apply FloatOrder.leb_not_gtb in H. congruence.
    + symmetry. now apply FloatOrder.ltb_total.
  - destruct (hi <? v) eqn:E; cbn.
    + symmetry. apply not_true_iff_false. intros H.
      apply FloatOrder.leb_not_gtb in H. congruence.
    + symmetry. now apply FloatOrder.ltb_total.
Qed.

Lemma not_outside_nan (lo hi v : float) : is_nan v = true -> not_outside lo hi v = true.
Proof.
  intros Hv. unfold not_outside.
  destruct (v <? lo) eqn:E1; [apply FloatOrder.ltb_nonnan in E1; destruct E1; congruence|].
  destruct (hi <? v) eqn:E2; [apply FloatOrder.ltb_nonnan in E2; destruct E2; congruence|].
  reflexivity.
Qed.

Lemma leb_nan (a b : float) : is_nan a = true \/ is_nan b = true -> (a <=? b) = false.
Proof.
  intros H. destruct (a <=? b) eqn:E; [|reflexivity].
  rewrite FloatOrder.leb_ltb_eqb in E. apply orb_true_iff in E as [E|E].
  - apply FloatOrder.ltb_nonnan in E. destruct E, H; congruence.
  - apply FloatOrder.eqb_lex in E. destruct E as (? & ? & _), H; congruence.
Qed.

Lemma passes_box_numbers (b : Box) (x y z : float) :
  bounds_are_numbers b ->
  is_nan x = false -> is_nan y = false -> is_nan z = false ->
  passes_box b x y z = within b x y z.
Proof.
  intros (H1 & H2 & H3 & H4 & H5 & H6) Hx Hy Hz. unfold passes_box, within.
  rewrite !not_outside_numbers by assumption. now rewrite !andb_assoc.
Qed.

(** What [inside_imaging_volume] returns, comparison by comparison. *)
Lemma inside_imaging_volume_true (b : Box) (xpos ypos zpos : option float) :
  inside_imaging_volume b xpos ypos zpos = Ok true <->
  exists x y z, xpos = Some x /\ ypos = Some y /\ zpos = Some z /\
                passes_box b x y z = true.
Proof.
  unfold inside_imaging_volume, Py.lt, Py.gt, passes_box, not_outside. split.
  - destruct xpos as [x|]; cbn; [|discriminate].
    destruct (x <? x_low b) eqn:E1; cbn; [discriminate|].
    destruct (x_high b <? x) eqn:E2; cbn; [discriminate|].
    destruct ypos as [y|]; cbn; [|discriminate].
    destruct (y <? y_low b) eqn:E3; cbn; [discriminate|].
    destruct (y_high b <? y) eqn:E4; cbn; [discriminate|].
    destruct zpos as [z|]; cbn; [|discriminate].
    destruct (z <? z_low b) eqn:E5; cbn; [discriminate|].
    destruct (z_high b <? z) eqn:E6; cbn; [discriminate|].
    intros _. exists x, y, z. now rewrite E1, E2, E3, E4, E5, E6.
  - intros (x & y & z & -> & -> & -> & H).
    rewrite !andb_true_iff, !negb_true_iff in H.
    destruct H as [[[H1 H2] [H3 H4]] [H5 H6]]. cbn.
    rewrite H1. cbn. rewrite H2. cbn. rewrite H3. cbn. rewrite H4. cbn.
    rewrite H5. cbn. rewrite H6. reflexivity.
Qed.

Lemma imaging_volume_shrunk (margin : float) (tracks : list Track.t) (b : Box) :
  imaging_volume margin tracks = Ok b ->
  shrunk_box margin (coordinates Position.x tracks) (coordinates Position.y tracks)
             (coordinates Position.z tracks) b.
Proof.
  unfold imaging_volume, shrunk_box, bind.
  destruct (Py.max (coordinates Position.x tracks)) as [max_x|]; [|discriminate].
  destruct (Py.min (coordinates Position.x tracks)) as [min_x|]; [|discriminate].
  destruct (Py.max (coordinates Position.y tracks)) as [max_y|]; [|discriminate].
  destruct (Py.min (coordinates Position.y tracks)) as [min_y|]; [|discriminate].
  destruct (Py.max (coordinates Position.z tracks)) as [max_z|]; [|discriminate].
  destruct (Py.min (coordinates Position.z tracks)) as [min_z|]; [|discriminate].
  intros [= <-]. exists min_x, max_x, min_y, max_y, min_z, max_z. repeat split.
Qed.




(** Three tracks: one crosses the volume from time 0 to time 60, one is
    first seen at time 30 in the middle of the volume, one is in the middle
    of the volume at time 0. *)
Definition crossing : Track.t :=
  Sample.track 1 [Sample.position 1.0 1.0 1.0 0.0; Sample.position 50.0 50.0 50.0 30.0;
                  Sample.position 100.0 100.0 100.0 60.0] [].

Definition appearing : Track.t :=
  Sample.track 2 [Sample.position 50.0 50.0 50.0 30.0;
                  Sample.position 60.0 60.0 70.0 60.0] [].

Definition central : Track.t :=
  Sample.track 3 [Sample.position 50.0 50.0 50.0 0.0;
                  Sample.position 55.0 55.0 55.0 60.0] [].

(** The profile that [Profile([crossing, appearing, central])] constructs,
    before any analysis. *)
Definition three_tracks : world :=
  mkWorld (Profile.mk [crossing; appearing; central]
             [2.0; 2.0; 2.0] [8.0; 8.0; 8.0] [5.0; 5.0; 5.0] [0.625; 0.625; 0.625]
             [1.0; 1.0; 1.0] [0.5; 0.5; 0.5] [0.3; 0.3; 0.3] [0.2; 0.2; 0.2]
             [0.1; 0.1; 0.1] [0.1; 0.1; 0.1] [] [] []) [].

Lemma three_tracks_built :
  Sample.profile [crossing; appearing; central] = Ok (self three_tracks).
Proof. reflexivity. Qed.


(** A track that is first seen at time 30 at a place whose x is [nan]. *)
Definition unplaced : Track.t :=
  Sample.track 15
    [Position.mk (Some nan) (Some 50.0) (Some 50.0) (Some 30.0) None None None None (Some 0.0) true;
     Sample.position 60.0 60.0 70.0 60.0] [].

Definition with_unplaced : world :=
  mkWorld (Profile.mk [crossing; unplaced]
             [2.0; 2.0] [8.0; 8.0] [5.0; 5.0] [0.625; 0.625]
             [1.0; 1.0] [0.5; 0.5] [0.3; 0.3] [0.2; 0.2] [0.1; 0.1] [0.1; 0.1]
             [] [] []) [].

Lemma with_unplaced_built : Sample.profile [crossing; unplaced] = Ok (self with_unplaced).
Proof. reflexivity. Qed.


End TeleportStarts.

(* ================================================================= *)
(** * Dictionaries: insertion or append *)

Section DictFacts.
Local Open Scope float_scope.
Local Open Scope py_scope.

Lemma key_match_refl (k : float) : Dict.key_match k k = true.
Proof.
  unfold Dict.key_match. destruct (is_nan k) eqn:E; [apply orb_true_r|].
  now rewrite FloatOrder.eqb_refl.
Qed.

Lemma key_match_spec (a b : float) :
  Dict.key_match a b = true <->
  (a =? b) = true \/ (is_nan a = true /\ is_nan b = true).
Proof.
  unfold Dict.key_match. rewrite orb_true_iff, andb_true_iff. reflexivity.
Qed.

Lemma key_match_sym (a b : float) : Dict.key_match a b = Dict.key_match b a.
Proof.
  unfold Dict.key_match. rewrite (FloatOrder.eqb_sym a b).
  now rewrite (andb_comm (is_nan a)).
Qed.

Lemma key_match_trans (a b c : float) :
  Dict.key_match a b = true -> Dict.key_match b c = true -> Dict.key_match a c = true.
Proof.
  rewrite !key_match_spec. intros [H1|[H1 H1']] [H2|[H2 H2']].
  - left. eapply FloatOrder.eqb_trans; eassumption.
  - apply FloatOrder.eqb_lex in H1 as (_ & H1 & _). congruence.
  - apply FloatOrder.eqb_lex in H2 as (H2 & _ & _). congruence.
  - now right.
Qed.

(** Two keys that match find the same entries. *)
Lemma key_match_compat (a b k : float) :
  Dict.key_match a b = true -> Dict.key_match k a = Dict.key_match k b.
Proof.
  intros H.
  destruct (Dict.key_match k a) eqn:Ea, (Dict.key_match k b) eqn:Eb; trivial.
  - rewrite (key_match_trans k a b Ea H) in Eb. discriminate.
  - rewrite key_match_sym in H. rewrite (key_match_trans k b a Eb H) in Ea. discriminate.
Qed.

(** The values listed under a key, none when the key is absent. *)
Definition lookup (k : float) (d : Dict.t (list float)) : list float :=
  match Dict.get k d with
  | Ok values => values
  | Raise _ => []
  end.

(** The dictionary after [values] were added under [k]: appended to the list
    of the entry that [k] finds, or listed under a new entry at the end. *)
Fixpoint upsert (k : float) (values : list float) (d : Dict.t (list float))
  : Dict.t (list float) :=
  match d with
  | [] => [(k, values)]
  | (k', l) :: rest =>
      if Dict.key_match k' k then (k', l ++ values) :: rest
      else (k', l) :: upsert k values rest
  end.

Lemma get_set_same {V : Type} (k : float) (v : V) (d : Dict.t V) :
  Dict.get k (Dict.set k v d) = Ok v.
Proof.
  induction d as [|[k' v'] rest IH]; cbn.
  - now rewrite key_match_refl.
  - destruct (Dict.key_match k' k) eqn:E; cbn; now rewrite E.
Qed.

Lemma set_set_same {V : Type} (k : float) (v v' : V) (d : Dict.t V) :
  Dict.set k v' (Dict.set k v d) = Dict.set k v' d.
Proof.
  induction d as [|[k0 v0] rest IH]; cbn.
  - now rewrite key_match_refl.
  - destruct (Dict.key_match k0 k) eqn:E; cbn; rewrite E; [reflexivity|now rewrite IH].
Qed.

Lemma set_upsert (k : float) (values : list float) (d : Dict.t (list float)) :
  Dict.set k (lookup k d ++ values) d = upsert k values d.
Proof.
  unfold lookup. induction d as [|[k' l] rest IH]; cbn; [reflexivity|].
  destruct (Dict.key_match k' k) eqn:E; [reflexivity|]. now rewrite IH.
Qed.

Lemma mem_get {V : Type} (k : float) (d : Dict.t V) :
  Dict.mem k d = true -> exists v, Dict.get k d = Ok v.
Proof.
  unfold Dict.mem. induction d as [|[k' v] rest IH]; cbn; [discriminate|].
  destruct (Dict.key_match k' k); [now exists v|exact IH].
Qed.

Lemma not_mem_get {V : Type} (k : float) (d : Dict.t V) :
  Dict.mem k d = false -> Dict.get k d = Raise KeyError.
Proof.
  unfold Dict.mem. induction d as [|[k' v] rest IH]; cbn; [reflexivity|].
  destruct (Dict.key_match k' k); [discriminate|exact IH].
Qed.

(** The two statements of the loop body never raise, and amount to
    [upsert]. *)
Lemma extend_at_upsert (dt : float) (values : list float) (d : Dict.t (list float)) :
  Profile.extend_at dt values d = Ok (upsert dt values d).
Proof.
  unfold Profile.extend_at. destruct (Dict.mem dt d) eqn:Hmem.
  - destruct (mem_get dt d Hmem) as [l Hl]. rewrite Hl. cbn [bind].
    rewrite <- set_upsert. unfold lookup. now rewrite Hl.
  - rewrite get_set_same. cbn [bind app]. rewrite set_set_same.
    rewrite <- set_upsert. unfold lookup. now rewrite (not_mem_get dt d Hmem).
Qed.

(** A dictionary as Python builds them: no key is [nan] and no two keys
    are equal. *)
Definition well_formed {V : Type} (d : Dict.t V) : Prop :=
  Forall (fun k => is_nan k = false) (Dict.keys d) /\
  ForallOrdPairs (fun a b => (a =? b) = false) (Dict.keys d).

Lemma key_match_nonnan (a b : float) :
  is_nan a = false -> Dict.key_match a b = (a =? b).
Proof. unfold Dict.key_match. intros ->. apply orb_false_r. Qed.

(** In a well-formed dictionary a key finds its own entry. *)
Lemma get_own_entry {V : Type} (d : Dict.t V) (k : float) (v : V) :
  well_formed d -> In (k, v) d -> Dict.get k d = Ok v.
Proof.
  unfold well_formed, Dict.keys. intros [Hnan Hdis].
  induction d as [|[k' v'] rest IH]; cbn; [contradiction|].
  cbn in Hnan, Hdis. inversion Hnan as [|? ? Hk' Hrest]; subst.
  inversion Hdis as [|? ? Hall Hpairs]; subst.
  intros [[= -> ->]|Hin].
  - now rewrite key_match_refl.
  - rewrite key_match_nonnan by assumption.
    rewrite Forall_forall in Hall.
    rewrite (Hall k) by (apply (in_map fst _ _ Hin)).
    now apply IH.
Qed.

End DictFacts.

(* ================================================================= *)
(** * [calculate_msd]: pooling the squared displacements *)

Section Pooling.
Import Profile.
Local Open Scope float_scope.
Local Open Scope py_scope.

(** The tracks of all the profiles, in order. *)
Definition all_tracks (profiles : list Profile.t) : list Track.t :=
  flat_map tracks profiles.

(** The squared displacements at delta-t [dt] of all the tracks, those of a
    track after those of the tracks before it. *)
Definition pooled (dt : float) (profiles : list Profile.t) : list float :=
  flat_map (fun t => lookup dt (Track.get_deltaT_displacements_sq t))
           (all_tracks profiles).

(** The entries of all the maps, one map after the other. *)
Definition all_entries (profiles : list Profile.t) : Dict.t (list float) :=
  flat_map Track.get_deltaT_displacements_sq (all_tracks profiles).

(** The dictionary after the entries [ops] were added in turn. *)
Definition merge (ops : Dict.t (list float)) (d : Dict.t (list float))
  : Dict.t (list float) :=
  fold_left (fun d op => upsert (fst op) (snd op) d) ops d.

Lemma merge_app (ops1 ops2 d : Dict.t (list float)) :
  merge (ops1 ++ ops2) d = merge ops2 (merge ops1 d).
Proof. apply fold_left_app. Qed.

(** The innermost loop, over the keys of one map. *)
Lemma keys_loop (source ops : Dict.t (list float)) (d : Dict.t (list float)) :
  (forall k v, In (k, v) ops -> Dict.get k source = Ok v) ->
  foldM (fun msd_dict dt =>
           values <- Dict.get dt source ;; extend_at dt values msd_dict)
        (Dict.keys ops) d
  = Ok (merge ops d).
Proof.
  revert d. induction ops as [|[k v] ops IH]; intros d Hget; cbn; [reflexivity|].
  rewrite (Hget k v) by now left. cbn [bind].
  rewrite extend_at_upsert. cbn [bind].
  apply IH. intros k' v' Hin. apply Hget. now right.
Qed.

Lemma tracks_loop (ts : list Track.t) (d : Dict.t (list float)) :
  Forall (fun t => well_formed (Track.get_deltaT_displacements_sq t)) ts ->
  foldM (fun msd_dict t =>
           let deltaT_displacements_sq := Track.get_deltaT_displacements_sq t in
           foldM (fun msd_dict dt =>
                    values <- Dict.get dt deltaT_displacements_sq ;;
                    extend_at dt values msd_dict)
                 (Dict.keys deltaT_displacements_sq) msd_dict)
        ts d
  = Ok (merge (flat_map Track.get_deltaT_displacements_sq ts) d).
Proof.
  intros Hwf. revert d. induction Hwf as [|t ts Ht Hts IH]; intros d; cbn; [reflexivity|].
  rewrite keys_loop by (intros k v; now apply get_own_entry).
  cbn [bind]. rewrite IH. now rewrite merge_app.
Qed.

Lemma collate_allT_merge (profiles : list Profile.t) :
  Forall (fun t => well_formed (Track.get_deltaT_displacements_sq t))
         (all_tracks profiles) ->
  collate_allT profiles = Ok (merge (all_entries profiles) []).
Proof.
  unfold collate_allT, all_entries, all_tracks.
  generalize (@nil (float * list float)) as d.
  induction profiles as [|p profiles IH]; intros d Hwf; cbn; [reflexivity|].
  cbn in Hwf. apply Forall_app in Hwf as [Hp Hrest].
  rewrite tracks_loop by assumption. cbn [bind].
  rewrite IH by assumption. now rewrite flat_map_app, merge_app.
Qed.

(** The values added under a key that matches [k]. *)
Definition values_at (k : float) (ops : Dict.t (list float)) : list float :=
  flat_map (fun op => if Dict.key_match (fst op) k then snd op else []) ops.

Lemma lookup_upsert (k k' : float) (values : list float) (d : Dict.t (list float)) :
  lookup k (upsert k' values d)
  = lookup k d ++ (if Dict.key_match k' k then values else []).
Proof.
  unfold lookup. induction d as [|[e l] rest IH]; cbn.
  - now destruct (Dict.key_match k' k).
  - destruct (Dict.key_match e k') eqn:Ek'; cbn.
    + rewrite (key_match_sym k' k), <- (key_match_compat e k' k Ek'), (key_match_sym k e).
      destruct (Dict.key_match e k); [reflexivity|]. now rewrite app_nil_r.
    + destruct (Dict.key_match e k) eqn:Ek; [|exact IH].
      destruct (Dict.key_match k' k) eqn:Ekk; [|now rewrite app_nil_r].
      rewrite key_match_sym in Ekk.
      rewrite (key_match_trans e k k' Ek Ekk) in Ek'. discriminate.
Qed.

Lemma lookup_merge (k : float) (ops d : Dict.t (list float)) :
  lookup k (merge ops d) = lookup k d ++ values_at k ops.
Proof.
  revert d. induction ops as [|[k' v] ops IH]; intros d; cbn.
  - now rewrite app_nil_r.
  - unfold merge in IH. rewrite IH, lookup_upsert, <- app_assoc. reflexivity.
Qed.

Lemma values_at_none (k e : float) (rest : Dict.t (list float)) :
  Dict.key_match e k = true -> is_nan e = false ->
  Forall (fun b => (e =? b) = false) (map fst rest) ->
  values_at k rest = [].
Proof.
  intros Ek He. unfold values_at.
  induction rest as [|[e' l'] rest IH]; cbn; intros Hall; [reflexivity|].
  inversion Hall as [|? ? He' Hall']; subst.
  destruct (Dict.key_match e' k) eqn:Ek'.
  - rewrite key_match_sym in Ek'.
    pose proof (key_match_trans e k e' Ek Ek') as Hee.
    rewrite key_match_nonnan in Hee by assumption. congruence.
  - now apply IH.
Qed.

(** In a well-formed map, the values added under [k] are those that [k]
    looks up. *)
Lemma values_at_lookup (k : float) (d : Dict.t (list float)) :
  well_formed d -> values_at k d = lookup k d.
Proof.
  unfold well_formed, Dict.keys. intros [Hnan Hdis].
  induction d as [|[e l] rest IH]; [reflexivity|].
  cbn in Hnan, Hdis. inversion Hnan as [|? ? He Hrest]; subst.
  inversion Hdis as [|? ? Hall Hpairs]; subst.
  unfold values_at, lookup in *. cbn.
  destruct (Dict.key_match e k) eqn:Ek.
  - fold (values_at k rest). rewrite (values_at_none k e rest) by assumption.
    apply app_nil_r.
  - cbn. now apply IH.
Qed.

Lemma values_at_app (k : float) (ops1 ops2 : Dict.t (list float)) :
  values_at k (ops1 ++ ops2) = values_at k ops1 ++ values_at k ops2.
Proof. apply flat_map_app. Qed.

(** What the merged dictionary lists under a key is what the tracks pool
    under it. *)
Lemma lookup_merged (k : float) (profiles : list Profile.t) :
  Forall (fun t => well_formed (Track.get_deltaT_displacements_sq t))
         (all_tracks profiles) ->
  lookup k (merge (all_entries profiles) []) = pooled k profiles.
Proof.
  intros Hwf. rewrite lookup_merge. cbn [lookup Dict.get app].
  unfold all_entries, pooled.
  induction Hwf as [|t ts Ht Hts IH]; cbn [flat_map]; [reflexivity|].
  now rewrite values_at_app, IH, values_at_lookup.
Qed.

End Pooling.

Section MergedKeys.
Import Profile.
Local Open Scope float_scope.
Local Open Scope py_scope.

Lemma keys_upsert (k : float) (values : list float) (d : Dict.t (list float)) :
  Dict.keys (upsert k values d)
  = if Dict.mem k d then Dict.keys d else Dict.keys d ++ [k].
Proof.
  unfold Dict.keys, Dict.mem. induction d as [|[e l] rest IH]; cbn; [reflexivity|].
  destruct (Dict.key_match e k); cbn; [reflexivity|].
  rewrite IH. now destruct (existsb _ rest).
Qed.

Lemma mem_false_iff {V : Type} (k : float) (d : Dict.t V) :
  Dict.mem k d = false <-> Forall (fun e => Dict.key_match e k = false) (Dict.keys d).
Proof.
  unfold Dict.mem, Dict.keys. induction d as [|[e v] rest IH]; cbn.
  - split; [constructor|reflexivity].
  - rewrite orb_false_iff, IH. split.
    + intros [H1 H2]. now constructor.
    + intros H. inversion H; subst. now split.
Qed.

Lemma mem_true_iff {V : Type} (k : float) (d : Dict.t V) :
  Dict.mem k d = true <-> exists e, In e (Dict.keys d) /\ Dict.key_match e k = true.
Proof.
  unfold Dict.mem, Dict.keys. rewrite existsb_exists. split.
  - intros ([e v] & Hin & H). exists e. split; [apply (in_map fst _ _ Hin)|exact H].
  - intros (e & Hin & H). apply in_map_iff in Hin as ([e' v] & <- & Hin).
    now exists (e', v).
Qed.

(** No two keys of the dictionary match. *)
Definition distinct_keys {V : Type} (d : Dict.t V) : Prop :=
  ForallOrdPairs (fun a b => Dict.key_match a b = false) (Dict.keys d).

Lemma FOP_snoc {A : Type} (R : A -> A -> Prop) (l : list A) (a : A) :
  ForallOrdPairs R l -> Forall (fun x => R x a) l -> ForallOrdPairs R (l ++ [a]).
Proof.
  induction 1 as [|x l Hx Hl IH]; cbn; intros Ha.
  - repeat constructor.
  - inversion Ha; subst. constructor; [|now apply IH].
    apply Forall_app. split; [assumption|]. now constructor.
Qed.

Lemma distinct_upsert (k : float) (values : list float) (d : Dict.t (list float)) :
  distinct_keys d -> distinct_keys (upsert k values d).
Proof.
  unfold distinct_keys. rewrite keys_upsert.
  destruct (Dict.mem k d) eqn:Hmem; [trivial|].
  intros H. apply FOP_snoc; [assumption|]. now apply mem_false_iff.
Qed.

Lemma distinct_merge (ops d : Dict.t (list float)) :
  distinct_keys d -> distinct_keys (merge ops d).
Proof.
  revert d. induction ops as [|[k v] ops IH]; intros d Hd; cbn; [assumption|].
  apply IH. now apply distinct_upsert.
Qed.

(** A key of the merged dictionary was a key before or is the key of an
    entry that was added. *)
Lemma keys_merge_in (ops d : Dict.t (list float)) (x : float) :
  In x (Dict.keys (merge ops d)) -> In x (Dict.keys d) \/ In x (Dict.keys ops).
Proof.
  revert d. induction ops as [|[k v] ops IH]; intros d; cbn; [now left|].
  intros H. apply IH in H as [H|H]; [|now right; right].
  rewrite keys_upsert in H. destruct (Dict.mem k d); [now left|].
  apply in_app_iff in H as [H|[<-|[]]]; [now left|now right; left].
Qed.

Lemma mem_upsert (k k' : float) (values : list float) (d : Dict.t (list float)) :
  Dict.mem k (upsert k' values d) = Dict.mem k d || Dict.key_match k' k.
Proof.
  unfold Dict.mem. induction d as [|[e l] rest IH]; cbn.
  - apply orb_false_r.
  - destruct (Dict.key_match e k') eqn:Ek'; cbn.
    + rewrite (key_match_sym k' k), <- (key_match_compat e k' k Ek'), (key_match_sym k e).
      now destruct (Dict.key_match e k), (existsb _ rest).
    + rewrite IH. now rewrite orb_assoc.
Qed.

Lemma mem_merge (k : float) (ops d : Dict.t (list float)) :
  Dict.mem k (merge ops d)
  = Dict.mem k d || existsb (fun op => Dict.key_match (fst op) k) ops.
Proof.
  revert d. induction ops as [|[k' v] ops IH]; intros d.
  - cbn [merge fold_left existsb]. now rewrite orb_false_r.
  - change (merge ((k', v) :: ops) d) with (merge ops (upsert k' v d)).
    rewrite IH, mem_upsert. cbn [existsb fst]. now rewrite orb_assoc.
Qed.

(** ** [sorted] *)

(** Strictly ascending for [<]. *)
Definition ascending (l : list float) : Prop :=
  StronglySorted (fun a b => (a <? b) = true) l.

Lemma insert_sorted_in (k x : float) (l : list float) :
  In x (Py.insert_sorted k l) <-> x = k \/ In x l.
Proof.
  induction l as [|h t IH]; cbn.
  - split; [intros [<-|[]]; now left|intros [->|[]]; now left].
  - destruct (k <? h); cbn; [|rewrite IH]; intuition congruence.
Qed.

Lemma sorted_loop_in (x : float) (l acc : list float) :
  In x (fold_left (fun acc k => Py.insert_sorted k acc) l acc) <-> In x l \/ In x acc.
Proof.
  revert acc. induction l as [|k l IH]; intros acc; cbn; [tauto|].
  rewrite IH, insert_sorted_in. intuition congruence.
Qed.

Lemma sorted_in (x : float) (l : list float) : In x (Py.sorted l) <-> In x l.
Proof. unfold Py.sorted. rewrite sorted_loop_in. cbn. tauto. Qed.

Lemma insert_ascending (k : float) (l : list float) :
  ascending l -> is_nan k = false ->
  Forall (fun x => is_nan x = false /\ (x =? k) = false) l ->
  ascending (Py.insert_sorted k l).
Proof.
  unfold ascending. intros Hl Hk. induction Hl as [|h t Ht IH Hh]; cbn; intros Hall.
  - repeat constructor.
  - inversion Hall as [|? ? [Hn He] Hall']; subst.
    destruct (k <? h) eqn:Ekh.
    + constructor; [now constructor|]. constructor; [assumption|].
      rewrite Forall_forall in Hh |- *. intros x Hx.
      eapply FloatOrder.ltb_trans; [exact Ekh|now apply Hh].
    + assert (Hhk : (h <? k) = true).
      { pose proof (FloatOrder.ltb_total k h Hk Hn Ekh) as Hle.
        rewrite FloatOrder.leb_ltb_eqb, He, orb_false_r in Hle. exact Hle. }
      constructor; [now apply IH|].
      rewrite Forall_forall in Hh |- *. intros x Hx.
      apply insert_sorted_in in Hx as [->|Hx]; [assumption|now apply Hh].
Qed.

Lemma sorted_loop_ascending (l acc : list float) :
  ascending acc ->
  Forall (fun x => is_nan x = false) acc ->
  Forall (fun x => is_nan x = false) l ->
  ForallOrdPairs (fun a b => (a =? b) = false) l ->
  (forall x y, In x acc -> In y l -> (x =? y) = false) ->
  ascending (fold_left (fun acc k => Py.insert_sorted k acc) l acc).
Proof.
  revert acc. induction l as [|k l IH]; intros acc Hacc Hna Hnl Hdis Hcross; cbn;
    [assumption|].
  inversion Hnl as [|? ? Hk Hnl']; subst. inversion Hdis as [|? ? Hkl Hdis']; subst.
  apply IH; try assumption.
  - apply insert_ascending; [assumption|assumption|].
    rewrite Forall_forall in Hna |- *. intros x Hx. split; [now apply Hna|].
    apply Hcross; [assumption|now left].
  - rewrite Forall_forall in Hna |- *. intros x Hx.
    apply insert_sorted_in in Hx as [->|Hx]; [assumption|now apply Hna].
  - intros x y Hx Hy. apply insert_sorted_in in Hx as [->|Hx].
    + rewrite Forall_forall in Hkl. now apply Hkl.
    + apply Hcross; [assumption|now right].
Qed.

Lemma sorted_ascending (l : list float) :
  Forall (fun x => is_nan x = false) l ->
  ForallOrdPairs (fun a b => (a =? b) = false) l ->
  ascending (Py.sorted l).
Proof.
  intros Hn Hd. apply sorted_loop_ascending; try assumption.
  - constructor.
  - constructor.
  - intros x y [].
Qed.

End MergedKeys.

Section PooledMsd.
Import Profile.
Context {lib : Numerics}.
Local Open Scope float_scope.
Local Open Scope py_scope.

(** Every track hands out a well-formed map. *)
Definition maps_well_formed (profiles : list Profile.t) : Prop :=
  Forall (fun t => well_formed (Track.get_deltaT_displacements_sq t))
         (all_tracks profiles).

(** The list the specification describes: one pair per delta-t of the merged
    map, the delta-t ascending, each with the mean of what is pooled under
    it. *)
Definition pooled_means (profiles : list Profile.t) : list (float * float) :=
  map (fun dt => (dt, np_mean (pooled dt profiles)))
      (Py.sorted (Dict.keys (merge (all_entries profiles) []))).

(** The part of the list that a value of [max_dt] retains. *)
Definition retained (max_dt : option float) (entries : list (float * float))
  : list (float * float) :=
  match max_dt with
  | None => entries
  | Some X => if X =? infinity then entries else keep_upto X entries
  end.

Lemma mapM_get (d : Dict.t (list float)) (ks : list float) :
  (forall key, In key ks -> Dict.mem key d = true) ->
  mapM (fun key => values <- Dict.get key d ;; Ok (key, np_mean values)) ks
  = Ok (map (fun key => (key, np_mean (lookup key d))) ks).
Proof.
  induction ks as [|k ks IH]; intros Hmem; cbn; [reflexivity|].
  destruct (mem_get k d (Hmem k (or_introl eq_refl))) as [l Hl].
  unfold lookup. rewrite Hl. cbn [bind].
  rewrite IH by (intros key Hin; apply Hmem; now right). reflexivity.
Qed.

Lemma mean_by_key_lookup (d : Dict.t (list float)) :
  mean_by_key d
  = Ok (map (fun key => (key, np_mean (lookup key d))) (Py.sorted (Dict.keys d))).
Proof.
  unfold mean_by_key. apply mapM_get. intros key Hin.
  apply (proj1 (sorted_in _ _)) in Hin. apply mem_true_iff. exists key.
  split; [assumption|apply key_match_refl].
Qed.

Lemma compute_msd_pooled (profiles : list Profile.t) :
  maps_well_formed profiles ->
  compute_msd (Some profiles) "allT" = Ok (pooled_means profiles).
Proof.
  intros Hwf. unfold compute_msd. cbn [String.eqb Ascii.eqb Bool.eqb].
  rewrite collate_allT_merge by assumption. cbn [bind].
  rewrite mean_by_key_lookup. unfold pooled_means. f_equal.
  apply map_ext. intros dt. now rewrite lookup_merged.
Qed.

(** The delta-t of a track are not [nan], and so are the merged ones. *)
Lemma entry_keys (profiles : list Profile.t) (dt : float) :
  In dt (Dict.keys (all_entries profiles)) <->
  exists t, In t (all_tracks profiles) /\
            In dt (Dict.keys (Track.get_deltaT_displacements_sq t)).
Proof.
  unfold all_entries, Dict.keys. rewrite in_map_iff. split.
  - intros ([k v] & <- & Hin). apply in_flat_map in Hin as (t & Ht & Hin).
    exists t. split; [assumption|apply (in_map fst _ _ Hin)].
  - intros (t & Ht & Hin). apply in_map_iff in Hin as (e & <- & Hin).
    exists e. split; [reflexivity|]. apply in_flat_map. now exists t.
Qed.

Lemma merged_keys_nonnan (profiles : list Profile.t) :
  maps_well_formed profiles ->
  Forall (fun k => is_nan k = false) (Dict.keys (merge (all_entries profiles) [])).
Proof.
  intros Hwf. apply Forall_forall. intros k Hk.
  apply keys_merge_in in Hk as [[]|Hk].
  apply entry_keys in Hk as (t & Ht & Hk).
  unfold maps_well_formed in Hwf. rewrite Forall_forall in Hwf.
  destruct (Hwf t Ht) as [Hnan _]. rewrite Forall_forall in Hnan. now apply Hnan.
Qed.

Lemma FOP_impl {A : Type} (R S : A -> A -> Prop) (P : A -> Prop) (l : list A) :
  (forall a b, P a -> R a b -> S a b) ->
  Forall P l -> ForallOrdPairs R l -> ForallOrdPairs S l.
Proof.
  intros HRS HP. induction 1 as [|a l Ha Hl IH]; [constructor|].
  inversion HP; subst. constructor; [|now apply IH].
  eapply Forall_impl; [|exact Ha]. intros b. now apply HRS.
Qed.

Lemma pooled_means_ascending (profiles : list Profile.t) :
  maps_well_formed profiles -> ascending (map fst (pooled_means profiles)).
Proof.
  intros Hwf. unfold pooled_means. rewrite map_map. cbn [fst]. rewrite map_id.
  pose proof (merged_keys_nonnan profiles Hwf) as Hnan.
  apply sorted_ascending; [assumption|].
  apply (FOP_impl (fun a b => Dict.key_match a b = false) _
                  (fun k => is_nan k = false)); [|assumption|].
  - intros a b Ha H. now rewrite key_match_nonnan in H.
  - apply (distinct_merge (all_entries profiles) []). constructor.
Qed.

(** C1, as amended. With maps that are well formed, the list that
    [calculate_msd] computes for method ['allT'] is [pooled_means]: the
    delta-t strictly ascending, each delta-t of each track present once, and
    each paired with the mean of the squared displacements that all the
    tracks list under it, in the order of the tracks. A result that is not
    the sentinel returns as ['msd'] the part of that list that [max_dt]
    retains: all of it for [None] and for an infinite cutoff, the pairs with
    delta-t at most a finite cutoff otherwise. *)
Theorem calculate_msd_allT_pools (profiles : list Profile.t) (max_dt : option float)
  (res : MsdResult) :
  maps_well_formed profiles ->
  calculate_msd (Some profiles) None max_dt "allT" = Ok res ->
  linearTimes res <> [] ->
  compute_msd (Some profiles) "allT" = Ok (pooled_means profiles) /\
  msd res = retained max_dt (pooled_means profiles) /\
  ascending (map fst (pooled_means profiles)) /\
  (forall dt v, In (dt, v) (pooled_means profiles) ->
     v = np_mean (pooled dt profiles) /\
     exists t, In t (all_tracks profiles) /\
               In dt (Dict.keys (Track.get_deltaT_displacements_sq t))) /\
  (forall t dt, In t (all_tracks profiles) ->
     In dt (Dict.keys (Track.get_deltaT_displacements_sq t)) ->
     exists dt', (dt' =? dt) = true /\
                 In (dt', np_mean (pooled dt' profiles)) (pooled_means profiles)).
Proof.
  intros Hwf Hres Hfit.
  pose proof (compute_msd_pooled profiles Hwf) as Hcomp.
  split; [exact Hcomp|]. split; [|split; [now apply pooled_means_ascending|split]].
  - apply fitted_msd in Hres as [cutoff Hsel]; [|assumption].
    unfold select_msd in Hsel. rewrite Hcomp in Hsel. cbn [bind] in Hsel.
    unfold retained, keep_upto. destruct max_dt as [X|].
    + destruct (X =? infinity); cbn [negb] in Hsel; now injection Hsel.
    + destruct (Py.last_item (pooled_means profiles)); cbn [bind] in Hsel;
        [now injection Hsel|discriminate].
  - intros dt v Hin. unfold pooled_means in Hin.
    apply in_map_iff in Hin as (k & [= <- <-] & Hk). split; [reflexivity|].
    apply (proj1 (sorted_in _ _)), keys_merge_in in Hk as [[]|Hk]. now apply entry_keys.
  - intros t dt Ht Hdt.
    assert (Hmem : Dict.mem dt (merge (all_entries profiles) []) = true).
    { rewrite mem_merge. cbn [Dict.mem existsb orb].
      apply existsb_exists.
      assert (Hin : In dt (Dict.keys (all_entries profiles)))
        by (apply entry_keys; now exists t).
      apply in_map_iff in Hin as (e & <- & Hin). exists e.
      split; [assumption|apply key_match_refl]. }
    apply mem_true_iff in Hmem as (dt' & Hin & Hmatch).
    exists dt'. split.
    + pose proof (merged_keys_nonnan profiles Hwf) as Hnan.
      rewrite Forall_forall in Hnan.
      now rewrite key_match_nonnan in Hmatch by (now apply Hnan).
    + unfold pooled_means. apply in_map_iff. exists dt'.
      split; [reflexivity|now apply sorted_in].
Qed.

End PooledMsd.

Section PooledMsdExamples.
Import Profile.
Local Open Scope float_scope.

(** A second profile, of one track that lists its delta-t in another order. *)
Definition reordered : Track.t :=
  Sample.track 4 [Sample.position 9.0 5.0 5.0 0.0; Sample.position 8.0 5.0 5.0 1.0;
                  Sample.position 7.0 5.0 5.0 2.0; Sample.position 6.0 5.0 5.0 3.0]
               [(2.0, [3.0; 5.0]); (1.0, [1.0])].

Definition reordered_profile : Profile.t :=
  Profile.mk [reordered] [2.0] [8.0] [5.0] [0.625] [1.0] [0.5] [0.3] [0.2] [0.1] [0.1]
             [] [] [].

Lemma reordered_profile_built : Sample.profile [reordered] = Ok reordered_profile.
Proof. reflexivity. Qed.

Lemma sample_maps_well_formed :
  maps_well_formed [ballistic_profile; reordered_profile] /\
  maps_well_formed [pausing_profile] /\
  maps_well_formed [ballistic_profile].
Proof.
  unfold maps_well_formed, well_formed. cbn.
  repeat split; repeat constructor.
Qed.

(** What [calculate_msd] returns for the two profiles with the routines of
    the examples and the default [max_dt]. *)
Definition two_profiles_fit : MsdResult :=
  mkMsdResult [(1.0, 1.0); (2.0, 4.0)] 2.0 0.0 1.0 0.0 0.0 0.5 [1.0; 4.0] [1.0; 2.0].

Lemma calculate_msd_allT_pools_witness :
  maps_well_formed [ballistic_profile; reordered_profile] /\
  @calculate_msd Example.numerics (Some [ballistic_profile; reordered_profile]) None None
                 "allT"%string = Ok two_profiles_fit /\
  pooled 1.0 [ballistic_profile; reordered_profile] = [1.0; 1.0; 1.0] /\
  pooled 2.0 [ballistic_profile; reordered_profile] = [4.0; 3.0; 5.0] /\
  @pooled_means Example.numerics [ballistic_profile; reordered_profile]
  = [(1.0, 1.0); (2.0, 4.0)] /\
  msd two_profiles_fit
  = retained None (@pooled_means Example.numerics [ballistic_profile; reordered_profile]).
Proof.
  split; [exact (proj1 sample_maps_well_formed)|].
  split; [reflexivity|]. split; [reflexivity|]. split; [reflexivity|].
  split; [reflexivity|].
  refine (proj1 (proj2 (@calculate_msd_allT_pools Example.numerics
                          [ballistic_profile; reordered_profile] None two_profiles_fit
                          (proj1 sample_maps_well_formed) eq_refl _))).
  discriminate.
Defined.

(** C1 as stated fails. For the profile of [Sample.pausing] and the default
    arguments, the pooled list is [[(1, 0); (2, 4); (3, 4)]] and the
    ['msd'] returned is that of the sentinel; for the profile of
    [Sample.ballistic] and [max_dt=1.0], the pooled list has two pairs and
    the ['msd'] returned has the first one only. *)
Lemma calculate_msd_allT_returns_other_list :
  (@pooled_means Example.numerics [pausing_profile]
   = [(1.0, 0.0); (2.0, 4.0); (3.0, 4.0)] /\
   @calculate_msd Example.numerics (Some [pausing_profile]) None None "allT"%string
   = Ok sentinel /\
   msd sentinel = [(0.0, 0.0)]) /\
  (@pooled_means Example.numerics [ballistic_profile] = [(1.0, 1.0); (2.0, 4.0)] /\
   @calculate_msd Example.numerics (Some [ballistic_profile]) None (Some 1.0) "allT"%string
   = Ok ballistic_fit_upto_1 /\
   msd ballistic_fit_upto_1 = [(1.0, 1.0)]).
Proof. repeat split. Qed.

End PooledMsdExamples.

(* ================================================================= *)
(** * Teleport analysis: whole runs *)

Section TeleportRuns.
Import Profile.
Local Open Scope float_scope.
Local Open Scope py_scope.

(** Every run of [m] relates the world it starts from to the world it
    leaves by [R]. *)
Definition respects {A : Type} (R : world -> world -> Prop) (m : M A) : Prop :=
  forall w w' res, m w = (w', res) -> R w w'.

Section Respects.
Variable R : world -> world -> Prop.
Hypothesis R_refl : forall w, R w w.
Hypothesis R_trans : forall w1 w2 w3, R w1 w2 -> R w2 w3 -> R w1 w3.

Lemma respects_ret {A} (a : A) : respects R (ret a).
Proof. intros w w' res [= <- _]. apply R_refl. Qed.

Lemma respects_lift {A} (x : result A) : respects R (lift x).
Proof. intros w w' res [= <- _]. apply R_refl. Qed.

Lemma respects_get_self : respects R get_self.
Proof. intros w w' res [= <- _]. apply R_refl. Qed.

Lemma respects_mbind {A B} (m : M A) (k : A -> M B) :
  respects R m -> (forall a, respects R (k a)) -> respects R (mbind m k).
Proof.
  intros Hm Hk w w' res. unfold mbind.
  destruct (m w) as [w1 [a|e]] eqn:E.
  - intros H. eapply R_trans; [eapply Hm, E|eapply Hk, H].
  - intros [= <- _]. eapply Hm, E.
Qed.

Lemma respects_for_each {A} (l : list A) (body : A -> M unit) :
  (forall a, respects R (body a)) -> respects R (for_each l body).
Proof.
  intros Hb. induction l as [|a l IH]; cbn.
  - apply respects_ret.
  - apply respects_mbind; auto.
Qed.

Lemma respects_if {A} (c : bool) (m1 m2 : M A) :
  respects R m1 -> respects R m2 -> respects R (if c then m1 else m2).
Proof. now destruct c. Qed.

End Respects.

(** The attributes of a profile other than the three teleport lists. *)
Definition summary (s : Profile.t) :=
  (tracks s, duration s, Profile.length s, displacement s, meander s,
   medSpd s, irqSpd s, medTurn s, irqTurn s, medRoll s, irqRoll s).

(** From [w] to [w']: the summary is the same, the lists of start and end
    points and the output have only grown. *)
Definition grows (w w' : world) : Prop :=
  summary (self w') = summary (self w) /\
  (exists s, teleport_starts (self w') = teleport_starts (self w) ++ s) /\
  (exists e, teleport_ends (self w') = teleport_ends (self w) ++ e) /\
  (exists o, stdout w' = stdout w ++ o).

Lemma grows_refl (w : world) : grows w w.
Proof.
  split; [reflexivity|]. repeat split; exists []; now rewrite app_nil_r.
Qed.

Lemma grows_trans (w1 w2 w3 : world) : grows w1 w2 -> grows w2 w3 -> grows w1 w3.
Proof.
  intros (S1 & [s1 A1] & [e1 B1] & [o1 C1]) (S2 & [s2 A2] & [e2 B2] & [o2 C2]).
  split; [congruence|]. repeat split.
  - exists (s1 ++ s2). now rewrite A2, A1, app_assoc.
  - exists (e1 ++ e2). now rewrite B2, B1, app_assoc.
  - exists (o1 ++ o2). now rewrite C2, C1, app_assoc.
Qed.

Lemma grows_print (e : event) : respects grows (print e).
Proof.
  intros w w' res [= <- _]. split; [reflexivity|]. cbn.
  repeat split; [exists []|exists []|exists [e]]; now rewrite ?app_nil_r.
Qed.

Lemma grows_append_start (p : TeleportPoint.t) : respects grows (append_start p).
Proof.
  intros w w' res [= <- _]. split; [reflexivity|]. cbn.
  repeat split; [exists [p]|exists []|exists []]; now rewrite ?app_nil_r.
Qed.

Lemma grows_append_end (p : TeleportPoint.t) : respects grows (append_end p).
Proof.
  intros w w' res [= <- _]. split; [reflexivity|]. cbn.
  repeat split; [exists []|exists [p]|exists []]; now rewrite ?app_nil_r.
Qed.

Lemma grows_set_teleport_tracks (l : list Track.t) :
  respects grows (set_teleport_tracks l).
Proof.
  intros w w' res [= <- _]. split; [reflexivity|]. cbn.
  repeat split; exists []; now rewrite ?app_nil_r.
Qed.

Lemma grows_scan_track (b : Box) (end_time : float) (t : Track.t) :
  respects grows (scan_track b end_time t).
Proof.
  unfold scan_track.
  repeat first
    [ apply (respects_mbind grows grows_trans); [|intros ?]
    | apply respects_if
    | apply (respects_lift grows grows_refl) | apply (respects_ret grows grows_refl)
    | apply grows_append_start | apply grows_append_end ].
Qed.

(** X1. Whatever way a run of the teleport analysis ends, it leaves the
    tracks and the ten summary lists of the profile as they were, and the
    lists of start points, of end points and the output are the former ones
    with something appended. *)
Theorem analyse_teleportations_only_appends (margin : float) (w w' : world)
  (res : result unit) :
  analyse_teleportations margin w = (w', res) ->
  summary (self w') = summary (self w) /\
  (exists s, teleport_starts (self w') = teleport_starts (self w) ++ s) /\
  (exists e, teleport_ends (self w') = teleport_ends (self w) ++ e) /\
  (exists o, stdout w' = stdout w ++ o).
Proof.
  revert w w' res. change (respects grows (analyse_teleportations margin)).
  unfold analyse_teleportations.
  repeat first
    [ apply (respects_for_each grows grows_refl grows_trans); intros ?
    | apply grows_scan_track
    | apply (respects_mbind grows grows_trans); [|intros ?]
    | apply (respects_lift grows grows_refl) | apply (respects_ret grows grows_refl)
    | apply grows_print
    | apply (respects_get_self grows grows_refl) | apply grows_set_teleport_tracks
    | match goal with |- respects _ (match ?l with _ => _ end) => destruct l end ].
Qed.

End TeleportRuns.

Section TeleportOutcome.
Import Profile.
Local Open Scope float_scope.
Local Open Scope py_scope.

(** The end-type point that the loop records for a track, if any: the last
    position has a time below [end_time] and lies inside the sub-volume. *)
Definition teleport_end (b : Box) (end_time : float) (t : Track.t)
  : list TeleportPoint.t :=
  match Track.positions t with
  | [] => []
  | p0 :: _ =>
      let p_end := last (Track.positions t) p0 in
      match end_test b end_time p_end with
      | Ok true => [end_point t p_end]
      | _ => []
      end
  end.

Lemma record_points_full (is_start is_end : result bool) (ps pe : TeleportPoint.t)
  (w w' : world) :
  mbind (lift is_start) (fun c1 =>
    mbind (if c1 then append_start ps else ret tt) (fun _ =>
      mbind (lift is_end) (fun c2 => if c2 then append_end pe else ret tt))) w
  = (w', Ok tt) ->
  teleport_starts (self w')
  = teleport_starts (self w) ++ match is_start with Ok true => [ps] | _ => [] end /\
  teleport_ends (self w')
  = teleport_ends (self w) ++ match is_end with Ok true => [pe] | _ => [] end.
Proof.
  unfold mbind, lift, ret, append_start, append_end.
  destruct is_start as [[|]|e1], is_end as [[|]|e2]; cbn;
    intros H; inversion H; subst; cbn; rewrite ?app_nil_r; auto.
Qed.

Lemma scan_track_full (b : Box) (end_time : float) (t : Track.t) (w w' : world) :
  scan_track b end_time t w = (w', Ok tt) ->
  teleport_starts (self w') = teleport_starts (self w) ++ teleport_start b t /\
  teleport_ends (self w') = teleport_ends (self w) ++ teleport_end b end_time t.
Proof.
  unfold scan_track, teleport_start, teleport_end.
  destruct (Track.positions t) as [|p0 ps] eqn:Hps.
  - cbn. discriminate.
  - unfold mbind at 1 2. cbn [Py.first_item lift].
    rewrite (last_item_last (p0 :: ps) p0) by discriminate.
    intros H.
    apply (record_points_full (start_test b p0)
             (end_test b end_time (last (p0 :: ps) p0))) in H.
    destruct H as [H1 H2]. rewrite H1, H2. split; [|reflexivity].
    unfold start_test. destruct (ne_zero _); reflexivity.
Qed.

Lemma scan_tracks_full (b : Box) (end_time : float) (tracks : list Track.t)
  (w w' : world) :
  for_each tracks (scan_track b end_time) w = (w', Ok tt) ->
  teleport_starts (self w')
  = teleport_starts (self w) ++ flat_map (teleport_start b) tracks /\
  teleport_ends (self w')
  = teleport_ends (self w) ++ flat_map (teleport_end b end_time) tracks.
Proof.
  revert w. induction tracks as [|t l IH]; intros w; cbn.
  - intros [= <-]. now rewrite !app_nil_r.
  - unfold mbind.
    destruct (scan_track b end_time t w) as [w1 [[]|e]] eqn:E1; [|discriminate].
    intros H. apply scan_track_full in E1 as [A1 B1].
    apply IH in H as [A2 B2]. rewrite A2, B2, A1, B1, <- !app_assoc. now split.
Qed.

(** The last observation times of the tracks. *)
Definition end_times (tracks : list Track.t) : result (list (option float)) :=
  mapM (fun t => p <- Py.last_item (Track.positions t) ;; Ok (Position.time_s p)) tracks.

(** A run that gets past the loop, taken apart. *)
Lemma analyse_teleportations_run (margin : float) (w w' : world) (res : result unit) :
  analyse_teleportations margin w = (w', res) ->
  res = Ok tt \/ res = Raise AttributeError ->
  exists b times end_time,
    imaging_volume margin (tracks (self w)) = Ok b /\
    end_times (tracks (self w)) = Ok times /\
    Py.max_opt times = Ok (Some end_time) /\
    teleport_starts (self w')
    = teleport_starts (self w) ++ flat_map (teleport_start b) (tracks (self w)) /\
    teleport_ends (self w')
    = teleport_ends (self w) ++ flat_map (teleport_end b end_time) (tracks (self w)) /\
    teleport_tracks (self w')
    = unique_tracks
        (map TeleportPoint.track (teleport_starts (self w') ++ teleport_ends (self w')))
        [] /\
    (res = Ok tt <-> teleport_starts (self w') ++ teleport_ends (self w') = []).
Proof.
  unfold analyse_teleportations, end_times, mbind, print, get_self, lift.
  cbn [self stdout].
  destruct (imaging_volume margin (tracks (self w))) as [b|e] eqn:Hvol.
  2:{ intros [= _ <-] [H|H]; [discriminate|]. injection H as ->.
      apply imaging_volume_raises in Hvol. discriminate. }
  cbn [self stdout].
  destruct (mapM _ (tracks (self w))) as [times|e] eqn:Hends.
  2:{ intros [= _ <-] [H|H]; [discriminate|]. injection H as ->.
      apply end_times_raise in Hends. discriminate. }
  destruct (Py.max_opt times) as [[end_time|]|e] eqn:Hmax.
  3:{ intros [= _ <-] [H|H]; [discriminate|]. injection H as ->.
      apply max_opt_raises in Hmax as [?|?]; discriminate. }
  2:{ intros [= _ <-] [H|H]; discriminate. }
  cbn [self stdout].
  match goal with
  | |- context [for_each ?l ?body ?w0] =>
      destruct (for_each l body w0) as [w1 [[]|e]] eqn:Hloop
  end.
  2:{ intros [= _ <-] [H|H]; [discriminate|]. injection H as ->.
      apply scan_tracks_run in Hloop as [?|?]; discriminate. }
  apply scan_tracks_full in Hloop. cbn [self] in Hloop. destruct Hloop as [Hs He].
  unfold set_teleport_tracks. cbn [self stdout tracks teleport_tracks teleport_starts
    teleport_ends].
  destruct (tracks (self w1)) eqn:Htr.
  - intros [= <- <-] [H|H]; discriminate.
  - cbn [self stdout].
    destruct (teleport_starts (self w1) ++ teleport_ends (self w1)) eqn:Hpts;
      intros [= <- <-] _; exists b, times, end_time;
      cbn [self teleport_starts teleport_ends teleport_tracks];
      rewrite Hpts; repeat split; auto; discriminate.
Qed.

(** ** Ending normally *)

Lemma returned_run_is_empty (margin : float) (w w' : world) :
  analyse_teleportations margin w = (w', Ok tt) ->
  teleport_starts (self w') = [] /\ teleport_ends (self w') = [] /\
  teleport_tracks (self w') = [].
Proof.
  intros Hrun.
  destruct (analyse_teleportations_run margin w w' _ Hrun (or_introl eq_refl))
    as (b & times & end_time & _ & _ & _ & _ & _ & Htr & Hiff).
  pose proof (proj1 Hiff eq_refl) as Hnil. rewrite Htr, Hnil.
  apply app_eq_nil in Hnil as [-> ->]. repeat split.
Qed.

(** X2. A run of the teleport analysis that returns has recorded nothing:
    the three teleport lists are empty after it. A run that ends with
    [AttributeError] has recorded at least one point. *)
Theorem analyse_teleportations_returns_without_points (margin : float) (w w' : world)
  (res : result unit) :
  analyse_teleportations margin w = (w', res) ->
  (res = Ok tt ->
   teleport_starts (self w') = [] /\ teleport_ends (self w') = [] /\
   teleport_tracks (self w') = []) /\
  (res = Raise AttributeError ->
   teleport_starts (self w') ++ teleport_ends (self w') <> []).
Proof.
  intros Hrun. split; intros Hres.
  - subst res. now apply (returned_run_is_empty margin w).
  - destruct (analyse_teleportations_run margin w w' res Hrun (or_intror Hres))
      as (b & times & end_time & _ & _ & _ & _ & _ & _ & Hiff).
    intros Hnil. apply Hiff in Hnil. congruence.
Qed.

(** Two tracks that are seen from time 0 to the last time. *)
Definition quiet : world :=
  mkWorld (Profile.mk [crossing; central]
             [2.0; 2.0] [8.0; 8.0] [5.0; 5.0] [0.625; 0.625]
             [1.0; 1.0] [0.5; 0.5] [0.3; 0.3] [0.2; 0.2] [0.1; 0.1] [0.1; 0.1]
             [] [] []) [].

Lemma quiet_built : Sample.profile [crossing; central] = Ok (self quiet).
Proof. reflexivity. Qed.

Lemma analyse_teleportations_returns_without_points_witness :
  (exists w', analyse_teleportations 0.1 quiet = (w', Ok tt) /\
              teleport_starts (self w') = [] /\ teleport_ends (self w') = [] /\
              teleport_tracks (self w') = []) /\
  (exists w', analyse_teleportations 0.1 three_tracks = (w', Raise AttributeError) /\
              teleport_starts (self w') ++ teleport_ends (self w') <> []).
Proof.
  split.
  - assert (H : exists w', analyse_teleportations 0.1 quiet = (w', Ok tt))
      by (eexists; vm_compute; reflexivity).
    destruct H as [w' H]. exists w'. split; [exact H|].
    exact (proj1 (analyse_teleportations_returns_without_points 0.1 quiet w' _ H) eq_refl).
  - assert (H : exists w', analyse_teleportations 0.1 three_tracks
                           = (w', Raise AttributeError))
      by (eexists; vm_compute; reflexivity).
    destruct H as [w' H]. exists w'. split; [exact H|].
    exact (proj2 (analyse_teleportations_returns_without_points 0.1 three_tracks w' _ H)
             eq_refl).
Defined.

(** X3. A profile that the constructor returns holds no teleport point and
    no teleport track, with or without [analyse_teleports]: the analysis
    that finds a point makes the constructor raise. *)
Theorem init_holds_no_teleport (tracks : list Track.t) (td : option float)
  (tobs : option Z) (tdur tac : option float) (analyse_teleports : bool)
  (out : list event) (self : Profile.t) :
  init tracks td tobs tdur tac analyse_teleports = (out, Ok self) ->
  teleport_starts self = [] /\ teleport_ends self = [] /\ teleport_tracks self = [].
Proof.
  unfold init. destruct analyse_teleports.
  - destruct (analyse_teleportations _ _) as [w [[]|e]] eqn:E; [|discriminate].
    intros [= _ <-].
    now apply (returned_run_is_empty _ _ _ E).
  - intros [= _ <-]. repeat split.
Qed.

End TeleportOutcome.

Section TeleportOutcomeExamples.
Import Profile.
Local Open Scope float_scope.
Local Open Scope py_scope.

Lemma analyse_teleportations_only_appends_witness :
  exists w' s,
    analyse_teleportations 0.1 three_tracks = (w', Raise AttributeError) /\
    summary (self w') = summary (self three_tracks) /\
    teleport_starts (self w') = teleport_starts (self three_tracks) ++ s.
Proof.
  assert (H : exists w', analyse_teleportations 0.1 three_tracks
                         = (w', Raise AttributeError))
    by (eexists; vm_compute; reflexivity).
  destruct H as [w' H].
  destruct (analyse_teleportations_only_appends 0.1 three_tracks w' _ H)
    as (Hsum & [s Hs] & _).
  exists w', s. split; [exact H|]. split; [exact Hsum|exact Hs].
Defined.

Lemma init_holds_no_teleport_witness :
  exists out self,
    init [crossing; central] None None None None true = (out, Ok self) /\
    teleport_starts self = [] /\ teleport_ends self = [] /\ teleport_tracks self = [].
Proof.
  assert (H : exists out self,
             init [crossing; central] None None None None true = (out, Ok self))
    by (eexists _, _; vm_compute; reflexivity).
  destruct H as (out & self & H). exists out, self. split; [exact H|].
  exact (init_holds_no_teleport _ _ _ _ _ _ _ _ H).
Defined.

(** ** The end points *)

Lemma mapM_in {A B : Type} (f : A -> result B) (l : list A) (l' : list B) (a : A) :
  mapM f l = Ok l' -> In a l -> exists b, f a = Ok b /\ In b l'.
Proof.
  revert l'. induction l as [|x l IH]; intros l'; cbn; [contradiction|].
  destruct (f x) as [bx|] eqn:Ex; [|discriminate].
  destruct (mapM f l) as [bs|]; [|discriminate].
  intros [= <-] [<-|Hin].
  - exists bx. split; [assumption|now left].
  - destruct (IH bs eq_refl Hin) as (b & Hb & Hinb). exists b. split; [assumption|now right].
Qed.

(** The loop of [max] from a time that is [nan] keeps it. *)
Lemma max_opt_loop_nan (items : list (option float)) (c m : float) :
  Py.max_opt_loop items (Some c) = Ok (Some m) -> is_nan c = true -> m = c.
Proof.
  revert c. induction items as [|[v|] items IH]; intros c; cbn.
  - now intros [= <-].
  - intros H Hc.
    assert (E : (c <? v) = false).
    { destruct (c <? v) eqn:E; [|reflexivity].
      apply FloatOrder.ltb_nonnan in E as [E _]. congruence. }
    rewrite E in H. now apply IH.
  - discriminate.
Qed.

(** From a time that is not [nan], the result is at least that time and is
    below no time of the list. *)
Lemma max_opt_loop_bound (items : list (option float)) (c m : float) :
  Py.max_opt_loop items (Some c) = Ok (Some m) -> is_nan c = false ->
  (c <=? m) = true /\ forall v, In (Some v) items -> (m <? v) = false.
Proof.
  revert c. induction items as [|[v|] items IH]; intros c; cbn.
  - intros [= <-] Hc. split; [|contradiction].
    rewrite FloatOrder.leb_ltb_eqb, (FloatOrder.eqb_refl c Hc). apply orb_true_r.
  - intros H Hc. destruct (c <? v) eqn:E.
    + assert (Hv : is_nan v = false) by (apply FloatOrder.ltb_nonnan in E; tauto).
      destruct (IH v H Hv) as [Hle Hall]. split.
      * rewrite FloatOrder.leb_ltb_eqb.
        now rewrite (FloatOrder.ltb_leb_trans c v m E Hle).
      * intros u [[= <-]|Hin]; [now apply FloatOrder.leb_not_gtb|now apply Hall].
    + destruct (IH c H Hc) as [Hle Hall]. split; [assumption|].
      intros u [[= <-]|Hin]; [|now apply Hall].
      destruct (m <? v) eqn:Emv; [|reflexivity].
      rewrite (FloatOrder.leb_ltb_trans c m v Hle Emv) in E. discriminate.
  - discriminate.
Qed.

Lemma max_opt_bound (l : list (option float)) (m v : float) :
  Py.max_opt l = Ok (Some m) -> In (Some v) l -> (m <? v) = false.
Proof.
  destruct l as [|[c|] items]; cbn; [discriminate| |].
  - intros H Hin. destruct (is_nan c) eqn:Hc.
    + apply max_opt_loop_nan in H; [|assumption]. subst m.
      destruct (c <? v) eqn:E; [|reflexivity].
      apply FloatOrder.ltb_nonnan in E as [E _]. congruence.
    + destruct (max_opt_loop_bound items c m H Hc) as [Hle Hall].
      destruct Hin as [Heq|Hin]; [|now apply Hall].
      injection Heq as <-. now apply FloatOrder.leb_not_gtb.
  - destruct items as [|[?|] ?]; cbn; discriminate.
Qed.

Lemma in_teleport_end (b : Box) (end_time : float) (t : Track.t) (tp : TeleportPoint.t) :
  In tp (teleport_end b end_time t) <->
  exists p_end,
    Py.last_item (Track.positions t) = Ok p_end /\
    end_test b end_time p_end = Ok true /\
    tp = end_point t p_end.
Proof.
  unfold teleport_end.
  destruct (Track.positions t) as [|p0 ps] eqn:Hps.
  - cbn. split; [contradiction|]. intros (? & H & _). discriminate.
  - rewrite (last_item_last (p0 :: ps) p0) by discriminate. cbv zeta.
    generalize (last (p0 :: ps) p0). intros q. split.
    + destruct (end_test b end_time q) as [[|]|] eqn:Htest; try contradiction.
      intros [<-|[]]. now exists q.
    + intros (p_end & [= <-] & Htest & ->). rewrite Htest. now left.
Qed.

Lemma end_test_true (b : Box) (end_time : float) (p_end : Position.t) :
  end_test b end_time p_end = Ok true ->
  exists v, Position.time_s p_end = Some v /\ (v <? end_time) = true /\
            inside_imaging_volume b (Position.x p_end) (Position.y p_end)
              (Position.z p_end) = Ok true.
Proof.
  unfold end_test, Py.lt, bind. destruct (Position.time_s p_end) as [v|]; [|discriminate].
  destruct (v <? end_time) eqn:E; [|discriminate]. intros H. now exists v.
Qed.

(** The end-type point of a track, if any: the last position has a time
    below [end_time], its three coordinates are there and none is below or
    above the bounds of its axis. *)
Definition end_points (b : Box) (end_time : float) (t : Track.t)
  : list TeleportPoint.t :=
  match Track.positions t with
  | [] => []
  | p0 :: _ =>
      let p_end := last (Track.positions t) p0 in
      match Position.time_s p_end, Position.x p_end, Position.y p_end,
            Position.z p_end with
      | Some v, Some x, Some y, Some z =>
          if (v <? end_time) && passes_box b x y z
          then [TeleportPoint.mk (Position.x p_end) (Position.y p_end)
                                 (Position.z p_end) (Position.time_s p_end) t false]
          else []
      | _, _, _, _ => []
      end
  end.

Lemma end_test_explicit (b : Box) (end_time : float) (p_end : Position.t) :
  end_test b end_time p_end = Ok true <->
  exists v x y z,
    Position.time_s p_end = Some v /\ (v <? end_time) = true /\
    Position.x p_end = Some x /\ Position.y p_end = Some y /\
    Position.z p_end = Some z /\ passes_box b x y z = true.
Proof.
  split.
  - intros H. apply end_test_true in H as (v & Hv & Hlt & Hin).
    apply inside_imaging_volume_true in Hin as (x & y & z & Hx & Hy & Hz & Hp).
    now exists v, x, y, z.
  - intros (v & x & y & z & Hv & Hlt & Hx & Hy & Hz & Hp).
    unfold end_test, Py.lt, bind. rewrite Hv, Hlt.
    apply inside_imaging_volume_true. now exists x, y, z.
Qed.

Lemma teleport_end_explicit (b : Box) (end_time : float) (t : Track.t) :
  teleport_end b end_time t = end_points b end_time t.
Proof.
  unfold teleport_end, end_points, end_point.
  destruct (Track.positions t) as [|p0 ps]; [reflexivity|]. cbv zeta.
  generalize (last (p0 :: ps) p0). intros q.
  destruct (end_test b end_time q) as [[|]|e] eqn:Htest.
  - apply end_test_explicit in Htest
      as (v & x & y & z & Hv & Hlt & Hx & Hy & Hz & Hp).
    now rewrite Hv, Hx, Hy, Hz, Hlt, Hp.
  - destruct (Position.time_s q) as [v|] eqn:Hv, (Position.x q) as [x|] eqn:Hx,
      (Position.y q) as [y|] eqn:Hy, (Position.z q) as [z|] eqn:Hz; try reflexivity.
    destruct ((v <? end_time) && passes_box b x y z) eqn:E; [|reflexivity].
    apply andb_true_iff in E as [Hlt Hp].
    assert (H : end_test b end_time q = Ok true)
      by (apply end_test_explicit; now exists v, x, y, z).
    congruence.
  - destruct (Position.time_s q) as [v|] eqn:Hv, (Position.x q) as [x|] eqn:Hx,
      (Position.y q) as [y|] eqn:Hy, (Position.z q) as [z|] eqn:Hz; try reflexivity.
    destruct ((v <? end_time) && passes_box b x y z) eqn:E; [|reflexivity].
    apply andb_true_iff in E as [Hlt Hp].
    assert (H : end_test b end_time q = Ok true)
      by (apply end_test_explicit; now exists v, x, y, z).
    congruence.
Qed.

(** X4. After a run of the teleport analysis that gets past its loop, the
    end-type points added to [teleport_ends] are, track by track in the
    order of the tracks, those of the tracks whose last position has a time
    below the end time and three coordinates none of which is below the
    lower or above the upper bound of its axis in the sub-volume, the one
    that lies [margin] inside the range of the coordinates collected. When
    the bounds and the coordinates are numbers the test is that of lying
    inside the sub-volume, bounds included; a coordinate that is [nan]
    passes. Each point carries the time and the three coordinates of the
    last position of its track. The end time is the result of [max] on
    the last times: it is below the last time of no track. *)
Theorem teleport_ends_recorded (margin : float) (w w' : world) (res : result unit) :
  analyse_teleportations margin w = (w', res) ->
  res = Ok tt \/ res = Raise AttributeError ->
  exists b times end_time,
    shrunk_box margin (coordinates Position.x (tracks (self w)))
               (coordinates Position.y (tracks (self w)))
               (coordinates Position.z (tracks (self w))) b /\
    end_times (tracks (self w)) = Ok times /\
    Py.max_opt times = Ok (Some end_time) /\
    teleport_ends (self w')
    = teleport_ends (self w) ++ flat_map (end_points b end_time) (tracks (self w)) /\
    (forall t p_end,
       In t (tracks (self w)) ->
       Py.last_item (Track.positions t) = Ok p_end ->
       ((exists tp, In tp (flat_map (end_points b end_time) (tracks (self w))) /\
                    TeleportPoint.track tp = t /\ TeleportPoint.start tp = false) <->
        (exists v x y z,
           Position.time_s p_end = Some v /\ (v <? end_time) = true /\
           Position.x p_end = Some x /\ Position.y p_end = Some y /\
           Position.z p_end = Some z /\ passes_box b x y z = true))) /\
    (forall x y z,
       bounds_are_numbers b ->
       is_nan x = false -> is_nan y = false -> is_nan z = false ->
       passes_box b x y z = within b x y z) /\
    (forall lo hi v, is_nan v = true -> not_outside lo hi v = true) /\
    (forall tp, In tp (flat_map (end_points b end_time) (tracks (self w))) ->
       exists p_end v,
         Py.last_item (Track.positions (TeleportPoint.track tp)) = Ok p_end /\
         TeleportPoint.x tp = Position.x p_end /\
         TeleportPoint.y tp = Position.y p_end /\
         TeleportPoint.z tp = Position.z p_end /\
         TeleportPoint.time tp = Some v /\ Position.time_s p_end = Some v /\
         (v <? end_time) = true /\
         TeleportPoint.start tp = false) /\
    (forall t p_end v,
       In t (tracks (self w)) ->
       Py.last_item (Track.positions t) = Ok p_end ->
       Position.time_s p_end = Some v ->
       (end_time <? v) = false).
Proof.
  intros Hrun Hres.
  destruct (analyse_teleportations_run margin w w' res Hrun Hres)
    as (b & times & end_time & Hb & Htimes & Hmax & _ & Hends & _ & _).
  exists b, times, end_time.
  assert (Hpoints : flat_map (end_points b end_time) (tracks (self w))
                    = flat_map (teleport_end b end_time) (tracks (self w)))
    by (apply flat_map_ext; intros t; symmetry; apply teleport_end_explicit).
  rewrite Hpoints.
  split; [now apply imaging_volume_shrunk|]. split; [exact Htimes|].
  split; [exact Hmax|]. split; [exact Hends|].
  split; [|split; [|split; [|split]]].
  - intros t p_end Ht Hlast. rewrite <- end_test_explicit. split.
    + intros (tp & Hin & Htrack & _).
      apply in_flat_map in Hin as (t' & _ & Hin).
      apply in_teleport_end in Hin as (p & Hp & Htest & ->).
      cbn in Htrack. subst t'. rewrite Hlast in Hp. now injection Hp as <-.
    + intros Htest. exists (end_point t p_end). split; [|split; reflexivity].
      apply in_flat_map. exists t. split; [exact Ht|].
      apply in_teleport_end. now exists p_end.
  - intros x y z. apply passes_box_numbers.
  - apply not_outside_nan.
  - intros tp Hin. apply in_flat_map in Hin as (t & _ & Hin).
    apply in_teleport_end in Hin as (p_end & Hlast & Htest & ->).
    apply end_test_true in Htest as (v & Hv & Hlt & _).
    exists p_end, v. cbn. repeat split; assumption.
  - intros t p_end v Ht Hlast Hv.
    apply (max_opt_bound times end_time v Hmax).
    unfold end_times in Htimes.
    destruct (mapM_in _ _ _ t Htimes Ht) as (o & Ho & Hin).
    rewrite Hlast in Ho. cbn in Ho. injection Ho as <-. now rewrite <- Hv.
Qed.

(** A track that is lost at time 30 in the middle of the volume, beside one
    that crosses the volume from time 0 to time 60. *)
Definition vanishing : Track.t :=
  Sample.track 5 [Sample.position 40.0 40.0 40.0 0.0;
                  Sample.position 45.0 50.0 55.0 30.0] [].

Definition with_vanishing : world :=
  mkWorld (Profile.mk [crossing; vanishing]
             [2.0; 2.0] [8.0; 8.0] [5.0; 5.0] [0.625; 0.625]
             [1.0; 1.0] [0.5; 0.5] [0.3; 0.3] [0.2; 0.2] [0.1; 0.1] [0.1; 0.1]
             [] [] []) [].

Lemma with_vanishing_built :
  Sample.profile [crossing; vanishing] = Ok (self with_vanishing).
Proof. reflexivity. Qed.

Lemma teleport_ends_recorded_witness :
  exists w' b,
    analyse_teleportations 0.1 with_vanishing = (w', Raise AttributeError) /\
    imaging_volume 0.1 (tracks (self with_vanishing)) = Ok b /\
    teleport_ends (self w')
    = [TeleportPoint.mk (Some 45.0) (Some 50.0) (Some 55.0) (Some 30.0) vanishing false] /\
    teleport_starts (self w') = [] /\
    within b 45.0 50.0 55.0 = true /\ within b 100.0 100.0 100.0 = false.
Proof.
  assert (H : exists w', analyse_teleportations 0.1 with_vanishing
                         = (w', Raise AttributeError))
    by (eexists; vm_compute; reflexivity).
  destruct H as [w' H].
  destruct (teleport_ends_recorded 0.1 with_vanishing w' _ H (or_intror eq_refl))
    as (b & times & end_time & Hb & Htimes & Hmax & Hends & _).
  assert (Hvol : exists b0, imaging_volume 0.1 (tracks (self with_vanishing)) = Ok b0)
    by (eexists; vm_compute; reflexivity).
  destruct Hvol as [b0 Hvol].
  assert (Eb : b = b0).
  { apply imaging_volume_shrunk in Hvol.
    destruct Hb as (a1 & a2 & a3 & a4 & a5 & a6 & A1 & A2 & A3 & A4 & A5 & A6 & ->).
    destruct Hvol as (c1 & c2 & c3 & c4 & c5 & c6 & C1 & C2 & C3 & C4 & C5 & C6 & ->).
    congruence. }
  subst b0. exists w', b. split; [exact H|]. split; [exact Hvol|].
  vm_compute in Hvol. injection Hvol as <-.
  vm_compute in Htimes. injection Htimes as <-.
  vm_compute in Hmax. injection Hmax as <-.
  split; [rewrite Hends; vm_compute; reflexivity|].
  split; [|split; reflexivity].
  pose proof H as H'. vm_compute in H'. injection H' as <-. reflexivity.
Defined.

End TeleportOutcomeExamples.

Section TeleportTracks.
Import Profile.
Local Open Scope float_scope.
Local Open Scope py_scope.

Lemma existsb_oid (n : nat) (seen : list nat) :
  existsb (Nat.eqb n) seen = true <-> In n seen.
Proof.
  rewrite existsb_exists. split.
  - intros (m & Hin & E). apply Nat.eqb_eq in E. now subst.
  - intros Hin. exists n. split; [assumption|apply Nat.eqb_refl].
Qed.

Lemma unique_tracks_in (l : list Track.t) (seen : list nat) (t : Track.t) :
  In t (unique_tracks l seen) -> In t l /\ ~ In (Track.oid t) seen.
Proof.
  revert seen. induction l as [|a l IH]; intros seen; cbn; [contradiction|].
  destruct (existsb (Nat.eqb (Track.oid a)) seen) eqn:E.
  - intros H. apply IH in H as [H1 H2]. split; [now right|assumption].
  - intros [<-|H].
    + split; [now left|]. intros Hin. apply existsb_oid in Hin. congruence.
    + apply IH in H as [H1 H2]. split; [now right|]. intros Hin. apply H2. now right.
Qed.

Lemma unique_tracks_nodup (l : list Track.t) (seen : list nat) :
  NoDup (map Track.oid (unique_tracks l seen)).
Proof.
  revert seen. induction l as [|a l IH]; intros seen; cbn; [constructor|].
  destruct (existsb (Nat.eqb (Track.oid a)) seen); [apply IH|].
  cbn. constructor; [|apply IH].
  intros Hin. apply in_map_iff in Hin as (t & Hoid & Hin).
  apply unique_tracks_in in Hin as [_ Hnot]. apply Hnot. left. congruence.
Qed.

Lemma unique_tracks_covers (l : list Track.t) (seen : list nat) (t : Track.t) :
  In t l ->
  In (Track.oid t) seen \/
  exists t', In t' (unique_tracks l seen) /\ Track.oid t' = Track.oid t.
Proof.
  revert seen. induction l as [|a l IH]; intros seen; cbn; [contradiction|].
  destruct (existsb (Nat.eqb (Track.oid a)) seen) eqn:E.
  - intros [<-|Hin]; [left; now apply existsb_oid|now apply IH].
  - intros [<-|Hin].
    + right. exists a. split; [now left|reflexivity].
    + destruct (IH (Track.oid a :: seen) Hin) as [[Heq|Hseen]|(t' & Hin' & Hoid)].
      * right. exists a. split; [now left|assumption].
      * now left.
      * right. exists t'. split; [now right|assumption].
Qed.

(** X5. After a run of the teleport analysis that gets past its loop,
    [teleport_tracks] is computed anew from the points that the two lists
    hold: no two of its tracks are the same object, each of them is the
    track of a start or end point, and the track of every point is among
    them. *)
Theorem teleport_tracks_are_the_tracks_of_points (margin : float) (w w' : world)
  (res : result unit) :
  analyse_teleportations margin w = (w', res) ->
  res = Ok tt \/ res = Raise AttributeError ->
  NoDup (map Track.oid (teleport_tracks (self w'))) /\
  (forall t, In t (teleport_tracks (self w')) ->
     exists tp, In tp (teleport_starts (self w') ++ teleport_ends (self w')) /\
                TeleportPoint.track tp = t) /\
  (forall tp, In tp (teleport_starts (self w') ++ teleport_ends (self w')) ->
     exists t, In t (teleport_tracks (self w')) /\
               Track.oid t = Track.oid (TeleportPoint.track tp)).
Proof.
  intros Hrun Hres.
  destruct (analyse_teleportations_run margin w w' res Hrun Hres)
    as (b & times & end_time & _ & _ & _ & _ & _ & Htr & _).
  rewrite Htr. split; [apply unique_tracks_nodup|]. split.
  - intros t Hin. apply unique_tracks_in in Hin as [Hin _].
    apply in_map_iff in Hin as (tp & <- & Hin). now exists tp.
  - intros tp Hin.
    destruct (unique_tracks_covers
                (map TeleportPoint.track
                     (teleport_starts (self w') ++ teleport_ends (self w')))
                [] (TeleportPoint.track tp) (in_map _ _ _ Hin)) as [[]|H].
    exact H.
Qed.

(** A track that is first seen at time 30 and lost at time 45, both in the
    middle of the volume: it has a start point and an end point. *)
Definition passing : Track.t :=
  Sample.track 6 [Sample.position 40.0 40.0 40.0 30.0;
                  Sample.position 45.0 50.0 55.0 45.0] [].

Definition with_passing : world :=
  mkWorld (Profile.mk [crossing; passing]
             [2.0; 2.0] [8.0; 8.0] [5.0; 5.0] [0.625; 0.625]
             [1.0; 1.0] [0.5; 0.5] [0.3; 0.3] [0.2; 0.2] [0.1; 0.1] [0.1; 0.1]
             [] [] []) [].

Lemma with_passing_built : Sample.profile [crossing; passing] = Ok (self with_passing).
Proof. reflexivity. Qed.

Lemma teleport_tracks_are_the_tracks_of_points_witness :
  exists w',
    analyse_teleportations 0.1 with_passing = (w', Raise AttributeError) /\
    List.length (teleport_starts (self w') ++ teleport_ends (self w')) = 2%nat /\
    teleport_tracks (self w') = [passing] /\
    NoDup (map Track.oid (teleport_tracks (self w'))).
Proof.
  assert (H : exists w', analyse_teleportations 0.1 with_passing
                         = (w', Raise AttributeError))
    by (eexists; vm_compute; reflexivity).
  destruct H as [w' H]. exists w'. split; [exact H|].
  pose proof (proj1 (teleport_tracks_are_the_tracks_of_points 0.1 with_passing w' _ H
                       (or_intror eq_refl))) as Hnodup.
  pose proof H as H'. vm_compute in H'. injection H' as <-.
  split; [reflexivity|]. split; [reflexivity|exact Hnodup].
Defined.

(** ** Running the analysis again *)

(** X6. The analysis appends to the lists that it finds: of two runs in a
    row that get past the loop, the second appends to the lists of start and
    of end points the same points as the first, so that each point is held
    twice. *)
Theorem analyse_teleportations_twice (margin : float) (w w1 w2 : world)
  (res1 res2 : result unit) :
  analyse_teleportations margin w = (w1, res1) ->
  res1 = Ok tt \/ res1 = Raise AttributeError ->
  analyse_teleportations margin w1 = (w2, res2) ->
  res2 = Ok tt \/ res2 = Raise AttributeError ->
  exists s e,
    teleport_starts (self w1) = teleport_starts (self w) ++ s /\
    teleport_starts (self w2) = teleport_starts (self w) ++ s ++ s /\
    teleport_ends (self w1) = teleport_ends (self w) ++ e /\
    teleport_ends (self w2) = teleport_ends (self w) ++ e ++ e.
Proof.
  intros Hrun1 Hres1 Hrun2 Hres2.
  pose proof (analyse_teleportations_tracks margin w w1 res1 Hrun1) as Htracks.
  destruct (analyse_teleportations_run margin w w1 res1 Hrun1 Hres1)
    as (b & times & end_time & Hb & Htimes & Hmax & Hs1 & He1 & _).
  destruct (analyse_teleportations_run margin w1 w2 res2 Hrun2 Hres2)
    as (b' & times' & end_time' & Hb' & Htimes' & Hmax' & Hs2 & He2 & _).
  rewrite Htracks in Hb', Htimes', Hs2, He2.
  rewrite Hb in Hb'. injection Hb' as <-.
  rewrite Htimes in Htimes'. injection Htimes' as <-.
  rewrite Hmax in Hmax'. injection Hmax' as <-.
  exists (flat_map (teleport_start b) (tracks (self w))),
         (flat_map (teleport_end b end_time) (tracks (self w))).
  split; [exact Hs1|]. split; [now rewrite Hs2, Hs1, app_assoc|].
  split; [exact He1|]. now rewrite He2, He1, app_assoc.
Qed.

Lemma analyse_teleportations_twice_witness :
  exists w1 w2,
    analyse_teleportations 0.1 with_passing = (w1, Raise AttributeError) /\
    analyse_teleportations 0.1 w1 = (w2, Raise AttributeError) /\
    List.length (teleport_starts (self w1)) = 1%nat /\
    List.length (teleport_starts (self w2)) = 2%nat /\
    List.length (teleport_ends (self w2)) = 2%nat /\
    teleport_tracks (self w2) = [passing].
Proof.
  assert (H1 : exists w1, analyse_teleportations 0.1 with_passing
                          = (w1, Raise AttributeError))
    by (eexists; vm_compute; reflexivity).
  destruct H1 as [w1 H1].
  assert (H2 : exists w2, analyse_teleportations 0.1 w1 = (w2, Raise AttributeError)).
  { pose proof H1 as H'. vm_compute in H'. injection H' as <-.
    eexists; vm_compute; reflexivity. }
  destruct H2 as [w2 H2]. exists w1, w2. split; [exact H1|]. split; [exact H2|].
  destruct (analyse_teleportations_twice 0.1 with_passing w1 w2 _ _ H1
              (or_intror eq_refl) H2 (or_intror eq_refl))
    as (s & e & Hs1 & Hs2 & He1 & He2).
  pose proof H1 as H1'. vm_compute in H1'. injection H1' as <-.
  pose proof H2 as H2'. vm_compute in H2'. injection H2' as <-.
  repeat split.
Defined.

(** ** No coordinate to estimate the volume from *)

(** X7. When on one of the three axes no position of any track has a
    coordinate that is true as a Python value (no track at all, or only
    coordinates that are [None] or zero), the analysis raises [ValueError]
    from [max] of an empty list, having printed its first line and changed
    nothing in the profile. *)
Theorem analyse_teleportations_without_coordinates (margin : float) (w : world) :
  coordinates Position.x (tracks (self w)) = [] \/
  coordinates Position.y (tracks (self w)) = [] \/
  coordinates Position.z (tracks (self w)) = [] ->
  analyse_teleportations margin w
  = (mkWorld (self w) (stdout w ++ [Analysing_teleports]), Raise ValueError).
Proof.
  intros H.
  assert (Hvol : imaging_volume margin (tracks (self w)) = Raise ValueError).
  { unfold imaging_volume.
    destruct (coordinates Position.x (tracks (self w))) as [|x xs] eqn:Ex;
      [reflexivity|].
    destruct (coordinates Position.y (tracks (self w))) as [|y ys] eqn:Ey;
      [reflexivity|].
    destruct (coordinates Position.z (tracks (self w))) as [|z zs] eqn:Ez;
      [reflexivity|].
    destruct H as [H|[H|H]]; discriminate. }
  unfold analyse_teleportations, mbind, print, get_self, lift. cbn [self stdout].
  now rewrite Hvol.
Qed.

(** A track that never leaves the plane [x = 0]. *)
Definition on_the_wall : Track.t :=
  Sample.track 7 [Sample.position 0.0 10.0 10.0 0.0;
                  Sample.position 0.0 20.0 30.0 30.0] [].

Lemma analyse_teleportations_without_coordinates_witness :
  analyse_teleportations 0.1
    (mkWorld (Profile.mk [] [] [] [] [] [] [] [] [] [] [] [] [] []) [])
  = (mkWorld (Profile.mk [] [] [] [] [] [] [] [] [] [] [] [] [] [])
             [Analysing_teleports], Raise ValueError) /\
  (exists self,
      Sample.profile [on_the_wall] = Ok self /\
      analyse_teleportations 0.1 (mkWorld self [])
      = (mkWorld self [Analysing_teleports], Raise ValueError)).
Proof.
  split.
  - exact (analyse_teleportations_without_coordinates 0.1
             (mkWorld (Profile.mk [] [] [] [] [] [] [] [] [] [] [] [] [] []) [])
             (or_introl eq_refl)).
  - eexists. split; [reflexivity|].
    refine (analyse_teleportations_without_coordinates 0.1 (mkWorld _ []) _).
    left. reflexivity.
Defined.

End TeleportTracks.

(* ================================================================= *)
(** * The constructor: summaries, thresholds, messages *)

Section ConstructedProfiles.
Import Profile.
Local Open Scope float_scope.
Local Open Scope py_scope.

Lemma analyse_teleportations_grows (margin : float) :
  respects grows (analyse_teleportations margin).
Proof.
  unfold analyse_teleportations.
  repeat first
    [ apply (respects_for_each grows grows_refl grows_trans); intros ?
    | apply grows_scan_track
    | apply (respects_mbind grows grows_trans); [|intros ?]
    | apply (respects_lift grows grows_refl) | apply (respects_ret grows grows_refl)
    | apply grows_print
    | apply (respects_get_self grows grows_refl) | apply grows_set_teleport_tracks
    | match goal with |- respects _ (match ?l with _ => _ end) => destruct l end ].
Qed.

(** The object that [__init__] sets up over the tracks it has retained, from
    [self.duration = ...] to [self.teleport_starts = []]. *)
Definition summarised (kept : list Track.t) : Profile.t :=
  let nonnan (f : Track.t -> float) :=
    map f (filter (fun t => negb (Math.isnan (f t))) kept) in
  mk kept
     (map Track.duration_min kept) (map Track.length kept)
     (map Track.displacement kept) (map Track.meander kept)
     (nonnan Track.median_speed) (nonnan Track.irq_speed)
     (nonnan Track.median_turn) (nonnan Track.irq_turn)
     (nonnan Track.median_roll) (nonnan Track.irq_roll)
     [] [] [].

Lemma init_plain (input : list Track.t) (td : option float) (tobs : option Z)
  (tdur tac : option float) :
  exists out,
    init input td tobs tdur tac false
    = (out, Ok (summarised (pipeline td tobs tdur tac input))).
Proof.
  unfold init. cbv zeta. rewrite trim_all_retains. eexists. reflexivity.
Qed.

(** Whatever the flag, a profile that the constructor returns is the one
    set up over the retained tracks. *)
Lemma init_returns (input : list Track.t) (td : option float) (tobs : option Z)
  (tdur tac : option float) (analyse_teleports : bool) (out : list event) (s : Profile.t) :
  init input td tobs tdur tac analyse_teleports = (out, Ok s) ->
  s = summarised (pipeline td tobs tdur tac input).
Proof.
  destruct (init_plain input td tobs tdur tac) as [out0 H0].
  destruct analyse_teleports; [|intros H; rewrite H in H0; now injection H0].
  unfold init in *. cbv zeta in *. injection H0 as _ HS. rewrite HS.
  destruct (analyse_teleportations _ _) as [w [[]|e]] eqn:E; [|discriminate].
  intros [= _ <-].
  destruct (analyse_teleportations_grows _ _ _ _ E) as (Hsum & _).
  destruct (returned_run_is_empty _ _ _ E) as (Hs & He & Ht).
  cbn [self] in Hsum. unfold summary, summarised in *.
  destruct (self w). cbn in Hsum, Hs, He, Ht |- *.
  injection Hsum. intros. subst. reflexivity.
Qed.

Lemma filter_all {A : Type} (p : A -> bool) (l : list A) :
  (forall a, In a l -> p a = true) -> filter p l = l.
Proof.
  induction l as [|a l IH]; intros H; cbn; [reflexivity|].
  rewrite (H a (or_introl eq_refl)), IH; [reflexivity|].
  intros b Hb. apply H. now right.
Qed.

Lemma map_filter_nonnan {A : Type} (f : A -> float) (l : list A) :
  map f (filter (fun t => negb (Math.isnan (f t))) l)
  = filter (fun v => negb (is_nan v)) (map f l).
Proof.
  induction l as [|a l IH]; cbn; [reflexivity|].
  unfold Math.isnan in *. destruct (is_nan (f a)); cbn; [|f_equal]; apply IH.
Qed.

Lemma pipeline_has_medians (td : option float) (tobs : option Z) (tdur tac : option float)
  (input : list Track.t) (t : Track.t) :
  In t (pipeline td tobs tdur tac input) ->
  is_nan (Track.median_speed t) = false /\ is_nan (Track.median_turn t) = false.
Proof.
  unfold pipeline. cbv zeta. rewrite !filter_In, !negb_true_iff. tauto.
Qed.

(** X8. In a profile that the constructor returns, the lists [duration],
    [length], [displacement], [meander], [medSpd] and [medTurn] have one
    entry per track of [tracks], in the order of the tracks: the tests
    against [nan] under which [medSpd] and [medTurn] are collected remove
    nothing, every retained track having a median speed and a median turn.
    The four other lists hold the values that are not [nan], and may be
    shorter. *)
Theorem init_summaries_follow_tracks (input : list Track.t) (td : option float)
  (tobs : option Z) (tdur tac : option float) (analyse_teleports : bool)
  (out : list event) (s : Profile.t) :
  init input td tobs tdur tac analyse_teleports = (out, Ok s) ->
  duration s = map Track.duration_min (tracks s) /\
  Profile.length s = map Track.length (tracks s) /\
  displacement s = map Track.displacement (tracks s) /\
  meander s = map Track.meander (tracks s) /\
  medSpd s = map Track.median_speed (tracks s) /\
  medTurn s = map Track.median_turn (tracks s) /\
  Forall (fun v => is_nan v = false) (medSpd s ++ medTurn s) /\
  irqSpd s = filter (fun v => negb (is_nan v)) (map Track.irq_speed (tracks s)) /\
  irqTurn s = filter (fun v => negb (is_nan v)) (map Track.irq_turn (tracks s)) /\
  medRoll s = filter (fun v => negb (is_nan v)) (map Track.median_roll (tracks s)) /\
  irqRoll s = filter (fun v => negb (is_nan v)) (map Track.irq_roll (tracks s)).
Proof.
  intros H. apply init_returns in H. subst s.
  set (kept := pipeline td tobs tdur tac input).
  assert (Hmed : forall t, In t kept ->
            is_nan (Track.median_speed t) = false /\ is_nan (Track.median_turn t) = false)
    by (intros t; apply pipeline_has_medians).
  assert (Hspd : filter (fun t => negb (Math.isnan (Track.median_speed t))) kept = kept).
  { apply filter_all. intros t Ht. unfold Math.isnan.
    now rewrite (proj1 (Hmed t Ht)). }
  assert (Hturn : filter (fun t => negb (Math.isnan (Track.median_turn t))) kept = kept).
  { apply filter_all. intros t Ht. unfold Math.isnan.
    now rewrite (proj2 (Hmed t Ht)). }
  pose proof (fun f => map_filter_nonnan f kept) as Hnonnan.
  unfold summarised. cbn [tracks duration Profile.length displacement meander medSpd
    medTurn irqSpd irqTurn medRoll irqRoll].
  rewrite Hspd, Hturn, !Hnonnan. repeat split.
  apply Forall_app. split; apply Forall_forall; intros v Hv;
    apply in_map_iff in Hv as (t & <- & Ht); now apply Hmed.
Qed.

(** A track without a median speed, and one whose speeds have no
    interquartile range. *)
Definition no_median : Track.t :=
  Track.mk 8 [Sample.position 1.0 1.0 1.0 0.0; Sample.position 1.0 1.0 1.0 30.0;
              Sample.position 1.0 1.0 1.0 60.0] 0.0 1.0 0.0 0.0 false 1.0
           nan nan nan nan nan nan [].

Definition no_irq : Track.t :=
  Track.mk 9 [Sample.position 1.0 1.0 1.0 0.0; Sample.position 2.0 1.0 1.0 30.0]
           1.0 0.5 1.0 1.0 false 0.0 2.0 nan 0.3 nan nan nan [].

Lemma init_summaries_follow_tracks_witness :
  exists out s,
    init [no_median; no_irq; Sample.ballistic] None None None None false = (out, Ok s) /\
    tracks s = [no_irq; Sample.ballistic] /\
    medSpd s = map Track.median_speed (tracks s) /\
    medSpd s = [2.0; 1.0] /\ irqSpd s = [0.5].
Proof.
  assert (H : exists out s,
             init [no_median; no_irq; Sample.ballistic] None None None None false
             = (out, Ok s))
    by (eexists _, _; vm_compute; reflexivity).
  destruct H as (out & s & H). exists out, s. split; [exact H|].
  pose proof (init_summaries_follow_tracks _ _ _ _ _ _ _ _ H)
    as (_ & _ & _ & _ & Hspd & _).
  pose proof H as H'. vm_compute in H'. injection H' as _ <-.
  split; [reflexivity|]. split; [exact Hspd|]. split; reflexivity.
Defined.

(** ** Thresholds that are tightened *)

(** [strict] asks at least what [loose] asks: it is the same threshold, or
    a threshold that is in force where there was none, or one that is in
    force and that [le] puts after the former. *)
Inductive tightens {T : Type} (in_force : T -> bool) (le : T -> T -> bool)
  : option T -> option T -> Prop :=
| tightens_same thr : tightens in_force le thr thr
| tightens_set s : in_force s = true -> tightens in_force le None (Some s)
| tightens_moved l s :
    in_force s = true -> le l s = true -> tightens in_force le (Some l) (Some s).

(** The test of the six steps on one track. *)
Definition keeps (td : option float) (tobs : option Z) (tdur tac : option float)
  (t : Track.t) : bool :=
  passes_displacement td t && passes_observations tobs t && passes_duration tdur t
  && passes_arrest_coefficient tac t
  && negb (is_nan (Track.median_speed t)) && negb (is_nan (Track.median_turn t)).

Lemma filter_andb {A : Type} (p q : A -> bool) (l : list A) :
  filter q (filter p l) = filter (fun a => p a && q a) l.
Proof.
  induction l as [|a l IH]; cbn; [reflexivity|].
  destruct (p a); cbn; [destruct (q a)|]; now rewrite IH.
Qed.

Lemma pipeline_keeps (td : option float) (tobs : option Z) (tdur tac : option float)
  (input : list Track.t) :
  pipeline td tobs tdur tac input = filter (keeps td tobs tdur tac) input.
Proof.
  unfold pipeline, keeps. cbv zeta. rewrite !filter_andb.
  apply filter_ext. intros t. now rewrite !andb_assoc.
Qed.

Lemma tightened_displacement (loose strict : option float) (t : Track.t) :
  tightens Py.truthy PrimFloat.leb loose strict ->
  passes_displacement strict t = true -> passes_displacement loose t = true.
Proof.
  intros [thr|s Hs|l s Hs Hle]; cbn; [tauto|reflexivity|].
  rewrite Hs. intros H. destruct (Py.truthy l); [|reflexivity].
  exact (FloatOrder.leb_trans _ _ _ Hle H).
Qed.

Lemma tightened_duration (loose strict : option float) (t : Track.t) :
  tightens Py.truthy PrimFloat.leb loose strict ->
  passes_duration strict t = true -> passes_duration loose t = true.
Proof.
  intros [thr|s Hs|l s Hs Hle]; cbn; [tauto|reflexivity|].
  rewrite Hs. intros H. destruct (Py.truthy l); [|reflexivity].
  exact (FloatOrder.leb_trans _ _ _ Hle H).
Qed.

Lemma tightened_observations (loose strict : option Z) (t : Track.t) :
  tightens (fun n => negb (n =? 0)%Z) Z.leb loose strict ->
  passes_observations strict t = true -> passes_observations loose t = true.
Proof.
  intros [thr|s Hs|l s Hs Hle]; cbn; [tauto|reflexivity|].
  apply negb_true_iff in Hs. rewrite Hs. intros H.
  destruct (l =? 0)%Z; [reflexivity|]. lia.
Qed.

Lemma tightened_arrest_coefficient (loose strict : option float) (t : Track.t) :
  tightens Py.truthy (fun l s => s <=? l) loose strict ->
  passes_arrest_coefficient strict t = true -> passes_arrest_coefficient loose t = true.
Proof.
  intros [thr|s Hs|l s Hs Hle]; cbn; [tauto|reflexivity|].
  rewrite Hs. intros H. destruct (Py.truthy l); [|reflexivity].
  exact (FloatOrder.ltb_leb_trans _ _ _ H Hle).
Qed.

(** X9. Thresholds can be tightened in steps. When each threshold of a
    second construction is the same as in a first one, or newly in force,
    or in force and moved to the stricter side (up for the displacement, the
    observations and the duration, down for the arrest coefficient), then
    constructing from the tracks of the first profile with the second
    thresholds returns the very profile that the second thresholds return
    from the input; its tracks are among those of the first profile. With
    the same thresholds twice: constructing again from the tracks of a
    profile returns that profile. *)
Theorem init_tightened_in_steps (input : list Track.t)
  (td1 td2 : option float) (tobs1 tobs2 : option Z) (tdur1 tdur2 tac1 tac2 : option float)
  (flag1 flag2 : bool) (out1 out2 : list event) (s1 s2 : Profile.t) :
  tightens Py.truthy PrimFloat.leb td1 td2 ->
  tightens (fun n => negb (n =? 0)%Z) Z.leb tobs1 tobs2 ->
  tightens Py.truthy PrimFloat.leb tdur1 tdur2 ->
  tightens Py.truthy (fun l s => s <=? l) tac1 tac2 ->
  init input td1 tobs1 tdur1 tac1 flag1 = (out1, Ok s1) ->
  init input td2 tobs2 tdur2 tac2 flag2 = (out2, Ok s2) ->
  (exists out, init (tracks s1) td2 tobs2 tdur2 tac2 false = (out, Ok s2)) /\
  incl (tracks s2) (tracks s1).
Proof.
  intros Hd Ho Hu Ha H1 H2.
  apply init_returns in H1, H2. subst s1 s2.
  cbn [summarised tracks].
  assert (Hstep : pipeline td2 tobs2 tdur2 tac2 (pipeline td1 tobs1 tdur1 tac1 input)
                  = pipeline td2 tobs2 tdur2 tac2 input).
  { rewrite !pipeline_keeps, filter_andb. apply filter_ext. intros t.
    destruct (keeps td2 tobs2 tdur2 tac2 t) eqn:E2; [|apply andb_false_r].
    rewrite andb_true_r. unfold keeps in *.
    repeat (apply andb_true_iff in E2 as [E2 ?]).
    rewrite (tightened_displacement _ _ t Hd E2),
      (tightened_observations tobs1 tobs2 t Ho),
      (tightened_duration tdur1 tdur2 t Hu),
      (tightened_arrest_coefficient tac1 tac2 t Ha) by assumption.
    cbn [andb]. now apply andb_true_iff. }
  split.
  - destruct (init_plain (pipeline td1 tobs1 tdur1 tac1 input) td2 tobs2 tdur2 tac2)
      as [out Hout].
    exists out. now rewrite Hout, Hstep.
  - rewrite <- Hstep, pipeline_keeps. intros t Ht. now apply filter_In in Ht.
Qed.

(** Tracks of displacement 1, 5 and 9. *)
Definition displaced (oid : nat) (d : float) : Track.t :=
  Track.mk oid [Sample.position 1.0 1.0 1.0 0.0; Sample.position 2.0 1.0 1.0 30.0]
           d 2.0 8.0 0.625 false 0.1 1.0 0.5 0.3 0.2 0.1 0.1 [].

Lemma init_tightened_in_steps_witness :
  exists out1 s1 out2 s2 out,
    init [displaced 1 1.0; displaced 2 5.0; displaced 3 9.0] (Some 2.0) None None None false
    = (out1, Ok s1) /\
    init [displaced 1 1.0; displaced 2 5.0; displaced 3 9.0] (Some 6.0) None None None false
    = (out2, Ok s2) /\
    tracks s1 = [displaced 2 5.0; displaced 3 9.0] /\
    tracks s2 = [displaced 3 9.0] /\
    init (tracks s1) (Some 6.0) None None None false = (out, Ok s2).
Proof.
  assert (H1 : exists out1 s1,
             init [displaced 1 1.0; displaced 2 5.0; displaced 3 9.0]
                  (Some 2.0) None None None false = (out1, Ok s1))
    by (eexists _, _; vm_compute; reflexivity).
  assert (H2 : exists out2 s2,
             init [displaced 1 1.0; displaced 2 5.0; displaced 3 9.0]
                  (Some 6.0) None None None false = (out2, Ok s2))
    by (eexists _, _; vm_compute; reflexivity).
  destruct H1 as (out1 & s1 & H1). destruct H2 as (out2 & s2 & H2).
  destruct (init_tightened_in_steps _ (Some 2.0) (Some 6.0) None None None None None None
              false false out1 out2 s1 s2
              (tightens_moved _ _ 2.0 6.0 eq_refl eq_refl)
              (tightens_same _ _ None) (tightens_same _ _ None) (tightens_same _ _ None)
              H1 H2) as [[out Hout] _].
  exists out1, s1, out2, s2, out.
  split; [exact H1|]. split; [exact H2|].
  pose proof H1 as H1'. vm_compute in H1'. injection H1' as _ <-.
  pose proof H2 as H2'. vm_compute in H2'. injection H2' as _ <-.
  split; [reflexivity|]. split; [reflexivity|exact Hout].
Defined.

(** ** What the messages add up to *)

(** The number of tracks that a message reports as excluded. *)
Definition exclusion (e : event) : option nat :=
  match e with
  | Excluded_displacement x _ _ => Some x
  | Excluded_observations x _ => Some x
  | Excluded_duration x _ => Some x
  | Excluded_arrest_coefficient x _ => Some x
  | _ => None
  end.

Lemma filter_length_bound {A : Type} (p : A -> bool) (l : list A) :
  (List.length (filter p l) <= List.length l)%nat.
Proof. induction l as [|a l IH]; cbn; [lia|]. destruct (p a); cbn; lia. Qed.

Lemma filter_length_split {A : Type} (p : A -> bool) (l : list A) :
  (List.length (filter (fun a => negb (p a)) l) + List.length (filter p l)
   = List.length l)%nat.
Proof. induction l as [|a l IH]; cbn; [lia|]. destruct (p a); cbn; lia. Qed.

(** The state of the four blocks accounts for [n] tracks: the messages
    printed so far are exclusion messages, and their counts and the tracks
    still there add up to [n]. *)
Definition accounts (n : nat) (st : list Track.t * list event) : Prop :=
  exists counts,
    map exclusion (snd st) = map Some counts /\
    (list_sum counts + List.length (fst st) = n)%nat.

Lemma trim_accounts (keep : Track.t -> bool) (report : nat -> nat -> event) (n : nat)
  (st : list Track.t * list event) :
  (forall x y, exclusion (report x y) = Some x) ->
  accounts n st -> accounts n (trim keep report st).
Proof.
  intros Hrep (counts & Hmsgs & Hsum). unfold trim, accounts. cbn [fst snd].
  exists (counts ++ [(List.length (fst st) - List.length (filter keep (fst st)))%nat]).
  split.
  - rewrite !map_app, Hmsgs. cbn [map]. now rewrite Hrep.
  - rewrite list_sum_app. cbn [list_sum fold_right].
    pose proof (filter_length_bound keep (fst st)). lia.
Qed.

Lemma trim_all_accounts (input : list Track.t) (td : option float) (tobs : option Z)
  (tdur tac : option float) :
  accounts (List.length input) (trim_all input td tobs tdur tac).
Proof.
  unfold trim_all. cbv zeta.
  destruct td as [d|]; [destruct (Py.truthy d)|];
  (destruct tobs as [o|]; [destruct (negb (o =? 0)%Z)|]);
  (destruct tdur as [u|]; [destruct (Py.truthy u)|]);
  (destruct tac as [a|]; [destruct (Py.truthy a)|]);
  repeat (apply trim_accounts; [intros; reflexivity|]);
  now exists [].
Qed.

(** X10. The messages of the constructor account for the input, whether it
    returns or raises: the output starts with the exclusion messages of the
    thresholds in force, followed by the message on broken tracks, whose
    total is the number of tracks retained; the counts of the exclusion
    messages, the number of tracks that pass the thresholds and have no
    median speed or no median turn (dropped without a message), and that
    total add up to the number of tracks handed in. Without the teleport
    analysis nothing else is printed. *)
Theorem init_messages_account (input : list Track.t) (td : option float)
  (tobs : option Z) (tdur tac : option float) (analyse_teleports : bool)
  (out : list event) (res : result Profile.t) :
  init input td tobs tdur tac analyse_teleports = (out, res) ->
  let kept := pipeline td tobs tdur tac input in
  let unmeasured :=
    filter (fun t => is_nan (Track.median_speed t) || is_nan (Track.median_turn t))
           (fst (trim_all input td tobs tdur tac)) in
  exists msgs counts percent rest,
    out = msgs ++ Broken_tracks (List.length (filter Track.broken kept))
                                (List.length kept) percent :: rest /\
    map exclusion msgs = map Some counts /\
    (list_sum counts + List.length unmeasured + List.length kept
     = List.length input)%nat /\
    (analyse_teleports = false -> rest = []).
Proof.
  intros H kept unmeasured.
  destruct (trim_all_accounts input td tobs tdur tac) as (counts & Hmsgs & Hsum).
  assert (Hkept : filter (fun t => negb (is_nan (Track.median_speed t)
                                         || is_nan (Track.median_turn t)))
                         (fst (trim_all input td tobs tdur tac)) = kept).
  { unfold kept, pipeline. cbv zeta.
    rewrite trim_all_retains,
      (filter_andb (fun t => negb (is_nan (Track.median_speed t)))
                   (fun t => negb (is_nan (Track.median_turn t)))).
    apply filter_ext. intros t. now rewrite negb_orb. }
  assert (Hlen : (list_sum counts + List.length unmeasured + List.length kept
                  = List.length input)%nat).
  { rewrite <- Hsum, <- Hkept. unfold unmeasured.
    pose proof (filter_length_split
                  (fun t => negb (is_nan (Track.median_speed t)
                                  || is_nan (Track.median_turn t)))
                  (fst (trim_all input td tobs tdur tac))) as Hsplit.
    rewrite (filter_ext _ (fun t => is_nan (Track.median_speed t)
                                    || is_nan (Track.median_turn t))) in Hsplit
      by (intros t; apply negb_involutive).
    lia. }
  unfold init in H. cbv zeta in H.
  change (filter has_median_turn (filter has_median_speed
            (fst (trim_all input td tobs tdur tac))))
    with (filter (fun t => negb (is_nan (Track.median_turn t)))
            (filter (fun t => negb (is_nan (Track.median_speed t)))
               (fst (trim_all input td tobs tdur tac)))) in H.
  rewrite trim_all_retains in H. fold (pipeline td tobs tdur tac input) in H.
  fold kept in H.
  exists (snd (trim_all input td tobs tdur tac)), counts.
  destruct analyse_teleports.
  - destruct (analyse_teleportations _ _) as [w r] eqn:E.
    destruct (analyse_teleportations_grows _ _ _ _ E) as (_ & _ & _ & [o Ho]).
    cbn [stdout] in Ho.
    eexists _, o. split; [|split; [exact Hmsgs|split; [exact Hlen|discriminate]]].
    destruct r; injection H as <- _; rewrite Ho, <- app_assoc; reflexivity.
  - injection H as <- _.
    eexists _, []. split; [reflexivity|]. split; [exact Hmsgs|]. split; [exact Hlen|].
    reflexivity.
Qed.

Lemma init_messages_account_witness :
  exists out s msgs counts percent,
    init [short_track; no_median; long_track] None (Some 3%Z) None None false
    = (out, Ok s) /\
    out = msgs ++ [Broken_tracks 0 1 percent] /\
    map exclusion msgs = map Some counts /\
    (list_sum counts + 1 + 1 = 3)%nat /\
    out = [Excluded_observations 1 3; Broken_tracks 0 1 0.0] /\
    tracks s = [long_track].
Proof.
  assert (H : exists out s,
             init [short_track; no_median; long_track] None (Some 3%Z) None None false
             = (out, Ok s))
    by (eexists _, _; vm_compute; reflexivity).
  destruct H as (out & s & H).
  destruct (init_messages_account _ _ _ _ _ _ _ _ H)
    as (msgs & counts & percent & rest & Hout & Hmsgs & Hlen & Hrest).
  exists out, s, msgs, counts, percent. split; [exact H|].
  rewrite (Hrest eq_refl) in Hout.
  split; [exact Hout|]. split; [exact Hmsgs|]. split; [exact Hlen|].
  pose proof H as H'. vm_compute in H'. injection H' as <- <-.
  split; reflexivity.
Defined.

End ConstructedProfiles.

(* ================================================================= *)
(** * [calculate_msd]: the results it returns *)

Section MsdResults.
Import Profile.
Context {lib : Numerics}.
Local Open Scope float_scope.
Local Open Scope py_scope.

Lemma mapM_length {A B : Type} (f : A -> result B) (l : list A) (l' : list B) :
  mapM f l = Ok l' -> List.length l' = List.length l.
Proof.
  revert l'. induction l as [|a l IH]; intros l'; cbn.
  - now intros [= <-].
  - destruct (f a); [|discriminate]. destruct (mapM f l) as [bs|]; [|discriminate].
    intros [= <-]. cbn. now rewrite (IH bs).
Qed.

Lemma power_law_fit_shape (entries : list (float * float)) (cutoff : float)
  (res : MsdResult) :
  power_law_fit entries cutoff = Ok res ->
  msd res = entries /\ msd_time_cutoff res = cutoff /\
  linearTimes res = map fst entries /\
  List.length (linearPlot res) = List.length entries.
Proof.
  unfold power_law_fit, bind.
  destruct (linregress _ _) as [reg|]; [|discriminate].
  destruct (mapM _ _) as [linear|] eqn:E; [|discriminate].
  intros [= <-]. cbn. repeat split.
  apply mapM_length in E. now rewrite E, !length_map.
Qed.

Lemma leb_nonnan (x y : float) :
  (x <=? y) = true -> is_nan x = false /\ is_nan y = false.
Proof. intros. FloatOrder.float_order_solve. Qed.

Lemma loggable_number (v : float) : loggable v -> is_nan v = false -> (0 <? v) = true.
Proof. intros [H|H] Hn; congruence. Qed.

(** X11. A result that [calculate_msd] returns is the sentinel or a fit:
    in a fit, ['msd'] is not empty, ['linearTimes'] are its delta-t,
    ['linearPlot'] has one value per entry, and every delta-t and every MSD
    of ['msd'] is positive or [nan]. *)
Theorem calculate_msd_result_shape (profiles : option (list Profile.t))
  (given : option (list (float * float))) (max_dt : option float) (method : string)
  (res : MsdResult) :
  calculate_msd profiles given max_dt method = Ok res ->
  res = sentinel \/
  (msd res <> [] /\
   linearTimes res = map fst (msd res) /\
   List.length (linearPlot res) = List.length (msd res) /\
   Forall (fun tup => loggable (fst tup) /\ loggable (snd tup)) (msd res)).
Proof.
  intros H.
  apply calculate_msd_ok in H as (entries & cutoff & _ & [[Hfit Hres]|[_ ->]]);
    [right|now left].
  apply power_law_fit_shape in Hres as (-> & _ & -> & ->).
  apply can_fit_true in Hfit as (Hne & Ht & Hm).
  split; [intros ->; now apply Hne|]. split; [reflexivity|]. split; [reflexivity|].
  rewrite Forall_forall in Ht, Hm |- *. intros tup Hin. split.
  - apply Ht. now apply in_map.
  - apply Hm. now apply in_map.
Qed.

Lemma select_msd_finite (profiles : option (list Profile.t))
  (given : option (list (float * float))) (X : float) (method : string)
  (entries : list (float * float)) (cutoff : float) :
  (X =? infinity) = false ->
  select_msd profiles given (Some X) method = Ok (entries, cutoff) ->
  cutoff = X /\ Forall (fun tup => (fst tup <=? X) = true) entries.
Proof.
  intros Hfin. unfold select_msd.
  destruct (match given with Some (tup :: rest) => Ok (tup :: rest) | _ => _ end)
    as [base|e]; cbn [bind]; [|discriminate].
  rewrite Hfin. cbn [negb]. intros [= <- <-]. split; [reflexivity|].
  apply Forall_forall. intros tup Hin. now apply filter_In in Hin.
Qed.

(** X12. With a cutoff [max_dt] that is not infinite, a result that is not
    the sentinel reports [max_dt] as its cutoff, and every delta-t of its
    ['msd'] is a number above zero and at most [max_dt]; [max_dt] is then
    itself above zero. So a cutoff that is zero, negative or [nan] gives the
    sentinel whatever the data. *)
Theorem calculate_msd_finite_cutoff (profiles : option (list Profile.t))
  (given : option (list (float * float))) (X : float) (method : string)
  (res : MsdResult) :
  (X =? infinity) = false ->
  calculate_msd profiles given (Some X) method = Ok res ->
  res = sentinel \/
  (msd_time_cutoff res = X /\ (0 <? X) = true /\
   Forall (fun tup => (0 <? fst tup) = true /\ (fst tup <=? X) = true) (msd res)).
Proof.
  intros Hfin H.
  apply calculate_msd_ok in H as (entries & cutoff & Hsel & [[Hfit Hres]|[_ ->]]);
    [right|now left].
  apply power_law_fit_shape in Hres as (-> & -> & _ & _).
  apply (select_msd_finite _ _ _ _ _ _ Hfin) in Hsel as [-> Hle].
  apply can_fit_true in Hfit as (Hne & Ht & _).
  assert (Hall : Forall (fun tup => (0 <? fst tup) = true /\ (fst tup <=? X) = true)
                        entries).
  { rewrite Forall_forall in Ht, Hle |- *. intros tup Hin.
    pose proof (Hle tup Hin) as Htup. split; [|assumption].
    apply loggable_number; [apply Ht; now apply in_map|].
    now apply leb_nonnan in Htup. }
  split; [reflexivity|]. split; [|assumption].
  destruct entries as [|tup rest]; [now contradiction Hne|].
  inversion Hall as [|? ? [Hpos Hmax] _]; subst.
  exact (FloatOrder.ltb_leb_trans _ _ _ Hpos Hmax).
Qed.

Lemma filter_idem {A : Type} (p : A -> bool) (l : list A) :
  filter p (filter p l) = filter p l.
Proof.
  rewrite filter_andb. apply filter_ext. intros a. apply andb_diag.
Qed.

(** The list and the cutoff that were selected are selected again when the
    list is handed in as [msd]. *)
Lemma select_msd_reuse (profiles profiles' : option (list Profile.t))
  (given : option (list (float * float))) (max_dt : option float)
  (method method' : string) (entries : list (float * float)) (cutoff : float) :
  select_msd profiles given max_dt method = Ok (entries, cutoff) ->
  entries <> [] ->
  select_msd profiles' (Some entries) max_dt method' = Ok (entries, cutoff).
Proof.
  unfold select_msd.
  destruct (match given with Some (tup :: rest) => Ok (tup :: rest) | _ => _ end)
    as [base|e]; cbn [bind]; [|discriminate].
  destruct max_dt as [X|].
  - destruct (negb (X =? infinity)) eqn:Hfin; intros [= <- <-] Hne.
    + destruct (filter _ base) as [|tup rest] eqn:E; [now contradiction Hne|].
      cbn [bind]. rewrite <- E, filter_idem. reflexivity.
    + destruct base as [|tup rest]; [now contradiction Hne|].
      reflexivity.
  - destruct (Py.last_item base) as [last|] eqn:El; cbn [bind]; [|discriminate].
    intros [= <- <-] Hne. destruct base as [|tup rest]; [now contradiction Hne|].
    cbn [bind]. now rewrite El.
Qed.

Lemma sentinel_again (profiles : option (list Profile.t)) (max_dt : option float)
  (method : string) :
  calculate_msd profiles (Some (msd sentinel)) max_dt method = Ok sentinel.
Proof.
  unfold calculate_msd, select_msd. cbn [msd sentinel bind].
  destruct max_dt as [X|]; [|reflexivity].
  destruct (negb (X =? infinity)); [|reflexivity].
  cbn [filter fst]. destruct (0.0 <=? X); reflexivity.
Qed.

(** X13. The list ['msd'] of a result can be handed back as the argument
    [msd]: with the same [max_dt], and whatever the profiles and the method
    of the second call, [calculate_msd] returns the same result again, be it
    a fit or the sentinel. *)
Theorem calculate_msd_reuse (profiles profiles' : option (list Profile.t))
  (given : option (list (float * float))) (max_dt : option float)
  (method method' : string) (res : MsdResult) :
  calculate_msd profiles given max_dt method = Ok res ->
  calculate_msd profiles' (Some (msd res)) max_dt method' = Ok res.
Proof.
  intros H.
  apply calculate_msd_ok in H as (entries & cutoff & Hsel & [[Hfit Hres]|[_ ->]]);
    [|apply sentinel_again].
  pose proof (power_law_fit_shape _ _ _ Hres) as (-> & _).
  assert (Hne : entries <> []).
  { apply can_fit_true in Hfit as (Hne & _). intros ->. now apply Hne. }
  rewrite (calculate_msd_unfold _ _ _ _ _ _
             (select_msd_reuse _ profiles' _ _ _ method' _ _ Hsel Hne)).
  now rewrite Hfit.
Qed.

(** ** The method that measures from time zero *)

(** A position that the loop appends, one with a time above zero, and that
    has no squared displacement. *)
Definition lacks_displacement (pos : Position.t) : bool :=
  match Position.time_s pos, Position.total_displacement_squared pos with
  | Some time_s, None => 0.0 <? time_s
  | _, _ => false
  end.

Definition some_lacks_displacement (profiles : list Profile.t) : bool :=
  existsb (fun t => existsb lacks_displacement (Track.positions t)) (all_tracks profiles).

(** What one position contributes: its squared displacement from the start
    of the track, under its time, when that time is above zero. *)
Definition sample_from_zero (pos : Position.t) : Dict.t (list float) :=
  match Position.time_s pos, Position.total_displacement_squared pos with
  | Some time_s, Some value => if 0.0 <? time_s then [(time_s, [value])] else []
  | _, _ => []
  end.

Definition samples_from_zero (profiles : list Profile.t) : Dict.t (list float) :=
  flat_map (fun t => flat_map sample_from_zero (Track.positions t)) (all_tracks profiles).

(** The squared displacements of the positions whose time is above zero and
    equal to [T], in the order of the tracks and of their positions. *)
Definition displacements_at_time (T : float) (profiles : list Profile.t) : list float :=
  flat_map (fun t =>
    flat_map (fun pos =>
      match Position.time_s pos, Position.total_displacement_squared pos with
      | Some time_s, Some value =>
          if (0.0 <? time_s) && (time_s =? T) then [value] else []
      | _, _ => []
      end) (Track.positions t)) (all_tracks profiles).

Lemma some_lacks_displacement_true (profiles : list Profile.t) :
  some_lacks_displacement profiles = true <->
  exists t pos v, In t (all_tracks profiles) /\ In pos (Track.positions t) /\
                  Position.time_s pos = Some v /\ (0.0 <? v) = true /\
                  Position.total_displacement_squared pos = None.
Proof.
  unfold some_lacks_displacement. rewrite existsb_exists. split.
  - intros (t & Ht & H). apply existsb_exists in H as (pos & Hpos & H).
    unfold lacks_displacement in H.
    destruct (Position.time_s pos) as [v|] eqn:Htime; [|discriminate].
    destruct (Position.total_displacement_squared pos) eqn:Hd; [discriminate|].
    now exists t, pos, v.
  - intros (t & pos & v & Ht & Hpos & Htime & Hv & Hd). exists t. split; [assumption|].
    apply existsb_exists. exists pos. split; [assumption|].
    unfold lacks_displacement. now rewrite Htime, Hd.
Qed.

Lemma positions_loop (positions : list Position.t) (d : Dict.t (list float)) :
  foldM (fun msd_dict pos =>
           match Position.time_s pos with
           | Some time_s =>
               if 0.0 <? time_s
               then match Position.total_displacement_squared pos with
                    | Some value => extend_at time_s [value] msd_dict
                    | None => Raise TypeError
                    end
               else Ok msd_dict
           | None => Ok msd_dict
           end) positions d
  = if existsb lacks_displacement positions then Raise TypeError
    else Ok (merge (flat_map sample_from_zero positions) d).
Proof.
  revert d. induction positions as [|pos l IH]; intros d;
    cbn [foldM flat_map existsb]; [reflexivity|].
  rewrite merge_app. unfold sample_from_zero at 2. unfold lacks_displacement at 1.
  destruct (Position.time_s pos) as [time_s|];
    [destruct (0.0 <? time_s);
     [destruct (Position.total_displacement_squared pos) as [value|]|]|];
    rewrite ?extend_at_upsert; cbn [bind orb];
    try reflexivity; try apply IH;
    destruct (Position.total_displacement_squared pos); apply IH.
Qed.

Lemma collate_from_zero_outcome (profiles : list Profile.t) :
  collate_from_zero profiles
  = if some_lacks_displacement profiles then Raise TypeError
    else Ok (merge (samples_from_zero profiles) []).
Proof.
  unfold collate_from_zero, samples_from_zero, some_lacks_displacement, all_tracks.
  generalize (@nil (float * list float)) as d.
  induction profiles as [|p profiles IH]; intros d; cbn [foldM flat_map]; [reflexivity|].
  assert (Htracks : forall ts d0,
            foldM (fun msd_dict t =>
                     foldM (fun msd_dict pos =>
                              match Position.time_s pos with
                              | Some time_s =>
                                  if 0.0 <? time_s
                                  then match Position.total_displacement_squared pos with
                                       | Some value => extend_at time_s [value] msd_dict
                                       | None => Raise TypeError
                                       end
                                  else Ok msd_dict
                              | None => Ok msd_dict
                              end) (Track.positions t) msd_dict) ts d0
            = if existsb (fun t => existsb lacks_displacement (Track.positions t)) ts
              then Raise TypeError
              else Ok (merge (flat_map (fun t => flat_map sample_from_zero
                                                   (Track.positions t)) ts) d0)).
  { induction ts as [|t ts IHt]; intros d0; cbn [foldM flat_map existsb]; [reflexivity|].
    rewrite positions_loop.
    destruct (existsb lacks_displacement (Track.positions t)); cbn [bind orb];
      [reflexivity|].
    now rewrite IHt, merge_app. }
  rewrite Htracks, existsb_app.
  destruct (existsb _ (tracks p)); cbn [bind orb]; [reflexivity|].
  now rewrite IH, flat_map_app, merge_app.
Qed.

Lemma sample_keys (profiles : list Profile.t) (k : float) :
  some_lacks_displacement profiles = false ->
  In k (Dict.keys (samples_from_zero profiles)) <->
  exists t pos, In t (all_tracks profiles) /\ In pos (Track.positions t) /\
                Position.time_s pos = Some k /\ (0.0 <? k) = true.
Proof.
  intros Hno. unfold samples_from_zero, Dict.keys. rewrite in_map_iff. split.
  - intros ([k' v] & <- & Hin). apply in_flat_map in Hin as (t & Ht & Hin).
    apply in_flat_map in Hin as (pos & Hpos & Hin). exists t, pos.
    unfold sample_from_zero in Hin.
    destruct (Position.time_s pos) as [time_s|]; [|contradiction].
    destruct (Position.total_displacement_squared pos) as [value|]; [|contradiction].
    destruct (0.0 <? time_s) eqn:E; [|contradiction].
    destruct Hin as [[= <- _]|[]]. now repeat split.
  - intros (t & pos & Ht & Hpos & Htime & Hk).
    destruct (Position.total_displacement_squared pos) as [value|] eqn:Hd.
    + exists (k, [value]). split; [reflexivity|].
      apply in_flat_map. exists t. split; [assumption|].
      apply in_flat_map. exists pos. split; [assumption|].
      unfold sample_from_zero. rewrite Htime, Hd, Hk. now left.
    + assert (H : some_lacks_displacement profiles = true)
        by (apply some_lacks_displacement_true; now exists t, pos, k).
      congruence.
Qed.

Lemma values_at_samples (T : float) (profiles : list Profile.t) :
  values_at T (samples_from_zero profiles) = displacements_at_time T profiles.
Proof.
  unfold samples_from_zero, displacements_at_time.
  induction (all_tracks profiles) as [|t ts IH]; cbn [flat_map]; [reflexivity|].
  rewrite values_at_app, IH. f_equal.
  induction (Track.positions t) as [|pos l IHl]; cbn [flat_map]; [reflexivity|].
  rewrite values_at_app, IHl. f_equal.
  unfold sample_from_zero, values_at.
  destruct (Position.time_s pos) as [time_s|]; [|reflexivity].
  destruct (Position.total_displacement_squared pos) as [value|]; [|reflexivity].
  destruct (0.0 <? time_s) eqn:E; [|reflexivity].
  cbn [flat_map fst snd andb]. rewrite app_nil_r.
  rewrite key_match_nonnan by (apply FloatOrder.ltb_nonnan in E; tauto).
  now destruct (time_s =? T).
Qed.

(** X14. With a method other than ['allT'], what the call does with the
    list that [calculate_msd] computes depends on the positions that have a
    time above zero. If one of them has [None] as its
    [total_displacement_squared], the call raises [TypeError]. If each of
    them has a value, the list is built without an exception: its times are
    strictly ascending and above zero; each time is paired with the mean of
    [total_displacement_squared] over the positions, of all the tracks of
    all the profiles in their order, whose time equals it; and the time of
    every position that is above zero is among them. Positions without a
    time, at time zero or at a time that is [nan] are left out, whatever
    their [total_displacement_squared]. *)
Theorem compute_msd_from_zero (profiles : list Profile.t) (method : string) :
  String.eqb method "allT" = false ->
  ((exists t pos v,
       In t (all_tracks profiles) /\ In pos (Track.positions t) /\
       Position.time_s pos = Some v /\ (0.0 <? v) = true /\
       Position.total_displacement_squared pos = None) ->
   compute_msd (Some profiles) method = Raise TypeError) /\
  ((forall t pos v,
       In t (all_tracks profiles) -> In pos (Track.positions t) ->
       Position.time_s pos = Some v -> (0.0 <? v) = true ->
       Position.total_displacement_squared pos <> None) ->
   exists entries,
     compute_msd (Some profiles) method = Ok entries /\
     ascending (map fst entries) /\
     Forall (fun tup => (0.0 <? fst tup) = true /\
                        snd tup = np_mean (displacements_at_time (fst tup) profiles))
            entries /\
     (forall t pos v,
         In t (all_tracks profiles) -> In pos (Track.positions t) ->
         Position.time_s pos = Some v -> (0.0 <? v) = true ->
         exists T, (T =? v) = true /\
                   In (T, np_mean (displacements_at_time T profiles)) entries)).
Proof.
  intros Hmethod. split.
  { intros Hlacks. apply some_lacks_displacement_true in Hlacks.
    unfold compute_msd. now rewrite Hmethod, collate_from_zero_outcome, Hlacks. }
  intros Hall.
  assert (Hno : some_lacks_displacement profiles = false).
  { destruct (some_lacks_displacement profiles) eqn:E; [|reflexivity].
    apply some_lacks_displacement_true in E as (t & pos & v & Ht & Hpos & Htime & Hv & Hd).
    now destruct (Hall t pos v Ht Hpos Htime Hv). }
  set (d := merge (samples_from_zero profiles) []).
  exists (map (fun T => (T, np_mean (displacements_at_time T profiles)))
              (Py.sorted (Dict.keys d))).
  assert (Hkeys : forall k, In k (Dict.keys d) -> (0.0 <? k) = true).
  { intros k Hk. apply keys_merge_in in Hk as [[]|Hk].
    apply (sample_keys _ _ Hno) in Hk as (_ & _ & _ & _ & _ & Hk). exact Hk. }
  assert (Hnan : Forall (fun k => is_nan k = false) (Dict.keys d)).
  { apply Forall_forall. intros k Hk. apply Hkeys in Hk.
    apply FloatOrder.ltb_nonnan in Hk. tauto. }
  split; [|split; [|split]].
  - unfold compute_msd. rewrite Hmethod, collate_from_zero_outcome, Hno. cbn [bind].
    fold d. rewrite mean_by_key_lookup. f_equal. apply map_ext. intros T.
    unfold d. rewrite lookup_merge, values_at_samples. reflexivity.
  - rewrite map_map. cbn [fst]. rewrite map_id.
    apply sorted_ascending; [assumption|].
    apply (FOP_impl (fun a b => Dict.key_match a b = false) _
                    (fun k => is_nan k = false)); [|assumption|].
    + intros a b Ha H. now rewrite key_match_nonnan in H.
    + apply (distinct_merge (samples_from_zero profiles) []). constructor.
  - apply Forall_forall. intros tup Hin.
    apply in_map_iff in Hin as (T & <- & HT). cbn [fst snd]. split; [|reflexivity].
    apply Hkeys. now apply sorted_in.
  - intros t pos v Ht Hpos Htime Hv.
    assert (Hmem : Dict.mem v d = true).
    { unfold d. rewrite mem_merge. cbn [Dict.mem existsb orb].
      assert (Hin : In v (Dict.keys (samples_from_zero profiles)))
        by (apply (sample_keys _ _ Hno); now exists t, pos).
      apply existsb_exists. apply in_map_iff in Hin as (e & <- & Hin). exists e.
      split; [assumption|apply key_match_refl]. }
    apply mem_true_iff in Hmem as (T & Hin & Hmatch).
    exists T. split.
    + rewrite Forall_forall in Hnan.
      now rewrite key_match_nonnan in Hmatch by (now apply Hnan).
    + apply in_map_iff. exists T. split; [reflexivity|now apply sorted_in].
Qed.

End MsdResults.

Section MsdResultsExamples.
Import Profile.
Local Open Scope float_scope.

Lemma calculate_msd_result_shape_witness :
  @calculate_msd Example.numerics (Some [ballistic_profile]) None (Some infinity)
                 "allT"%string = Ok ballistic_fit /\
  ballistic_fit <> sentinel /\
  linearTimes ballistic_fit = map fst (msd ballistic_fit) /\
  List.length (linearPlot ballistic_fit) = List.length (msd ballistic_fit).
Proof.
  split; [reflexivity|]. split; [discriminate|].
  destruct (@calculate_msd_result_shape Example.numerics (Some [ballistic_profile]) None
              (Some infinity) "allT"%string ballistic_fit eq_refl)
    as [H|(_ & Htimes & Hplot & _)]; [discriminate H|].
  split; [exact Htimes|exact Hplot].
Defined.

Lemma calculate_msd_finite_cutoff_witness :
  @calculate_msd Example.numerics (Some [ballistic_profile]) None (Some 1.0)
                 "allT"%string = Ok ballistic_fit_upto_1 /\
  msd_time_cutoff ballistic_fit_upto_1 = 1.0 /\
  Forall (fun tup => (0 <? fst tup) = true /\ (fst tup <=? 1.0) = true)
         (msd ballistic_fit_upto_1).
Proof.
  split; [reflexivity|].
  destruct (@calculate_msd_finite_cutoff Example.numerics (Some [ballistic_profile]) None
              1.0 "allT"%string ballistic_fit_upto_1 eq_refl eq_refl)
    as [H|(Hcut & _ & Hall)]; [discriminate H|].
  split; [exact Hcut|exact Hall].
Defined.

Lemma calculate_msd_reuse_witness :
  @calculate_msd Example.numerics (Some [ballistic_profile]) None (Some 1.0)
                 "allT"%string = Ok ballistic_fit_upto_1 /\
  @calculate_msd Example.numerics None (Some (msd ballistic_fit_upto_1)) (Some 1.0)
                 "fromZero"%string = Ok ballistic_fit_upto_1.
Proof.
  split; [reflexivity|].
  exact (@calculate_msd_reuse Example.numerics (Some [ballistic_profile]) None None
           (Some 1.0) "allT"%string "fromZero"%string ballistic_fit_upto_1 eq_refl).
Defined.

(** A track seen at times 0, 1 and 2, at squared distances 0, 1 and 4 from
    where it started, and one seen at times 0 and 2, at squared distance 16
    at the end. *)
Definition leaving : Track.t :=
  Sample.track 10
    [Position.mk (Some 1.0) (Some 5.0) (Some 5.0) (Some 0.0) None None None None (Some 0.0) true;
     Position.mk (Some 2.0) (Some 5.0) (Some 5.0) (Some 1.0) None None None None (Some 1.0) true;
     Position.mk (Some 3.0) (Some 5.0) (Some 5.0) (Some 2.0) None None None None (Some 4.0) true]
    [].

Definition striding : Track.t :=
  Sample.track 11
    [Position.mk (Some 1.0) (Some 5.0) (Some 5.0) (Some 0.0) None None None None (Some 0.0) true;
     Position.mk (Some 5.0) (Some 5.0) (Some 5.0) (Some 2.0) None None None None (Some 16.0) true]
    [].

Definition from_zero_profile : Profile.t :=
  Profile.mk [striding; leaving] [2.0; 2.0] [8.0; 8.0] [5.0; 5.0] [0.625; 0.625]
             [1.0; 1.0] [0.5; 0.5] [0.3; 0.3] [0.2; 0.2] [0.1; 0.1] [0.1; 0.1] [] [] [].

Lemma from_zero_profile_built :
  Sample.profile [striding; leaving] = Ok from_zero_profile.
Proof. reflexivity. Qed.

(** A track whose position at time 1 has no squared displacement, and one
    whose only position without one is at time 0. *)
Definition unmeasured : Track.t :=
  Sample.track 12
    [Position.mk (Some 1.0) (Some 5.0) (Some 5.0) (Some 0.0) None None None None (Some 0.0) true;
     Position.mk (Some 2.0) (Some 5.0) (Some 5.0) (Some 1.0) None None None None None true]
    [].

Definition unmeasured_at_zero : Track.t :=
  Sample.track 13
    [Position.mk (Some 1.0) (Some 5.0) (Some 5.0) (Some 0.0) None None None None None true;
     Position.mk (Some 2.0) (Some 5.0) (Some 5.0) (Some 1.0) None None None None (Some 9.0) true]
    [].

Lemma compute_msd_from_zero_witness :
  exists unmeasured_profile at_zero_profile,
    Sample.profile [leaving; unmeasured] = Ok unmeasured_profile /\
    @compute_msd Example.numerics (Some [unmeasured_profile]) "fromZero"%string
    = Raise TypeError /\
    @compute_msd Example.numerics (Some [from_zero_profile]) "fromZero"%string
    = Ok [(1.0, 1.0); (2.0, 10.0)] /\
    displacements_at_time 2.0 [from_zero_profile] = [16.0; 4.0] /\
    ascending (map fst [(1.0, 1.0); (2.0, 10.0)]) /\
    Sample.profile [unmeasured_at_zero] = Ok at_zero_profile /\
    @compute_msd Example.numerics (Some [at_zero_profile]) "fromZero"%string
    = Ok [(1.0, 9.0)].
Proof.
  eexists _, _. split; [reflexivity|].
  split.
  { apply (proj1 (@compute_msd_from_zero Example.numerics _ "fromZero"%string eq_refl)).
    exists unmeasured. eexists _, 1.0. split; [cbn; auto|].
    split; [right; left; reflexivity|]. now repeat split. }
  destruct (proj2 (@compute_msd_from_zero Example.numerics [from_zero_profile]
                     "fromZero"%string eq_refl))
    as (entries & Hcomp & Hasc & _).
  { intros t pos v Ht Hpos Htime Hv.
    cbn in Ht. destruct Ht as [<-|[<-|[]]];
      cbn in Hpos; repeat (destruct Hpos as [<-|Hpos]; [discriminate|]);
      destruct Hpos. }
  assert (Hval : @compute_msd Example.numerics (Some [from_zero_profile])
                   "fromZero"%string = Ok [(1.0, 1.0); (2.0, 10.0)])
    by reflexivity.
  split; [exact Hval|]. split; [reflexivity|].
  split; [|split; reflexivity].
  rewrite Hval in Hcomp. injection Hcomp as <-. exact Hasc.
Defined.

End MsdResultsExamples.

(* ================================================================= *)
(** * [calculate_msd_vs_max_dt] *)

Section SlopeVsCutoff.
Import Profile.
Context {lib : Numerics}.
Local Open Scope float_scope.
Local Open Scope py_scope.

(** [Profile.calculate_msd_vs_max_dt(profiles, upper_max_dt)]: the delta-t
    up to [upper_max_dt] of the MSD for an infinite cutoff, the first one
    left off, and for each of them the slope that [calculate_msd] returns
    with that delta-t as cutoff. *)
Definition calculate_msd_vs_max_dt (profiles : option (list Profile.t))
  (upper_max_dt : float) : result (list float * list float) :=
  msd_results <- calculate_msd profiles None (Some infinity) "allT" ;;
  let dts := map fst (filter (fun entry => fst entry <=? upper_max_dt)
                             (msd msd_results)) in
  let dts := tl dts in
  slopes <- mapM (fun max_dt =>
                    msd_results <- calculate_msd profiles None (Some max_dt) "allT" ;;
                    Ok (slope msd_results))
                 dts ;;
  Ok (dts, slopes).

Lemma mapM_Forall2 {A B : Type} (f : A -> result B) (l : list A) (l' : list B) :
  mapM f l = Ok l' -> Forall2 (fun a b => f a = Ok b) l l'.
Proof.
  revert l'. induction l as [|a l IH]; intros l'; cbn.
  - intros [= <-]. constructor.
  - destruct (f a) as [b|] eqn:E; [|discriminate].
    destruct (mapM f l) as [bs|]; [|discriminate].
    intros [= <-]. constructor; [assumption|now apply IH].
Qed.

Lemma Forall2_impl_in {A B : Type} (R S : A -> B -> Prop) (l : list A) (l' : list B) :
  (forall a b, In a l -> R a b -> S a b) -> Forall2 R l l' -> Forall2 S l l'.
Proof.
  intros H HR. induction HR as [|a b l l' Hab _ IH]; constructor.
  - apply H; [now left|assumption].
  - apply IH. intros a' b' Hin. apply H. now right.
Qed.

Lemma in_tl {A : Type} (a : A) (l : list A) : In a (tl l) -> In a l.
Proof. destruct l; [contradiction|]. now right. Qed.

(** A call that returns, taken apart. *)
Lemma calculate_msd_vs_max_dt_run (profiles : option (list Profile.t)) (upper : float)
  (dts slopes : list float) :
  calculate_msd_vs_max_dt profiles upper = Ok (dts, slopes) ->
  exists r,
    calculate_msd profiles None (Some infinity) "allT" = Ok r /\
    dts = tl (map fst (keep_upto upper (msd r))) /\
    Forall2 (fun dt s => exists r', calculate_msd profiles None (Some dt) "allT" = Ok r' /\
                                    slope r' = s) dts slopes.
Proof.
  unfold calculate_msd_vs_max_dt.
  destruct (calculate_msd profiles None (Some infinity) "allT") as [r|]; cbn [bind];
    [|discriminate].
  destruct (mapM _ _) as [sl|] eqn:Hm; cbn [bind]; [|discriminate].
  intros [= <- <-]. exists r. split; [reflexivity|]. split; [reflexivity|].
  apply mapM_Forall2 in Hm. revert Hm. apply Forall2_impl_in.
  intros dt s _. destruct (calculate_msd profiles None (Some dt) "allT") as [r'|];
    cbn [bind]; [|discriminate].
  intros [= <-]. now exists r'.
Qed.

Lemma keep_upto_sentinel (upper : float) :
  tl (map fst (keep_upto upper (msd sentinel))) = [].
Proof.
  unfold keep_upto. cbn [msd sentinel filter fst].
  destruct (0.0 <=? upper); reflexivity.
Qed.

(** X15. A call of [calculate_msd_vs_max_dt] that returns gives as many
    slopes as delta-t, and no delta-t above [upper_max_dt]: the delta-t are
    those of the MSD for an infinite cutoff that are at most
    [upper_max_dt], without the first of them, and each slope is the one
    that [calculate_msd] returns with the delta-t as [max_dt]. When the MSD
    for an infinite cutoff is the sentinel, both lists are empty. *)
Theorem calculate_msd_vs_max_dt_returns (profiles : option (list Profile.t))
  (upper : float) (dts slopes : list float) :
  calculate_msd_vs_max_dt profiles upper = Ok (dts, slopes) ->
  List.length slopes = List.length dts /\
  Forall (fun dt => (dt <=? upper) = true) dts /\
  exists r,
    calculate_msd profiles None (Some infinity) "allT" = Ok r /\
    dts = tl (map fst (keep_upto upper (msd r))) /\
    (r = sentinel -> dts = [] /\ slopes = []) /\
    Forall2 (fun dt s => exists r', calculate_msd profiles None (Some dt) "allT" = Ok r' /\
                                    slope r' = s) dts slopes.
Proof.
  intros H. apply calculate_msd_vs_max_dt_run in H as (r & Hr & Hdts & Hall).
  split; [symmetry; exact (Forall2_length Hall)|]. split.
  - apply Forall_forall. intros dt Hin. rewrite Hdts in Hin.
    apply in_tl, in_map_iff in Hin as (entry & <- & Hin).
    unfold keep_upto in Hin. now apply filter_In in Hin.
  - exists r. split; [exact Hr|]. split; [exact Hdts|]. split; [|exact Hall].
    intros ->. rewrite keep_upto_sentinel in Hdts. subst dts.
    split; [reflexivity|]. now inversion Hall.
Qed.

(** ** The regressions behind the slopes *)

Lemma min_loop_positive_intro (l : list float) (m : float) :
  (0 <? m) = true -> Forall loggable l -> (0 <? Py.min_loop l m) = true.
Proof.
  unfold Py.min_loop. revert m.
  induction l as [|x l IH]; intros m Hm Hl; cbn; [assumption|].
  inversion Hl as [|? ? Hx Hl']; subst. apply IH; [|assumption].
  destruct (x <? m) eqn:E; [|assumption].
  apply loggable_number; [assumption|]. apply FloatOrder.ltb_nonnan in E. tauto.
Qed.

Lemma can_fit_intro (t0 v0 : float) (times msds : list float) :
  (0 <? t0) = true -> (0 <? v0) = true ->
  Forall loggable times -> Forall loggable msds ->
  can_fit (t0 :: times) (v0 :: msds) = Ok true.
Proof.
  intros Ht0 Hv0 Ht Hm. unfold can_fit, Py.min. cbn [List.length Nat.ltb Nat.leb bind].
  rewrite (min_loop_positive_intro times t0 Ht0 Ht).
  now rewrite (min_loop_positive_intro msds v0 Hv0 Hm).
Qed.

Lemma can_fit_first (entries : list (float * float)) :
  can_fit (map fst entries) (map snd entries) = Ok true ->
  exists p0 rest,
    entries = p0 :: rest /\ (0 <? fst p0) = true /\ (0 <? snd p0) = true /\
    Forall loggable (map fst rest) /\ Forall loggable (map snd rest).
Proof.
  destruct entries as [|p0 rest]; [discriminate|].
  unfold can_fit, Py.min. cbn [map List.length Nat.ltb Nat.leb bind].
  destruct (0.0 <? Py.min_loop (map fst rest) (fst p0)) eqn:Ht; [|discriminate].
  intros [= Hv]. apply min_loop_positive in Ht as [Ht0 Ht], Hv as [Hv0 Hv].
  now exists p0, rest.
Qed.

Lemma Forall_loggable_filter (p : float * float -> bool) (f : float * float -> float)
  (l : list (float * float)) :
  Forall loggable (map f l) -> Forall loggable (map f (filter p l)).
Proof.
  rewrite !Forall_forall. intros H v Hin.
  apply in_map_iff in Hin as (e & <- & Hin). apply filter_In in Hin as [Hin _].
  apply H. now apply in_map.
Qed.

Lemma ascending_filter (p : float -> bool) (l : list float) :
  ascending l -> ascending (filter p l).
Proof.
  unfold ascending. induction 1 as [|a l Hl IH Ha]; cbn; [constructor|].
  destruct (p a); [|assumption]. constructor; [assumption|].
  rewrite Forall_forall in Ha |- *. intros x Hx. apply filter_In in Hx as [Hx _].
  now apply Ha.
Qed.

Lemma ascending_tl (l : list float) : ascending l -> ascending (tl l).
Proof. unfold ascending. destruct 1; [constructor|assumption]. Qed.

Lemma map_fst_filter (p : float -> bool) (l : list (float * float)) :
  map fst (filter (fun entry => p (fst entry)) l) = filter p (map fst l).
Proof.
  induction l as [|e l IH]; cbn; [reflexivity|].
  destruct (p (fst e)); cbn; now rewrite IH.
Qed.

(** A delta-t that stays after the first retained one has been left off is
    a delta-t of an entry other than the first. *)
Lemma in_tl_filter (p : float * float -> bool) (p0 : float * float)
  (rest : list (float * float)) (dt : float) :
  In dt (tl (map fst (filter p (p0 :: rest)))) -> In dt (map fst rest).
Proof.
  cbn [filter]. destruct (p p0); cbn [map tl]; intros Hin.
  - apply in_map_iff in Hin as (e & <- & Hin). apply filter_In in Hin as [Hin _].
    now apply in_map.
  - apply in_tl, in_map_iff in Hin as (e & <- & Hin). apply filter_In in Hin as [Hin _].
    now apply in_map.
Qed.

(** X16. With maps that are well formed, the delta-t that
    [calculate_msd_vs_max_dt] returns are strictly ascending and above
    zero, and every slope is that of a regression over at least two
    delta-t, never the slope 0.0 of the sentinel: leaving off the first
    delta-t leaves no cutoff that retains a single entry. *)
Theorem calculate_msd_vs_max_dt_regressions (profiles : list Profile.t) (upper : float)
  (dts slopes : list float) :
  maps_well_formed profiles ->
  calculate_msd_vs_max_dt (Some profiles) upper = Ok (dts, slopes) ->
  ascending dts /\
  Forall (fun dt => (0 <? dt) = true) dts /\
  Forall2 (fun dt s =>
             exists r', calculate_msd (Some profiles) None (Some dt) "allT" = Ok r' /\
                        slope r' = s /\
                        (2 <= List.length (linearTimes r'))%nat /\
                        List.length (linearPlot r') = List.length (linearTimes r'))
          dts slopes.
Proof.
  intros Hwf H. apply calculate_msd_vs_max_dt_run in H as (r & Hr & Hdts & Hall).
  pose proof (compute_msd_pooled profiles Hwf) as Hcomp.
  apply calculate_msd_ok in Hr as (entries & cutoff & Hsel & [[Hfit Hres]|[_ ->]]).
  2:{ rewrite keep_upto_sentinel in Hdts. subst dts. inversion Hall; subst.
      repeat split; constructor. }
  apply power_law_fit_shape in Hres as (Hmsd & _).
  apply select_msd_infinite in Hsel as [_ Hsel]. rewrite Hcomp in Hsel.
  injection Hsel as <-. rewrite Hmsd in Hdts. clear r Hmsd.
  pose proof (pooled_means_ascending profiles Hwf) as Hasc.
  destruct (can_fit_first _ Hfit) as (p0 & rest & HP & Ht0 & Hv0 & Ht & Hv).
  rewrite HP in Hasc, Hdts. cbn [map] in Hasc.
  apply StronglySorted_inv in Hasc as [Hrest Hfirst].
  rewrite Forall_forall in Hfirst.
  assert (Hin_rest : forall dt, In dt dts -> In dt (map fst rest)).
  { intros dt Hin. rewrite Hdts in Hin. unfold keep_upto in Hin.
    now apply in_tl_filter in Hin. }
  assert (Hpos : forall dt, In dt dts -> (0 <? dt) = true).
  { intros dt Hin. apply Hin_rest in Hin.
    apply loggable_number; [rewrite Forall_forall in Ht; now apply Ht|].
    apply Hfirst, FloatOrder.ltb_nonnan in Hin. tauto. }
  split; [|split].
  - rewrite Hdts. unfold keep_upto.
    rewrite (map_fst_filter (fun t => t <=? upper)).
    apply ascending_tl, ascending_filter. cbn [map].
    constructor; [assumption|]. now apply Forall_forall.
  - now apply Forall_forall.
  - revert Hall. apply Forall2_impl_in.
    intros dt s Hin (r' & Hr' & Hs). exists r'. split; [exact Hr'|]. split; [exact Hs|].
    pose proof (Hin_rest dt Hin) as Hdt.
    pose proof (Hfirst dt Hdt) as Hlt.
    assert (Hle : (fst p0 <=? dt) = true)
      by (rewrite FloatOrder.leb_ltb_eqb, Hlt; reflexivity).
    assert (Hself : (dt <=? dt) = true).
    { rewrite FloatOrder.leb_ltb_eqb, FloatOrder.eqb_refl; [apply orb_true_r|].
      apply FloatOrder.ltb_nonnan in Hlt. tauto. }
    assert (Hlen : (1 <= List.length (keep_upto dt rest))%nat).
    { apply in_map_iff in Hdt as (e & He & Hdt).
      assert (Hin' : In e (keep_upto dt rest))
        by (apply filter_In; split; [assumption|now rewrite He]).
      destruct (keep_upto dt rest); [contradiction|cbn; lia]. }
    assert (Hrest_len : (1 <= List.length rest)%nat).
    { pose proof (filter_length_bound (fun tup => fst tup <=? dt) rest).
      unfold keep_upto in Hlen. lia. }
    assert (Hsel : exists selected,
               select_msd (Some profiles) None (Some dt) "allT" = Ok (selected, dt) /\
               can_fit (map fst selected) (map snd selected) = Ok true /\
               (2 <= List.length selected)%nat).
    { unfold select_msd. rewrite Hcomp, HP. cbn [bind].
      destruct (dt =? infinity); cbn [negb].
      - exists (p0 :: rest). split; [reflexivity|]. split; [|cbn; lia].
        now rewrite <- HP.
      - exists (p0 :: keep_upto dt rest). cbn [filter]. rewrite Hle.
        split; [reflexivity|]. split; [|cbn; lia].
        cbn [map]. apply can_fit_intro; try assumption;
          now apply Forall_loggable_filter. }
    destruct Hsel as (selected & Hsel & Hcan & Hlen2).
    rewrite (calculate_msd_unfold _ _ _ _ _ _ Hsel), Hcan in Hr'.
    apply power_law_fit_shape in Hr' as (_ & _ & -> & ->).
    rewrite length_map. split; [assumption|reflexivity].
Qed.

End SlopeVsCutoff.

Section SlopeVsCutoffExamples.
Import Profile.
Local Open Scope float_scope.

Lemma calculate_msd_vs_max_dt_returns_witness :
  @calculate_msd_vs_max_dt Example.numerics (Some [ballistic_profile]) infinity
  = Ok ([2.0], [2.0]) /\
  @calculate_msd_vs_max_dt Example.numerics (Some [pausing_profile]) infinity
  = Ok ([], []) /\
  List.length [2.0] = List.length [2.0] /\
  Forall (fun dt => (dt <=? infinity) = true) [2.0].
Proof.
  split; [reflexivity|]. split; [reflexivity|].
  destruct (@calculate_msd_vs_max_dt_returns Example.numerics (Some [ballistic_profile])
              infinity [2.0] [2.0] eq_refl) as (Hlen & Hle & _).
  split; [exact Hlen|exact Hle].
Defined.

Lemma calculate_msd_vs_max_dt_regressions_witness :
  maps_well_formed [ballistic_profile] /\
  @calculate_msd_vs_max_dt Example.numerics (Some [ballistic_profile]) infinity
  = Ok ([2.0], [2.0]) /\
  ascending [2.0] /\
  Forall (fun dt => (0 <? dt) = true) [2.0].
Proof.
  split; [exact (proj2 (proj2 sample_maps_well_formed))|]. split; [reflexivity|].
  destruct (@calculate_msd_vs_max_dt_regressions Example.numerics [ballistic_profile]
              infinity [2.0] [2.0] (proj2 (proj2 sample_maps_well_formed)) eq_refl)
    as (Hasc & Hpos & _).
  split; [exact Hasc|exact Hpos].
Defined.

End SlopeVsCutoffExamples.

(* ================================================================= *)
(** * Collating the series of the tracks *)

Section Collating.
Import Profile.
Local Open Scope float_scope.
Local Open Scope py_scope.

(** [Profile._collate_deltaT_displacements_helper(profiles, series_retriever)].
    As in [collate_allT], the list that [series_retriever(t)] holds under
    [delta_t] is read before the two statements of the loop body are run;
    the dictionary being local, the order cannot be told from outside. *)
Definition _collate_deltaT_displacements_helper (profiles : list Profile.t)
  (series_retriever : Track.t -> Dict.t (list float)) : result (Dict.t (list float)) :=
  foldM (fun disps p =>
    foldM (fun disps t =>
      foldM (fun disps delta_t =>
               values <- Dict.get delta_t (series_retriever t) ;;
               extend_at delta_t values disps)
            (Dict.keys (series_retriever t)) disps)
      (tracks p) disps)
    profiles [].

Section TrackSeries.

(** Methods and an attribute of class [Track] that the record above does
    not list: each hands out a dictionary keyed by delta-t. *)
Variable get_deltaT_displacements : Track.t -> Dict.t (list float).
Variable get_deltaT_displacements_X : Track.t -> Dict.t (list float).
Variable get_deltaT_displacements_Y : Track.t -> Dict.t (list float).
Variable get_deltaT_displacements_Z : Track.t -> Dict.t (list float).
Variable displacement_autocorrelation : Track.t -> Dict.t float.

Definition collate_deltaT_displacements (profiles : list Profile.t)
  : result (Dict.t (list float)) :=
  _collate_deltaT_displacements_helper profiles (fun tr => get_deltaT_displacements tr).

Definition collate_deltaT_displacements_X (profiles : list Profile.t)
  : result (Dict.t (list float)) :=
  _collate_deltaT_displacements_helper profiles (fun tr => get_deltaT_displacements_X tr).

Definition collate_deltaT_displacements_Y (profiles : list Profile.t)
  : result (Dict.t (list float)) :=
  _collate_deltaT_displacements_helper profiles (fun tr => get_deltaT_displacements_Y tr).

Definition collate_deltaT_displacements_Z (profiles : list Profile.t)
  : result (Dict.t (list float)) :=
  _collate_deltaT_displacements_helper profiles (fun tr => get_deltaT_displacements_Z tr).

(** [Profile.collate_displacement_autocorrelation(profiles)]: [append] is
    [extend] with a list of one value. *)
Definition collate_displacement_autocorrelation (profiles : list Profile.t)
  : result (Dict.t (list float)) :=
  foldM (fun dac p =>
    foldM (fun dac t =>
      foldM (fun dac deltaT =>
               value <- Dict.get deltaT (displacement_autocorrelation t) ;;
               extend_at deltaT [value] dac)
            (Dict.keys (displacement_autocorrelation t)) dac)
      (tracks p) dac)
    profiles [].

End TrackSeries.

(** ** The helper *)

(** The number of values that a dictionary holds, all keys together. *)
Definition held (d : Dict.t (list float)) : nat :=
  list_sum (map (fun e => List.length (snd e)) d).

Lemma held_cons (k : float) (l : list float) (d : Dict.t (list float)) :
  held ((k, l) :: d) = (List.length l + held d)%nat.
Proof. reflexivity. Qed.

Lemma held_upsert (k : float) (values : list float) (d : Dict.t (list float)) :
  held (upsert k values d) = (held d + List.length values)%nat.
Proof.
  induction d as [|[k' l] rest IH]; cbn [upsert].
  - unfold held. cbn. lia.
  - destruct (Dict.key_match k' k); rewrite !held_cons, ?length_app; lia.
Qed.

Lemma held_merge (ops d : Dict.t (list float)) :
  held (merge ops d) = (held d + held ops)%nat.
Proof.
  revert d. induction ops as [|[k v] ops IH]; intros d.
  - change (held d = (held d + 0)%nat). lia.
  - change (merge ((k, v) :: ops) d) with (merge ops (upsert k v d)).
    rewrite IH, held_upsert, held_cons. lia.
Qed.

Lemma held_app (d1 d2 : Dict.t (list float)) : held (d1 ++ d2) = (held d1 + held d2)%nat.
Proof. unfold held. now rewrite map_app, list_sum_app. Qed.

Lemma held_flat_map (retriever : Track.t -> Dict.t (list float)) (ts : list Track.t) :
  held (flat_map retriever ts) = list_sum (map (fun t => held (retriever t)) ts).
Proof.
  induction ts as [|t ts IH]; [reflexivity|].
  cbn [flat_map map]. rewrite held_app, IH. reflexivity.
Qed.

Lemma helper_tracks_loop (retriever : Track.t -> Dict.t (list float))
  (ts : list Track.t) (d : Dict.t (list float)) :
  Forall (fun t => well_formed (retriever t)) ts ->
  foldM (fun disps t =>
           foldM (fun disps delta_t =>
                    values <- Dict.get delta_t (retriever t) ;;
                    extend_at delta_t values disps)
                 (Dict.keys (retriever t)) disps)
        ts d
  = Ok (merge (flat_map retriever ts) d).
Proof.
  intros Hwf. revert d. induction Hwf as [|t ts Ht Hts IH]; intros d; cbn; [reflexivity|].
  rewrite keys_loop by (intros k v; now apply get_own_entry).
  cbn [bind]. rewrite IH. now rewrite merge_app.
Qed.

Lemma helper_merge (retriever : Track.t -> Dict.t (list float))
  (profiles : list Profile.t) :
  Forall (fun t => well_formed (retriever t)) (all_tracks profiles) ->
  _collate_deltaT_displacements_helper profiles retriever
  = Ok (merge (flat_map retriever (all_tracks profiles)) []).
Proof.
  unfold _collate_deltaT_displacements_helper, all_tracks.
  generalize (@nil (float * list float)) as d.
  induction profiles as [|p profiles IH]; intros d Hwf; cbn; [reflexivity|].
  cbn in Hwf. apply Forall_app in Hwf as [Hp Hrest].
  rewrite helper_tracks_loop by assumption. cbn [bind].
  rewrite IH by assumption. now rewrite flat_map_app, merge_app.
Qed.

Lemma lookup_merged_series (retriever : Track.t -> Dict.t (list float)) (k : float)
  (ts : list Track.t) :
  Forall (fun t => well_formed (retriever t)) ts ->
  lookup k (merge (flat_map retriever ts) [])
  = flat_map (fun t => lookup k (retriever t)) ts.
Proof.
  intros Hwf. rewrite lookup_merge. cbn [lookup Dict.get app].
  induction Hwf as [|t ts Ht Hts IH]; cbn [flat_map]; [reflexivity|].
  now rewrite values_at_app, IH, values_at_lookup.
Qed.

Lemma mem_merged_series (retriever : Track.t -> Dict.t (list float)) (k : float)
  (ts : list Track.t) :
  Dict.mem k (merge (flat_map retriever ts) [])
  = existsb (fun t => Dict.mem k (retriever t)) ts.
Proof.
  rewrite mem_merge. cbn [Dict.mem existsb orb].
  induction ts as [|t ts IH]; cbn [flat_map existsb]; [reflexivity|].
  now rewrite existsb_app, IH.
Qed.

(** X17. When the dictionaries that [series_retriever] hands out are well
    formed, [_collate_deltaT_displacements_helper] returns a dictionary
    whose keys are distinct; under each key it lists what the tracks of all
    the profiles list under that key, one track after the other; a key is
    present exactly when a track has it; and it holds as many values as the
    tracks together: none is lost and none is counted twice. *)
Theorem collate_helper_pools (profiles : list Profile.t)
  (series_retriever : Track.t -> Dict.t (list float)) :
  Forall (fun t => well_formed (series_retriever t)) (all_tracks profiles) ->
  exists disps,
    _collate_deltaT_displacements_helper profiles series_retriever = Ok disps /\
    distinct_keys disps /\
    (forall k, lookup k disps
               = flat_map (fun t => lookup k (series_retriever t)) (all_tracks profiles)) /\
    (forall k, Dict.mem k disps
               = existsb (fun t => Dict.mem k (series_retriever t)) (all_tracks profiles)) /\
    held disps = list_sum (map (fun t => held (series_retriever t)) (all_tracks profiles)).
Proof.
  intros Hwf. exists (merge (flat_map series_retriever (all_tracks profiles)) []).
  split; [now apply helper_merge|].
  split; [apply distinct_merge; constructor|].
  split; [intros k; now apply lookup_merged_series|].
  split; [intros k; apply mem_merged_series|].
  now rewrite held_merge, held_flat_map.
Qed.

(** ** The autocorrelations *)

(** A dictionary of values read as one of lists of one value. *)
Definition singletons (m : Dict.t float) : Dict.t (list float) :=
  map (fun e => (fst e, [snd e])) m.

Lemma keys_singletons (m : Dict.t float) : Dict.keys (singletons m) = Dict.keys m.
Proof. unfold Dict.keys, singletons. rewrite map_map. reflexivity. Qed.

Lemma get_singletons (k : float) (m : Dict.t float) :
  Dict.get k (singletons m) = (value <- Dict.get k m ;; Ok [value]).
Proof.
  induction m as [|[k' v] rest IH]; cbn; [reflexivity|].
  destruct (Dict.key_match k' k); [reflexivity|exact IH].
Qed.

Lemma lookup_singletons (k : float) (m : Dict.t float) :
  lookup k (singletons m)
  = match Dict.get k m with Ok value => [value] | Raise _ => [] end.
Proof. unfold lookup. rewrite get_singletons. now destruct (Dict.get k m). Qed.

Lemma well_formed_singletons (m : Dict.t float) :
  well_formed m -> well_formed (singletons m).
Proof. unfold well_formed. now rewrite keys_singletons. Qed.

Lemma foldM_ext {A S : Type} (f g : S -> A -> result S) (l : list A) (s : S) :
  (forall s a, f s a = g s a) -> foldM f l s = foldM g l s.
Proof.
  intros H. revert s. induction l as [|a l IH]; intros s; cbn; [reflexivity|].
  rewrite H. destruct (g s a); cbn; [apply IH|reflexivity].
Qed.

Lemma autocorrelation_helper (displacement_autocorrelation : Track.t -> Dict.t float)
  (profiles : list Profile.t) :
  collate_displacement_autocorrelation displacement_autocorrelation profiles
  = _collate_deltaT_displacements_helper profiles
      (fun t => singletons (displacement_autocorrelation t)).
Proof.
  unfold collate_displacement_autocorrelation, _collate_deltaT_displacements_helper.
  apply foldM_ext. intros d p. apply foldM_ext. intros d' t.
  rewrite keys_singletons. apply foldM_ext. intros d'' k.
  rewrite get_singletons. now destruct (Dict.get k (displacement_autocorrelation t)).
Qed.

Lemma flat_map_length_bound {A B : Type} (f : A -> list B) (l : list A) :
  (forall a, List.length (f a) <= 1)%nat ->
  (List.length (flat_map f l) <= List.length l)%nat.
Proof.
  intros H. induction l as [|a l IH]; cbn; [lia|].
  rewrite length_app. specialize (H a). lia.
Qed.

(** X18. When the attribute [displacement_autocorrelation] of every track
    is a well-formed dictionary, [collate_displacement_autocorrelation]
    returns a dictionary with distinct keys that lists under each delta-t
    the value of each track that has that delta-t, in the order of the
    tracks: one value per track at most, so never more values under a key
    than there are tracks. *)
Theorem collate_displacement_autocorrelation_one_per_track
  (displacement_autocorrelation : Track.t -> Dict.t float) (profiles : list Profile.t) :
  Forall (fun t => well_formed (displacement_autocorrelation t)) (all_tracks profiles) ->
  exists dac,
    collate_displacement_autocorrelation displacement_autocorrelation profiles = Ok dac /\
    distinct_keys dac /\
    (forall k, lookup k dac
               = flat_map (fun t => match Dict.get k (displacement_autocorrelation t) with
                                    | Ok value => [value]
                                    | Raise _ => []
                                    end) (all_tracks profiles)) /\
    (forall k, (List.length (lookup k dac) <= List.length (all_tracks profiles))%nat).
Proof.
  intros Hwf.
  assert (Hwf' : Forall (fun t => well_formed (singletons (displacement_autocorrelation t)))
                        (all_tracks profiles)).
  { eapply Forall_impl; [|exact Hwf]. intros t. apply well_formed_singletons. }
  assert (Hlookup : forall k,
            lookup k (merge (flat_map (fun t => singletons (displacement_autocorrelation t))
                                      (all_tracks profiles)) [])
            = flat_map (fun t => match Dict.get k (displacement_autocorrelation t) with
                                 | Ok value => [value]
                                 | Raise _ => []
                                 end) (all_tracks profiles)).
  { intros k.
    rewrite (lookup_merged_series (fun t => singletons (displacement_autocorrelation t)))
      by assumption.
    apply flat_map_ext. intros t. apply lookup_singletons. }
  eexists. split; [rewrite autocorrelation_helper; now apply helper_merge|].
  split; [apply distinct_merge; constructor|]. split; [exact Hlookup|].
  intros k. rewrite Hlookup. apply flat_map_length_bound.
  intros t. destruct (Dict.get k (displacement_autocorrelation t)); cbn; lia.
Qed.

End Collating.

Section CollatingExamples.
Import Profile.
Local Open Scope float_scope.

Lemma collate_helper_pools_witness :
  _collate_deltaT_displacements_helper [ballistic_profile; reordered_profile]
    Track.get_deltaT_displacements_sq
  = Ok [(1.0, [1.0; 1.0; 1.0]); (2.0, [4.0; 3.0; 5.0])] /\
  held [(1.0, [1.0; 1.0; 1.0]); (2.0, [4.0; 3.0; 5.0])] = (3 + 3)%nat /\
  distinct_keys [(1.0, [1.0; 1.0; 1.0]); (2.0, [4.0; 3.0; 5.0])].
Proof.
  destruct (collate_helper_pools [ballistic_profile; reordered_profile]
              Track.get_deltaT_displacements_sq (proj1 sample_maps_well_formed))
    as (disps & Hrun & Hdistinct & _ & _ & Hheld).
  assert (Hval : _collate_deltaT_displacements_helper [ballistic_profile; reordered_profile]
                   Track.get_deltaT_displacements_sq
                 = Ok [(1.0, [1.0; 1.0; 1.0]); (2.0, [4.0; 3.0; 5.0])])
    by reflexivity.
  rewrite Hval in Hrun. injection Hrun as <-.
  split; [exact Hval|]. split; [exact Hheld|exact Hdistinct].
Defined.

(** For the examples: the autocorrelation of a track at a delta-t is the
    first squared displacement that the track lists under it. *)
Definition first_values (t : Track.t) : Dict.t float :=
  map (fun e => (fst e, hd 0.0 (snd e))) (Track.get_deltaT_displacements_sq t).

(** A track that has the delta-t 2 only. *)
Definition sparse : Track.t :=
  Sample.track 12 [Sample.position 1.0 5.0 5.0 0.0; Sample.position 3.0 5.0 5.0 2.0]
               [(2.0, [7.0])].

Definition sparse_profile : Profile.t :=
  Profile.mk [sparse] [2.0] [8.0] [5.0] [0.625] [1.0] [0.5] [0.3] [0.2] [0.1] [0.1]
             [] [] [].

Lemma sparse_profile_built : Sample.profile [sparse] = Ok sparse_profile.
Proof. reflexivity. Qed.

Lemma first_values_well_formed :
  Forall (fun t => well_formed (first_values t))
         (all_tracks [ballistic_profile; sparse_profile; reordered_profile]).
Proof.
  unfold well_formed. cbn. repeat constructor.
Qed.

Lemma collate_displacement_autocorrelation_one_per_track_witness :
  collate_displacement_autocorrelation first_values
    [ballistic_profile; sparse_profile; reordered_profile]
  = Ok [(1.0, [1.0; 1.0]); (2.0, [4.0; 7.0; 3.0])] /\
  distinct_keys [(1.0, [1.0; 1.0]); (2.0, [4.0; 7.0; 3.0])] /\
  List.length (lookup 2.0 [(1.0, [1.0; 1.0]); (2.0, [4.0; 7.0; 3.0])])
  <= List.length (all_tracks [ballistic_profile; sparse_profile; reordered_profile]).
Proof.
  destruct (collate_displacement_autocorrelation_one_per_track first_values
              [ballistic_profile; sparse_profile; reordered_profile]
              first_values_well_formed)
    as (dac & Hrun & Hdistinct & _ & Hbound).
  assert (Hval : collate_displacement_autocorrelation first_values
                   [ballistic_profile; sparse_profile; reordered_profile]
                 = Ok [(1.0, [1.0; 1.0]); (2.0, [4.0; 7.0; 3.0])])
    by reflexivity.
  rewrite Hval in Hrun. injection Hrun as <-.
  split; [exact Hval|]. split; [exact Hdistinct|exact (Hbound 2.0)].
Defined.

End CollatingExamples.

(* ================================================================= *)
(** * The two checks on the tracks of a profile *)

Section Checks.
Import Profile.
Local Open Scope float_scope.
Local Open Scope py_scope.

(** ** [analyse_cell_entries_imaging_volume] *)

(** [time_s == 0.0]; [None == 0.0] is false. *)
Definition eq_zero (time_s : option float) : bool :=
  match time_s with
  | None => false
  | Some v => v =? 0.0
  end.

(** The three numbers that the method prints. *)
Record EntriesReport : Type := mkEntriesReport {
  num_starters : Z;
  num_entries : Z;
  num_total : Z
}.

(** [[t for t in l if test t]] with a test that may raise. *)
Fixpoint filterM {A : Type} (test : A -> result bool) (l : list A) : result (list A) :=
  match l with
  | [] => Ok []
  | a :: l' =>
      keep <- test a ;;
      rest <- filterM test l' ;;
      Ok (if keep then a :: rest else rest)
  end.

Definition analyse_cell_entries_imaging_volume (self : Profile.t) : result EntriesReport :=
  starters <- filterM (fun t => p <- Py.first_item (Track.positions t) ;;
                                Ok (eq_zero (Position.time_s p)))
                      (tracks self) ;;
  let num_starters := Z.of_nat (List.length starters) in
  let num_entries := (Z.of_nat (List.length (tracks self)) - num_starters)%Z in
  Ok (mkEntriesReport num_starters num_entries (Z.of_nat (List.length (tracks self)))).

(** The tracks whose first position passes [test]. *)
Definition first_seen (test : option float -> bool) (ts : list Track.t) : list Track.t :=
  filter (fun t => match Track.positions t with
                   | p :: _ => test (Position.time_s p)
                   | [] => false
                   end) ts.

Lemma starters_filter (ts : list Track.t) :
  Forall (fun t => Track.positions t <> []) ts ->
  filterM (fun t => p <- Py.first_item (Track.positions t) ;;
                    Ok (eq_zero (Position.time_s p))) ts
  = Ok (first_seen eq_zero ts).
Proof.
  induction 1 as [|t ts Ht _ IH]; cbn; [reflexivity|].
  destruct (Track.positions t) as [|p ps]; [now contradiction Ht|].
  cbn. rewrite IH. cbn. now destruct (eq_zero (Position.time_s p)).
Qed.

Lemma starters_raise (ts : list Track.t) :
  Exists (fun t => Track.positions t = []) ts ->
  filterM (fun t => p <- Py.first_item (Track.positions t) ;;
                    Ok (eq_zero (Position.time_s p))) ts
  = Raise IndexError.
Proof.
  induction ts as [|t ts IH]; intros H; [inversion H|]. cbn.
  destruct (Track.positions t) as [|p ps] eqn:E; [reflexivity|]. cbn.
  inversion H as [? ? Ht|? ? Hts]; subst; [congruence|].
  now rewrite IH.
Qed.

Lemma first_seen_split (ts : list Track.t) :
  Forall (fun t => Track.positions t <> []) ts ->
  (List.length (first_seen eq_zero ts) + List.length (first_seen ne_zero ts)
   = List.length ts)%nat.
Proof.
  induction 1 as [|t ts Ht _ IH]; cbn; [reflexivity|].
  destruct (Track.positions t) as [|p ps]; [now contradiction Ht|].
  unfold eq_zero, ne_zero. destruct (Position.time_s p) as [v|]; cbn.
  - destruct (v =? 0.0); cbn; unfold first_seen, eq_zero, ne_zero in IH; lia.
  - unfold first_seen, eq_zero, ne_zero in IH. lia.
Qed.

(** X19. [analyse_cell_entries_imaging_volume] raises [IndexError] when a
    track of the profile has no position, and otherwise prints three
    numbers that are not negative: the tracks whose first position is at
    time 0.0, the tracks whose first time is anything else (a time that is
    [None] or [nan] included: those that pass the test
    [p_start.time_s != 0.0] of the teleport analysis), and their sum, the
    number of tracks. *)
Theorem analyse_cell_entries_counts (self : Profile.t) :
  (Exists (fun t => Track.positions t = []) (tracks self) ->
   analyse_cell_entries_imaging_volume self = Raise IndexError) /\
  (Forall (fun t => Track.positions t <> []) (tracks self) ->
   exists report,
     analyse_cell_entries_imaging_volume self = Ok report /\
     num_starters report = Z.of_nat (List.length (first_seen eq_zero (tracks self))) /\
     num_entries report = Z.of_nat (List.length (first_seen ne_zero (tracks self))) /\
     num_total report = Z.of_nat (List.length (tracks self)) /\
     (num_starters report + num_entries report = num_total report)%Z).
Proof.
  unfold analyse_cell_entries_imaging_volume. split; intros H.
  - now rewrite starters_raise.
  - rewrite starters_filter by assumption. cbn [bind].
    eexists. split; [reflexivity|]. cbn [num_starters num_entries num_total].
    pose proof (first_seen_split (tracks self) H). repeat split; lia.
Qed.

(** ** [check_for_duplicates] *)

(** What is printed for a duplicate: the coordinates and the time of the
    position of track [i], and the two indexes. *)
Record Duplicate : Type := mkDuplicate {
  dup_x : option float;
  dup_y : option float;
  dup_z : option float;
  dup_time : option float;
  dup_i : nat;
  dup_j : nat
}.

(** [a == b and a is not None] for two coordinates. *)
Definition same_coordinate (a b : option float) : bool :=
  match a, b with
  | Some u, Some v => u =? v
  | _, _ => false
  end.

Definition duplicate (i_pos j_pos : Position.t) : bool :=
  same_coordinate (Position.x i_pos) (Position.x j_pos)
  && same_coordinate (Position.y i_pos) (Position.y j_pos)
  && same_coordinate (Position.z i_pos) (Position.z j_pos).

(** [l[i]] for an index that is not negative. *)
Definition item {A : Type} (l : list A) (i : nat) : result A :=
  match nth_error l i with
  | Some a => Ok a
  | None => Raise IndexError
  end.

(** [l.remove(x)]: the first occurrence goes; [ValueError] without one. *)
Fixpoint remove_first (x : nat) (l : list nat) : result (list nat) :=
  match l with
  | [] => Raise ValueError
  | y :: l' =>
      if Nat.eqb y x then Ok l'
      else rest <- remove_first x l' ;; Ok (y :: rest)
  end.

(** A loop that prints: what the iterations print, one after the other. *)
Definition concatM {A B : Type} (body : A -> result (list B)) (l : list A)
  : result (list B) :=
  printed <- mapM body l ;; Ok (concat printed).

(** The duplicates that [check_for_duplicates] prints, between its first
    and its last line. *)
Definition check_for_duplicates (self : Profile.t) : result (list Duplicate) :=
  let n := List.length (tracks self) in
  concatM (fun i =>
    j_indexes <- remove_first i (seq 0 n) ;;
    track_i <- item (tracks self) i ;;
    concatM (fun i_pos =>
      concatM (fun j =>
        track_j <- item (tracks self) j ;;
        Ok (flat_map (fun j_pos =>
                        if duplicate i_pos j_pos
                        then [mkDuplicate (Position.x i_pos) (Position.y i_pos)
                                          (Position.z i_pos) (Position.time_s i_pos) i j]
                        else [])
                     (Track.positions track_j)))
        j_indexes)
      (Track.positions track_i))
    (seq 0 n).

Lemma concatM_flat_map {A B : Type} (body : A -> result (list B)) (g : A -> list B)
  (l : list A) :
  (forall a, In a l -> body a = Ok (g a)) -> concatM body l = Ok (flat_map g l).
Proof.
  unfold concatM. intros H.
  assert (Hm : mapM body l = Ok (map g l)).
  { induction l as [|a l IH]; cbn; [reflexivity|].
    rewrite (H a (or_introl eq_refl)), IH; [reflexivity|].
    intros b Hb. apply H. now right. }
  rewrite Hm. cbn [bind]. now rewrite flat_map_concat_map.
Qed.

Lemma remove_first_filter (x : nat) (l : list nat) :
  NoDup l -> In x l ->
  remove_first x l = Ok (filter (fun y => negb (Nat.eqb y x)) l).
Proof.
  induction 1 as [|y l Hy Hl IH]; [contradiction|]. cbn.
  destruct (Nat.eqb y x) eqn:E; cbn.
  - intros _. apply Nat.eqb_eq in E. subst y. f_equal. symmetry.
    apply filter_all. intros z Hz. apply negb_true_iff, Nat.eqb_neq.
    intros ->. contradiction.
  - intros [->|Hx]; [now rewrite Nat.eqb_refl in E|]. now rewrite IH.
Qed.

(** The positions of the track at index [i], none out of range. *)
Definition positions_at (self : Profile.t) (i : nat) : list Position.t :=
  match nth_error (tracks self) i with
  | Some t => Track.positions t
  | None => []
  end.

Definition reports (self : Profile.t) (i : nat) (i_pos : Position.t) (j : nat)
  : list Duplicate :=
  flat_map (fun j_pos =>
              if duplicate i_pos j_pos
              then [mkDuplicate (Position.x i_pos) (Position.y i_pos)
                                (Position.z i_pos) (Position.time_s i_pos) i j]
              else [])
           (positions_at self j).

Lemma check_for_duplicates_run (self : Profile.t) :
  check_for_duplicates self
  = Ok (flat_map (fun i =>
          flat_map (fun i_pos =>
            flat_map (reports self i i_pos)
                     (filter (fun j => negb (Nat.eqb j i))
                             (seq 0 (List.length (tracks self)))))
            (positions_at self i))
        (seq 0 (List.length (tracks self)))).
Proof.
  unfold check_for_duplicates. cbv zeta. apply concatM_flat_map. intros i Hi.
  rewrite (remove_first_filter i _ (seq_NoDup _ _) Hi). cbn [bind].
  apply in_seq in Hi as [_ Hi]. cbn in Hi.
  unfold item, positions_at.
  destruct (nth_error (tracks self) i) as [track_i|] eqn:Ei;
    [|apply nth_error_None in Ei; lia].
  cbn [bind]. apply concatM_flat_map. intros i_pos _.
  apply concatM_flat_map. intros j Hj.
  apply filter_In in Hj as [Hj _]. apply in_seq in Hj as [_ Hj]. cbn in Hj.
  unfold reports, positions_at.
  destruct (nth_error (tracks self) j) as [track_j|] eqn:Ej;
    [reflexivity|apply nth_error_None in Ej; lia].
Qed.

Lemma in_positions_at (self : Profile.t) (i : nat) (pos : Position.t) :
  In pos (positions_at self i) <->
  exists t, nth_error (tracks self) i = Some t /\ In pos (Track.positions t).
Proof.
  unfold positions_at. destruct (nth_error (tracks self) i) as [t|].
  - split; [intros H; now exists t|intros (t' & [= <-] & H); exact H].
  - split; [contradiction|intros (t' & H & _); discriminate].
Qed.

Lemma in_check_for_duplicates (self : Profile.t) (found : list Duplicate) (d : Duplicate) :
  check_for_duplicates self = Ok found ->
  In d found <->
  exists track_i track_j i_pos j_pos,
    nth_error (tracks self) (dup_i d) = Some track_i /\
    nth_error (tracks self) (dup_j d) = Some track_j /\
    dup_i d <> dup_j d /\
    In i_pos (Track.positions track_i) /\ In j_pos (Track.positions track_j) /\
    duplicate i_pos j_pos = true /\
    d = mkDuplicate (Position.x i_pos) (Position.y i_pos) (Position.z i_pos)
                    (Position.time_s i_pos) (dup_i d) (dup_j d).
Proof.
  rewrite check_for_duplicates_run. intros [= <-]. split.
  - intros H. apply in_flat_map in H as (i & Hi & H).
    apply in_flat_map in H as (i_pos & Hipos & H).
    apply in_flat_map in H as (j & Hj & H).
    apply in_flat_map in H as (j_pos & Hjpos & H).
    destruct (duplicate i_pos j_pos) eqn:Hdup; [|contradiction].
    destruct H as [<-|[]]. cbn [dup_i dup_j].
    apply in_positions_at in Hipos as (track_i & Ei & Hipos).
    apply in_positions_at in Hjpos as (track_j & Ej & Hjpos).
    apply filter_In in Hj as [_ Hj]. apply negb_true_iff, Nat.eqb_neq in Hj.
    exists track_i, track_j, i_pos, j_pos. repeat split; auto.
  - intros (track_i & track_j & i_pos & j_pos & Ei & Ej & Hne & Hipos & Hjpos & Hdup & ->).
    cbn [dup_i dup_j] in *.
    assert (Hi : (dup_i d < List.length (tracks self))%nat)
      by (apply nth_error_Some; congruence).
    assert (Hj : (dup_j d < List.length (tracks self))%nat)
      by (apply nth_error_Some; congruence).
    apply in_flat_map. exists (dup_i d). split; [apply in_seq; lia|].
    apply in_flat_map. exists i_pos. split; [apply in_positions_at; now exists track_i|].
    apply in_flat_map. exists (dup_j d). split.
    { apply filter_In. split; [apply in_seq; lia|].
      apply negb_true_iff, Nat.eqb_neq. congruence. }
    apply in_flat_map. exists j_pos. split; [apply in_positions_at; now exists track_j|].
    rewrite Hdup. now left.
Qed.

Lemma same_coordinate_sym (a b : option float) :
  same_coordinate a b = same_coordinate b a.
Proof. destruct a, b; cbn; try reflexivity. apply FloatOrder.eqb_sym. Qed.

Lemma same_coordinate_defined (a b : option float) :
  same_coordinate a b = true -> exists v, a = Some v /\ is_nan v = false.
Proof.
  destruct a as [u|], b as [v|]; cbn; try discriminate.
  intros H. exists u. split; [reflexivity|].
  unfold is_nan. destruct (u =? u) eqn:E; [reflexivity|].
  assert (Hu : (u =? u) = true)
    by (apply (FloatOrder.eqb_trans u v u); [assumption|now rewrite FloatOrder.eqb_sym]).
  congruence.
Qed.

(** X20. [check_for_duplicates] never raises. It prints a duplicate for
    the indexes [i], [j] exactly when [i] and [j] are two different indexes
    of [self.tracks] and a position of track [i] and one of track [j] have
    the same x, the same y and the same z, none of them [None]. So every
    duplicate is printed from both sides, once as [i, j] and once as
    [j, i]; the coordinates printed are never [None] or [nan]; and two
    positions of one track are never compared. *)
Theorem check_for_duplicates_finds (self : Profile.t) :
  exists found,
    check_for_duplicates self = Ok found /\
    (forall d, In d found <->
       exists track_i track_j i_pos j_pos,
         nth_error (tracks self) (dup_i d) = Some track_i /\
         nth_error (tracks self) (dup_j d) = Some track_j /\
         dup_i d <> dup_j d /\
         In i_pos (Track.positions track_i) /\ In j_pos (Track.positions track_j) /\
         duplicate i_pos j_pos = true /\
         d = mkDuplicate (Position.x i_pos) (Position.y i_pos) (Position.z i_pos)
                         (Position.time_s i_pos) (dup_i d) (dup_j d)) /\
    (forall d, In d found ->
       exists d', In d' found /\ dup_i d' = dup_j d /\ dup_j d' = dup_i d) /\
    (forall d, In d found ->
       exists x y z, dup_x d = Some x /\ dup_y d = Some y /\ dup_z d = Some z /\
                     is_nan x = false /\ is_nan y = false /\ is_nan z = false).
Proof.
  pose proof (check_for_duplicates_run self) as Hrun.
  eexists. split; [exact Hrun|].
  split; [intros d; now apply in_check_for_duplicates|]. split.
  - intros d Hd.
    apply (in_check_for_duplicates self _ d Hrun) in Hd
      as (track_i & track_j & i_pos & j_pos & Ei & Ej & Hne & Hipos & Hjpos & Hdup & ->).
    cbn [dup_i dup_j] in *.
    exists (mkDuplicate (Position.x j_pos) (Position.y j_pos) (Position.z j_pos)
                        (Position.time_s j_pos) (dup_j d) (dup_i d)).
    split; [|split; reflexivity].
    apply (in_check_for_duplicates self _ _ Hrun). cbn [dup_i dup_j].
    exists track_j, track_i, j_pos, i_pos. repeat split; auto.
    unfold duplicate in *.
    now rewrite (same_coordinate_sym (Position.x j_pos)),
      (same_coordinate_sym (Position.y j_pos)), (same_coordinate_sym (Position.z j_pos)).
  - intros d Hd.
    apply (in_check_for_duplicates self _ d Hrun) in Hd
      as (track_i & track_j & i_pos & j_pos & _ & _ & _ & _ & _ & Hdup & ->).
    cbn [dup_x dup_y dup_z]. unfold duplicate in Hdup.
    apply andb_true_iff in Hdup as [Hdup Hz]. apply andb_true_iff in Hdup as [Hx Hy].
    apply same_coordinate_defined in Hx as (x & -> & Hx), Hy as (y & -> & Hy),
      Hz as (z & -> & Hz).
    now exists x, y, z.
Qed.

End Checks.

Section ChecksExamples.
Import Profile.
Local Open Scope float_scope.

(** A track that is first seen at time 30, beside one seen from time 0. *)
Lemma analyse_cell_entries_counts_witness :
  analyse_cell_entries_imaging_volume (self with_passing)
  = Ok (mkEntriesReport 1 1 2) /\
  analyse_cell_entries_imaging_volume
    (Profile.mk [Track.mk 13 [] 0.0 0.0 0.0 0.0 false 0.0 1.0 1.0 1.0 1.0 1.0 1.0 []]
                [] [] [] [] [] [] [] [] [] [] [] [] [])
  = Raise IndexError.
Proof.
  split.
  - destruct (proj2 (analyse_cell_entries_counts (self with_passing)))
      as (report & Hrun & Hs & He & Ht & _).
    + repeat constructor; discriminate.
    + rewrite Hrun. destruct report as [s e n]. cbn in Hs, He, Ht. now subst.
  - apply (proj1 (analyse_cell_entries_counts _)). left. reflexivity.
Defined.

(** Two tracks over the same three places. *)
Definition twins : Profile.t :=
  Profile.mk [Sample.ballistic; leaving] [2.0; 2.0] [8.0; 8.0] [5.0; 5.0] [0.625; 0.625]
             [1.0; 1.0] [0.5; 0.5] [0.3; 0.3] [0.2; 0.2] [0.1; 0.1] [0.1; 0.1] [] [] [].

Lemma twins_built : Sample.profile [Sample.ballistic; leaving] = Ok twins.
Proof. reflexivity. Qed.

Lemma check_for_duplicates_finds_witness :
  exists found,
    check_for_duplicates twins = Ok found /\
    List.length found = 6%nat /\
    In (mkDuplicate (Some 2.0) (Some 5.0) (Some 5.0) (Some 1.0) 0 1) found /\
    In (mkDuplicate (Some 2.0) (Some 5.0) (Some 5.0) (Some 1.0) 1 0) found.
Proof.
  destruct (check_for_duplicates_finds twins) as (found & Hrun & Hin & _).
  exists found. split; [exact Hrun|].
  assert (Hval : exists l, check_for_duplicates twins = Ok l /\ List.length l = 6%nat)
    by (eexists; split; vm_compute; reflexivity).
  destruct Hval as (l & Hl & Hlen). rewrite Hrun in Hl. injection Hl as <-.
  split; [exact Hlen|]. split; apply Hin; cbn [dup_i dup_j].
  - exists Sample.ballistic, leaving,
      (Sample.position 2.0 5.0 5.0 1.0),
      (Position.mk (Some 2.0) (Some 5.0) (Some 5.0) (Some 1.0) None None None None (Some 1.0) true).
    repeat split; try discriminate; cbn; auto.
  - exists leaving, Sample.ballistic,
      (Position.mk (Some 2.0) (Some 5.0) (Some 5.0) (Some 1.0) None None None None (Some 1.0) true),
      (Sample.position 2.0 5.0 5.0 1.0).
    repeat split; try discriminate; cbn; auto.
Defined.

End ChecksExamples.

(* ================================================================= *)
(** * The script [contrast_profiles]: its command line *)

From Stdlib Require Import Ascii.

Module ContrastProfilesScript.
Local Open Scope Z_scope.

(** The variables that the loop over [sys.argv] sets. *)
Record Args : Type := mkArgs {
  dir1 : option string;
  dir2 : option string;
  label1 : option string;
  label2 : option string;
  overWrite : bool;
  drawGraphs : bool;
  outDir : option string;
  duration : option float
}.

(** Their values before the loop. *)
Definition defaults : Args := mkArgs None None None None false false None None.

Section CommandLine.

(** [float(s)] for a string: a [float] or [ValueError]. *)
Variable float_of_str : string -> result float.

(** The loop [while i < len(sys.argv)] from index [i] on, over the
    arguments from that index: a flag that takes a value reads
    [sys.argv[i + 1]], which raises [IndexError] past the end, and the loop
    goes on after the value. *)
Fixpoint parse (args : list string) (st : Args) : result Args :=
  match args with
  | [] => Ok st
  | arg :: rest =>
      if String.eqb arg "-i1" then
        match rest with
        | [] => Raise IndexError
        | v :: rest' =>
            parse rest' (mkArgs (Some v) (dir2 st) (label1 st) (label2 st) (overWrite st)
                                (drawGraphs st) (outDir st) (duration st))
        end
      else if String.eqb arg "-i2" then
        match rest with
        | [] => Raise IndexError
        | v :: rest' =>
            parse rest' (mkArgs (dir1 st) (Some v) (label1 st) (label2 st) (overWrite st)
                                (drawGraphs st) (outDir st) (duration st))
        end
      else if String.eqb arg "-o" then
        match rest with
        | [] => Raise IndexError
        | v :: rest' =>
            parse rest' (mkArgs (dir1 st) (dir2 st) (label1 st) (label2 st) (overWrite st)
                                (drawGraphs st) (Some v) (duration st))
        end
      else if String.eqb arg "-l1" then
        match rest with
        | [] => Raise IndexError
        | v :: rest' =>
            parse rest' (mkArgs (dir1 st) (dir2 st) (Some v) (label2 st) (overWrite st)
                                (drawGraphs st) (outDir st) (duration st))
        end
      else if String.eqb arg "-l2" then
        match rest with
        | [] => Raise IndexError
        | v :: rest' =>
            parse rest' (mkArgs (dir1 st) (dir2 st) (label1 st) (Some v) (overWrite st)
                                (drawGraphs st) (outDir st) (duration st))
        end
      else if String.eqb arg "-ow" then
        parse rest (mkArgs (dir1 st) (dir2 st) (label1 st) (label2 st) true
                           (drawGraphs st) (outDir st) (duration st))
      else if String.eqb arg "-g" then
        parse rest (mkArgs (dir1 st) (dir2 st) (label1 st) (label2 st) (overWrite st)
                           true (outDir st) (duration st))
      else if String.eqb arg "-dur" then
        match rest with
        | [] => Raise IndexError
        | v :: rest' =>
            match float_of_str v with
            | Ok d =>
                parse rest' (mkArgs (dir1 st) (dir2 st) (label1 st) (label2 st)
                                    (overWrite st) (drawGraphs st) (outDir st) (Some d))
            | Raise e => Raise e
            end
        end
      else parse rest st
  end.

(** The loop of [main]: it starts at index 1. *)
Definition parse_argv (argv : list string) : result Args := parse (tl argv) defaults.

(** The flags that read a value. *)
Definition takes_value (arg : string) : bool :=
  String.eqb arg "-i1" || String.eqb arg "-i2" || String.eqb arg "-o"
  || String.eqb arg "-l1" || String.eqb arg "-l2" || String.eqb arg "-dur".

End CommandLine.

(** ** The labels *)

(** [s.find(c)] for a character [c]: the index of its first occurrence, or
    -1. *)
Fixpoint find (c : ascii) (s : string) : Z :=
  match s with
  | EmptyString => -1
  | String a rest =>
      if Ascii.eqb a c then 0
      else let k := find c rest in if k <? 0 then -1 else k + 1
  end.

(** [s[:k]]: a negative [k] counts from the end. *)
Definition slice_to (s : string) (k : Z) : string :=
  let n := Z.of_nat (String.length s) in
  let stop := if k <? 0 then Z.max 0 (n + k) else Z.min k n in
  substring 0 (Z.to_nat stop) s.

(** The statements under [if label1 is None:]. An integer is true when
    it is not zero. *)
Definition derive_label (dir : string) : string :=
  let label := dir in
  if negb (find "/"%char dir =? 0) then slice_to dir (find "/"%char dir) else label.

(** [c in s] *)
Fixpoint occurs (c : ascii) (s : string) : bool :=
  match s with
  | EmptyString => false
  | String a rest => Ascii.eqb a c || occurs c rest
  end.

End ContrastProfilesScript.

Section ScriptLabels.
Import ContrastProfilesScript.
Local Open Scope Z_scope.

Lemma find_absent (c : ascii) (s : string) : occurs c s = false -> find c s = -1.
Proof.
  induction s as [|a rest IH]; cbn; [reflexivity|].
  destruct (Ascii.eqb a c); cbn; [discriminate|].
  intros H. now rewrite (IH H).
Qed.

Lemma find_first (c : ascii) (pre rest : string) :
  occurs c pre = false ->
  find c (String.append pre (String c rest)) = Z.of_nat (String.length pre).
Proof.
  induction pre as [|a pre IH]; cbn [String.append find occurs String.length].
  - now rewrite Ascii.eqb_refl.
  - destruct (Ascii.eqb a c); cbn [orb]; [discriminate|].
    intros H. rewrite (IH H).
    destruct (Z.of_nat (String.length pre) <? 0) eqn:E; lia.
Qed.

Lemma substring_prefix (pre rest : string) :
  substring 0 (String.length pre) (String.append pre rest) = pre.
Proof.
  induction pre as [|a pre IH]; cbn.
  - now destruct rest.
  - now rewrite IH.
Qed.

Lemma length_append (s1 s2 : string) :
  String.length (String.append s1 s2) = (String.length s1 + String.length s2)%nat.
Proof. induction s1 as [|a s1 IH]; cbn; [reflexivity|]. now rewrite IH. Qed.

(** X21. The label derived from a directory. When the directory holds a
    ['/'] after its first character, the label is what comes before the
    first ['/']. When it holds no ['/'], [find] returns -1, which is true
    as a condition, and the label is the directory without its last
    character. When it starts with ['/'], [find] returns 0, which is false,
    and the label is the whole directory. *)
Theorem derive_label_cases :
  (forall pre rest,
      pre <> EmptyString -> occurs "/"%char pre = false ->
      derive_label (String.append pre (String "/"%char rest)) = pre) /\
  (forall dir,
      occurs "/"%char dir = false ->
      derive_label dir = substring 0 (String.length dir - 1) dir) /\
  (forall rest, derive_label (String "/"%char rest) = String "/" rest).
Proof.
  split; [|split].
  - intros pre rest Hne Hpre. unfold derive_label, slice_to.
    rewrite (find_first "/"%char pre rest Hpre).
    destruct pre as [|a pre]; [now contradiction Hne|].
    cbn [String.length]. rewrite length_append. cbn [String.length].
    rewrite (proj2 (Z.eqb_neq (Z.of_nat (S (String.length pre))) 0)) by lia.
    cbn [negb].
    rewrite (proj2 (Z.ltb_ge (Z.of_nat (S (String.length pre))) 0)) by lia.
    rewrite Z.min_l by lia. rewrite Nat2Z.id.
    exact (substring_prefix (String a pre) (String "/"%char rest)).
  - intros dir Hdir. unfold derive_label, slice_to.
    rewrite (find_absent "/"%char dir Hdir). cbn [Z.eqb negb Z.ltb Z.compare].
    f_equal. lia.
  - intros rest. reflexivity.
Qed.

Lemma derive_label_cases_witness :
  derive_label "data/control/rep0" = "data"%string /\
  derive_label "control" = "contro"%string /\
  derive_label "/home/data" = "/home/data"%string.
Proof.
  split; [|split].
  - apply (proj1 derive_label_cases "data"%string "control/rep0"%string);
      [discriminate|reflexivity].
  - exact (proj1 (proj2 derive_label_cases) "control"%string eq_refl).
  - exact (proj2 (proj2 derive_label_cases) "home/data"%string).
Defined.

End ScriptLabels.

Section ScriptArguments.
Import ContrastProfilesScript.
Variable float_of_str : string -> result float.

(** A list of arguments that the loop reads to its end can be followed by
    more: the loop goes on from the state it has reached. *)
Lemma parse_app_aux (n : nat) :
  forall (l1 l2 : list string) (st st1 : Args),
    (List.length l1 <= n)%nat ->
    parse float_of_str l1 st = Ok st1 ->
    parse float_of_str (l1 ++ l2) st = parse float_of_str l2 st1.
Proof.
  induction n as [|n IH]; intros l1 l2 st st1 Hlen.
  - destruct l1; [|cbn in Hlen; lia]. cbn. now intros [= <-].
  - destruct l1 as [|arg rest]; [cbn; now intros [= <-]|].
    cbn in Hlen. cbn [parse app].
    repeat match goal with
    | |- context [if String.eqb arg ?flag then _ else _] =>
        destruct (String.eqb arg flag)
    end;
    try (destruct rest as [|v rest']; [discriminate|]; cbn [app];
         try destruct (float_of_str v); try discriminate;
         apply IH; cbn in Hlen; lia);
    apply IH; lia.
Qed.

(** X22. The loop over [sys.argv] reads the command line in groups. When a
    list of arguments is read to its end without an exception, the loop
    over that list followed by further arguments goes on, on them, from the
    state it has reached; a flag that takes a value ([-i1], [-i2], [-o],
    [-l1], [-l2], [-dur]) as the very last argument then raises
    [IndexError]; and a flag given again overrides the earlier value. *)
Theorem parse_in_groups (l1 l2 : list string) (st st1 : Args) :
  parse float_of_str l1 st = Ok st1 ->
  parse float_of_str (l1 ++ l2) st = parse float_of_str l2 st1 /\
  (forall flag, takes_value flag = true ->
     parse float_of_str (l1 ++ [flag]) st = Raise IndexError) /\
  (forall v, exists st2,
     parse float_of_str (l1 ++ ["-i1"%string; v]) st = Ok st2 /\
     dir1 st2 = Some v /\ dir2 st2 = dir2 st1).
Proof.
  intros H. split; [|split].
  - exact (parse_app_aux _ l1 l2 st st1 (le_n _) H).
  - intros flag Hflag.
    rewrite (parse_app_aux _ l1 [flag] st st1 (le_n _) H).
    unfold takes_value in Hflag. rewrite !orb_true_iff in Hflag.
    destruct Hflag as [[[[[Hf|Hf]|Hf]|Hf]|Hf]|Hf];
      apply String.eqb_eq in Hf; subst flag; reflexivity.
  - intros v. rewrite (parse_app_aux _ l1 _ st st1 (le_n _) H).
    eexists. split; [reflexivity|]. split; reflexivity.
Qed.

End ScriptArguments.

Section ScriptArgumentsExamples.
Import ContrastProfilesScript.
Local Open Scope float_scope.

(** For the examples: the durations that the command lines below use. *)
Definition float_of_sample (s : string) : result float :=
  if String.eqb s "30" then Ok 30.0 else Raise ValueError.

Lemma parse_in_groups_witness :
  parse_argv float_of_sample ["prog"; "-i1"; "a"; "-g"; "-dur"; "30"]%string
  = Ok (mkArgs (Some "a"%string) None None None false true None (Some 30.0)) /\
  parse_argv float_of_sample ["prog"; "-i1"; "a"; "-g"; "-dur"; "30"; "-i2"]%string
  = Raise IndexError /\
  parse_argv float_of_sample ["prog"; "-i1"; "-i2"; "b"]%string
  = Ok (mkArgs (Some "-i2"%string) None None None false false None None).
Proof.
  assert (H : parse float_of_sample ["-i1"; "a"; "-g"; "-dur"; "30"]%string defaults
              = Ok (mkArgs (Some "a"%string) None None None false true None (Some 30.0)))
    by reflexivity.
  split; [exact H|]. split; [|reflexivity].
  exact (proj1 (proj2 (parse_in_groups float_of_sample _ ["-i2"]%string _ _ H))
           "-i2"%string eq_refl).
Defined.

End ScriptArgumentsExamples.

(* ================================================================= *)
(** * The collations of a constructed profile *)

Section CollationsOfProfiles.
Import Profile.
Local Open Scope float_scope.

Lemma collate_rolls_from (self : Profile.t) (v : float) :
  In v (collate_rolls self) <->
  exists t p, In t (tracks self) /\ In p (Track.positions t) /\
              Position.roll p = Some v /\ is_nan v = false.
Proof.
  unfold collate_rolls, Math.isnan. rewrite in_flat_map. split.
  - intros (t & Ht & H). apply in_flat_map in H as (p & Hp & H).
    exists t, p. destruct (Position.roll p) as [s|]; [|contradiction].
    destruct (is_nan s) eqn:En; cbn in H; [contradiction|].
    destruct H as [<-|[]]. auto.
  - intros (t & p & Ht & Hp & Hs & Hn). exists t. split; [assumption|].
    apply in_flat_map. exists p. split; [assumption|].
    rewrite Hs, Hn. now left.
Qed.

(** X23. [collate_speeds], [collate_turns] and [collate_rolls] never return
    a [nan]. A speed or a turn that is returned is that of a position that
    meets the arrest-coefficient threshold; a roll is returned whether its
    position meets the threshold or not: [collate_rolls] has no such
    test. *)
Theorem per_position_collations (self : Profile.t) :
  Forall (fun v => is_nan v = false)
         (collate_speeds self ++ collate_turns self ++ collate_rolls self) /\
  (forall v, In v (collate_speeds self) ->
     exists t p, In t (tracks self) /\ In p (Track.positions t) /\
                 Position.speed p = Some v /\
                 Position.meets_arrest_coeff_threshold p = true) /\
  (forall v, In v (collate_turns self) ->
     exists t p, In t (tracks self) /\ In p (Track.positions t) /\
                 Position.turn p = Some v /\
                 Position.meets_arrest_coeff_threshold p = true) /\
  (forall t p v, In t (tracks self) -> In p (Track.positions t) ->
     Position.roll p = Some v -> is_nan v = false -> In v (collate_rolls self)).
Proof.
  split; [|split; [|split]].
  - rewrite !Forall_app. repeat split; apply Forall_forall; intros v Hv.
    + apply collate_speeds_from in Hv as (_ & _ & _ & _ & _ & Hn & _). exact Hn.
    + apply collate_turns_from in Hv as (_ & _ & _ & _ & _ & Hn & _). exact Hn.
    + apply collate_rolls_from in Hv as (_ & _ & _ & _ & _ & Hn). exact Hn.
  - intros v Hv. apply collate_speeds_from in Hv as (t & p & Ht & Hp & Hs & _ & Hm).
    now exists t, p.
  - intros v Hv. apply collate_turns_from in Hv as (t & p & Ht & Hp & Hs & _ & Hm).
    now exists t, p.
  - intros t p v Ht Hp Hr Hn. apply collate_rolls_from. now exists t, p.
Qed.

(** A track with one position that fails the blebbing filter and has a
    speed, a turn and a roll. *)
Definition blebbing_position : Position.t :=
  Position.mk (Some 1.0) (Some 1.0) (Some 1.0) (Some 0.0)
              (Some 2.0) (Some 0.5) (Some 0.25) None (Some 0.0) false.

Definition blebbing : Track.t := Sample.track 14 [blebbing_position] [].

Lemma per_position_collations_witness :
  exists self,
    Sample.profile [blebbing] = Ok self /\
    collate_speeds self = [] /\ collate_turns self = [] /\
    collate_rolls self = [0.25] /\ In 0.25 (collate_rolls self).
Proof.
  eexists. split; [reflexivity|]. split; [reflexivity|]. split; [reflexivity|].
  split; [reflexivity|].
  refine (proj2 (proj2 (proj2 (per_position_collations _))) blebbing blebbing_position
            0.25 _ _ eq_refl eq_refl); now left.
Defined.

(** ** Per track *)

Lemma truthy_above (thr v : float) :
  (0 <? thr) = true -> (thr <=? v) = true -> Py.truthy v = true.
Proof.
  intros Hthr Hv. unfold Py.truthy. apply negb_true_iff.
  pose proof (FloatOrder.ltb_leb_trans _ _ _ Hthr Hv) as Hpos.
  rewrite FloatOrder.eqb_sym. now apply FloatOrder.ltb_not_eqb.
Qed.

(** X24. For a profile that the constructor returns, [collate_meanders],
    [collate_lengths] and [collate_displacements] return the attributes
    [meander], [length] and [displacement] without their zeros. With a
    [trim_displacement] above zero no retained displacement is zero, and
    [collate_displacements] returns [displacement] itself. *)
Theorem collations_of_constructed (input : list Track.t) (td : option float)
  (tobs : option Z) (tdur tac : option float) (analyse_teleports : bool)
  (out : list event) (s : Profile.t) :
  init input td tobs tdur tac analyse_teleports = (out, Ok s) ->
  collate_meanders s = filter Py.truthy (meander s) /\
  collate_lengths s = filter Py.truthy (Profile.length s) /\
  collate_displacements s = filter Py.truthy (displacement s) /\
  (forall thr, td = Some thr -> (0 <? thr) = true ->
     collate_displacements s = displacement s).
Proof.
  intros H. apply init_returns in H. subst s.
  unfold collate_meanders, collate_lengths, collate_displacements.
  rewrite !flat_map_singleton_filter.
  cbn [summarised tracks meander Profile.length displacement] in *.
  repeat split.
  intros thr -> Hthr. apply filter_all. intros v Hv.
  apply in_map_iff in Hv as (t & <- & Ht).
  rewrite pipeline_keeps in Ht. apply filter_In in Ht as [_ Ht].
  unfold keeps in Ht. repeat (apply andb_true_iff in Ht as [Ht _]).
  unfold passes_displacement in Ht.
  assert (Hactive : Py.truthy thr = true).
  { unfold Py.truthy. apply negb_true_iff. rewrite FloatOrder.eqb_sym.
    now apply FloatOrder.ltb_not_eqb. }
  rewrite Hactive in Ht. exact (truthy_above thr _ Hthr Ht).
Qed.

(** Tracks of displacement 0 and 5. *)
Lemma collations_of_constructed_witness :
  exists out s out' s',
    init [displaced 1 0.0; displaced 2 5.0] None None None None false = (out, Ok s) /\
    displacement s = [0.0; 5.0] /\ collate_displacements s = [5.0] /\
    init [displaced 1 0.0; displaced 2 5.0] (Some 2.0) None None None false
    = (out', Ok s') /\
    collate_displacements s' = displacement s' /\ displacement s' = [5.0].
Proof.
  assert (H : exists out s,
             init [displaced 1 0.0; displaced 2 5.0] None None None None false
             = (out, Ok s))
    by (eexists _, _; vm_compute; reflexivity).
  assert (H' : exists out' s',
             init [displaced 1 0.0; displaced 2 5.0] (Some 2.0) None None None false
             = (out', Ok s'))
    by (eexists _, _; vm_compute; reflexivity).
  destruct H as (out & s & H). destruct H' as (out' & s' & H').
  exists out, s, out', s'.
  pose proof (collations_of_constructed _ _ _ _ _ _ _ _ H') as (_ & _ & _ & Hsame).
  specialize (Hsame 2.0 eq_refl eq_refl).
  split; [exact H|].
  pose proof H as E. vm_compute in E. injection E as _ <-.
  split; [reflexivity|]. split; [reflexivity|].
  split; [exact H'|]. split; [exact Hsame|].
  pose proof H' as E'. vm_compute in E'. injection E' as _ <-. reflexivity.
Defined.

End CollationsOfProfiles.
